(** * admira-etl: normalisation, deduplication, quality report and channel metrics

    A shallow embedding of [internal/metrics] (the [Calculator]) and
    [internal/transformer] (the [Transformer]) of the admira-etl service,
    together with the small part of the Go runtime and standard library they
    rely on: 64-bit integers, IEEE-754 binary64 floats, [strings.TrimSpace],
    [time.Parse] / [Time.Format] for the layouts the code uses, [math.Round],
    Go maps as shared, mutable references. *)

From Stdlib Require Import ZArith Lia SpecFloat Ascii String.
From stdpp Require Import base option list gmap strings pretty fin_maps sorting.

Local Open Scope Z_scope.

(** ** Go runtime *)

(** Go's [int] on the 64-bit targets the service is built for: a signed
    64-bit integer whose arithmetic wraps around. *)
Definition wrap64 (z : Z) : Z := (z + 2 ^ 63) mod 2 ^ 64 - 2 ^ 63.

(** [float64] is IEEE-754 binary64; the operations are the correctly rounded
    (to nearest, ties to even) ones of the specification in [SpecFloat]. *)
Abbreviation float64 := spec_float.

Module Float64.
Definition prec : Z := 53.
Definition emax : Z := 1024.

Definition add : float64 -> float64 -> float64 := SFadd prec emax.
Definition sub : float64 -> float64 -> float64 := SFsub prec emax.
Definition mul : float64 -> float64 -> float64 := SFmul prec emax.
Definition div : float64 -> float64 -> float64 := SFdiv prec emax.

(** The comparisons [==] and [<]: false as soon as an operand is NaN, and
    the two zeros are equal. *)
Definition eqb : float64 -> float64 -> bool := SFeqb.
Definition ltb : float64 -> float64 -> bool := SFltb.

(** The conversion [float64(n)] of an integer. *)
Definition of_int (n : Z) : float64 := binary_normalize prec emax n 0 false.

Definition zero : float64 := S754_zero false.

Definition is_finite (x : float64) : bool :=
  match x with
  | S754_zero _ | S754_finite _ _ _ => true
  | S754_infinity _ | S754_nan => false
  end.
End Float64.

(** ** Package math *)

Module math.
Definition IsNaN (f : float64) : bool :=
  match f with S754_nan => true | _ => false end.

(** [IsInf(f, sign)]: [sign > 0] asks for +Inf, [sign < 0] for -Inf and
    [sign == 0] for either. *)
Definition IsInf (f : float64) (sign : Z) : bool :=
  match f with
  | S754_infinity neg =>
      (0 <=? sign) && negb neg || (sign <=? 0) && neg
  | _ => false
  end.

(** [Round] rounds to the nearest integer, halves away from zero.  The
    library works on the bit pattern: with [e] the biased exponent,
    [e < bias] (so |x| < 1) gives ±0, or ±1 when [e == bias-1]
    (|x| >= 0.5); [e < bias+shift] (so |x| < 2^52) adds one half and
    clears the fraction bits; larger exponents (big integers, ±Inf, NaN)
    are returned unchanged.  Here [ex] is the unbiased exponent
    [e - bias] of a finite [m * 2^e']. *)
Definition shift : Z := 52.

Definition Round (x : float64) : float64 :=
  match x with
  | S754_finite s m e' =>
      let ex := Z.pos (digits2_pos m) + e' - 1 in
      if ex <? 0 then
        if ex =? -1 then S754_finite s (2 ^ 52) (-52) else S754_zero s
      else if ex <? shift then
        let k := - e' in
        let n := (Z.pos m + 2 ^ (k - 1)) / 2 ^ k in
        binary_normalize Float64.prec Float64.emax (cond_Zopp s n) 0 s
      else x
  | _ => x
  end.
End math.

(** ** Strings

    A Go string is a sequence of bytes, here a [string] of 8-bit [ascii]
    characters; text is UTF-8 encoded. *)

Definition byte (n : N) : ascii := Ascii.ascii_of_N n.

Fixpoint bytes (l : list N) : string :=
  match l with
  | [] => EmptyString
  | n :: l => String (byte n) (bytes l)
  end.

Module strings.
(** The UTF-8 encodings of the runes for which [unicode.IsSpace] holds:
    the six ASCII ones, U+0085, U+00A0, U+1680, U+2000..U+200A, U+2028,
    U+2029, U+202F, U+205F and U+3000. *)
Definition white_space : list string :=
  [ bytes [0x09]; bytes [0x0A]; bytes [0x0B]; bytes [0x0C]; bytes [0x0D];
    bytes [0x20]; bytes [0xC2; 0x85]; bytes [0xC2; 0xA0];
    bytes [0xE1; 0x9A; 0x80];
    bytes [0xE2; 0x80; 0x80]; bytes [0xE2; 0x80; 0x81];
    bytes [0xE2; 0x80; 0x82]; bytes [0xE2; 0x80; 0x83];
    bytes [0xE2; 0x80; 0x84]; bytes [0xE2; 0x80; 0x85];
    bytes [0xE2; 0x80; 0x86]; bytes [0xE2; 0x80; 0x87];
    bytes [0xE2; 0x80; 0x88]; bytes [0xE2; 0x80; 0x89];
    bytes [0xE2; 0x80; 0x8A]; bytes [0xE2; 0x80; 0xA8];
    bytes [0xE2; 0x80; 0xA9]; bytes [0xE2; 0x80; 0xAF];
    bytes [0xE2; 0x81; 0x9F]; bytes [0xE3; 0x80; 0x80] ]%N.

(** The number of bytes of the white-space rune [s] starts with, 0 when it
    starts with none. *)
Definition space_width (table : list string) (s : string) : nat :=
  from_option String.length 0%nat (List.find (fun w => String.prefix w s) table).

(** [TrimLeftFunc(s, unicode.IsSpace)], over a table of encodings. *)
Fixpoint trimLeft (table : list string) (s : string) : string :=
  match s with
  | EmptyString => EmptyString
  | String _ r1 =>
      match space_width table s with
      | 0%nat => s
      | 1%nat => trimLeft table r1
      | 2%nat => match r1 with
                 | String _ r2 => trimLeft table r2
                 | _ => s
                 end
      | _ => match r1 with
             | String _ (String _ r3) => trimLeft table r3
             | _ => s
             end
      end
  end.

(** [TrimSpace] removes the leading and then the trailing white space; the
    trailing runes are recognised from the end of the string, here on the
    reversed bytes. *)
Definition TrimSpace (s : string) : string :=
  String.rev (trimLeft (String.rev <$> white_space)
                (String.rev (trimLeft white_space s))).
End strings.

(** ** Package fmt: the verb [%d] *)

Module fmt.
Definition d (n : Z) : string := pretty n.
End fmt.

(** ** Package strconv *)

Module strconv.
(** The loop of [ParseUint] in base 10, for 64 bits: the digits are read
    from the left and reading stops at the first character that is not a
    digit (a syntax error) or as soon as the value no longer fits (a range
    error). *)
Inductive parsed : Type :=
| value (n : Z)
| syntax_error
| range_error.

Fixpoint parse_digits (n : Z) (s : string) : parsed :=
  match s with
  | EmptyString => value n
  | String c r =>
      let d := Z.of_N (Ascii.N_of_ascii c) - 48 in
      if (0 <=? d) && (d <=? 9) then
        if 2 ^ 64 - 1 <? n * 10 + d then range_error
        else parse_digits (n * 10 + d) r
      else syntax_error
  end.

(** [Atoi(s)]: the value returned, and whether the error returned is nil.
    A syntax error comes with 0, a range error with the nearest [int]. *)
Definition Atoi (s : string) : Z * bool :=
  let '(neg, digits) :=
    match s with
    | String "-" r => (true, r)
    | String "+" r => (false, r)
    | _ => (false, s)
    end in
  match digits with
  | EmptyString => (0, false)
  | _ =>
      match parse_digits 0 digits with
      | syntax_error => (0, false)
      | range_error => (if neg then - 2 ^ 63 else 2 ^ 63 - 1, false)
      | value un =>
          if negb neg && (2 ^ 63 <=? un) then (2 ^ 63 - 1, false)
          else if neg && (2 ^ 63 <? un) then (- 2 ^ 63, false)
          else (if neg then - un else un, true)
      end
  end.
End strconv.

(** ** Package time

    A [Time] is represented by its civil fields in UTC, the location of
    every value [Parse] returns for the layouts below (none has a zone). *)

Module time.
Record Time : Type := Date {
  Year : Z; Month : Z; Day : Z;
  Hour : Z; Minute : Z; Second : Z; Nanosecond : Z
}.

(** The zero value [time.Time{}]: January 1, year 1, 00:00:00 UTC. *)
Definition zero : Time := Date 1 1 1 0 0 0 0.

Global Instance Time_eq_dec : EqDecision Time.
Proof. solve_decision. Defined.

(** The elements of a layout: the reference-time fields the layouts of
    this program use, and the literal text between them. *)
Inductive chunk : Type :=
| stdLongYear          (* 2006 *)
| stdZeroMonth         (* 01 *)
| stdZeroDay           (* 02 *)
| stdHour              (* 15 *)
| stdZeroMinute        (* 04 *)
| stdZeroSecond        (* 05 *)
| stdFracSecond0 (digits : nat)   (* .000 *)
| literal (s : string).

Definition layout_date_dash : list chunk :=      (* 2006-01-02 *)
  [stdLongYear; literal "-"; stdZeroMonth; literal "-"; stdZeroDay].
Definition layout_date_slash : list chunk :=     (* 2006/01/02 *)
  [stdLongYear; literal "/"; stdZeroMonth; literal "/"; stdZeroDay].
Definition clock : list chunk :=                 (* 15:04:05 *)
  [stdHour; literal ":"; stdZeroMinute; literal ":"; stdZeroSecond].
Definition layout_iso : list chunk :=            (* 2006-01-02T15:04:05Z *)
  layout_date_dash ++ [literal "T"] ++ clock ++ [literal "Z"].
Definition layout_iso_millis : list chunk :=     (* 2006-01-02T15:04:05.000Z *)
  layout_date_dash ++ [literal "T"] ++ clock ++ [stdFracSecond0 3; literal "Z"].
Definition layout_datetime_dash : list chunk :=  (* 2006-01-02 15:04:05 *)
  layout_date_dash ++ [literal " "] ++ clock.
Definition layout_datetime_slash : list chunk := (* 2006/01/02 15:04:05 *)
  layout_date_slash ++ [literal " "] ++ clock.

(** *** Formatting *)

Fixpoint zeros (n : nat) : string :=
  match n with O => "" | S n => String "0" (zeros n) end.

(** [appendInt]: the decimal form of [x], zero-padded to [width]. *)
Definition appendInt (x : Z) (width : nat) : string :=
  let digits := pretty (Z.abs_N x) in
  (if x <? 0 then "-" else "")
    +:+ zeros (width - String.length digits) +:+ digits.

(** [t.Format("2006-01-02")]. *)
Definition FormatDate (t : Time) : string :=
  appendInt (Year t) 4 +:+ "-" +:+ appendInt (Month t) 2
    +:+ "-" +:+ appendInt (Day t) 2.

(** *** Parsing *)

Definition digit (c : ascii) : option Z :=
  let n := Z.of_N (Ascii.N_of_ascii c) in
  if (48 <=? n) && (n <=? 57) then Some (n - 48) else None.

Definition isDigit (s : string) (i : nat) : bool :=
  match String.get i s with
  | Some c => bool_decide (is_Some (digit c))
  | None => false
  end.

Definition drop (n : nat) (s : string) : string :=
  String.substring n (String.length s - n) s.
Definition take (n : nat) (s : string) : string :=
  String.substring 0 n s.

(** [leadingInt] restricted to what [atoi] accepts: the whole of [s] must
    be digits ([acc] is the value read so far). *)
Fixpoint digits_value (acc : Z) (s : string) : option Z :=
  match s with
  | EmptyString => Some acc
  | String c r =>
      match digit c with
      | Some v => digits_value (acc * 10 + v) r
      | None => None
      end
  end.

Definition atoi (s : string) : option Z :=
  match s with
  | String "-" r => Z.opp <$> digits_value 0 r
  | String "+" r => digits_value 0 r
  | _ => digits_value 0 s
  end.

(** [getnum]: one or two digits, exactly two when [fixed]. *)
Definition getnum (s : string) (fixed : bool) : option (Z * string) :=
  match s with
  | String c0 r0 =>
      match digit c0 with
      | None => None
      | Some d0 =>
          match r0 with
          | String c1 r1 =>
              match digit c1 with
              | Some d1 => Some (d0 * 10 + d1, r1)
              | None => if fixed then None else Some (d0, r0)
              end
          | EmptyString => if fixed then None else Some (d0, r0)
          end
      end
  | EmptyString => None
  end.

Fixpoint cutspace (s : string) : string :=
  match s with
  | String " " r => cutspace r
  | _ => s
  end.

(** [skip] matches the literal text of the layout against the value; a
    space of the layout stands for any run of spaces of the value (and a
    run of spaces of the layout counts as one: [in_run] tells that the
    preceding space of the layout has already been matched). *)
Fixpoint skip_from (in_run : bool) (value pre : string) : option string :=
  match pre with
  | EmptyString => Some value
  | String p pre' =>
      if decide (p = " "%char) then
        if in_run then skip_from true value pre'
        else
          match value with
          | EmptyString => skip_from true value pre'
          | String v _ =>
              if decide (v = " "%char)
              then skip_from true (cutspace value) pre'
              else None
          end
      else
        match value with
        | String v value' =>
            if decide (v = p) then skip_from false value' pre' else None
        | EmptyString => None
        end
  end.

Definition skip : string -> string -> option string := skip_from false.

Definition commaOrPeriod (c : ascii) : bool :=
  bool_decide (c = "."%char) || bool_decide (c = ","%char).

(** [parseNanoseconds(value, nbytes)]: [value] starts with the separator,
    followed by [nbytes - 1] characters, of which at most nine count. *)
Definition parseNanoseconds (value : string) (nbytes : nat) : option Z :=
  match value with
  | String c _ =>
      if commaOrPeriod c then
        let nbytes := Nat.min nbytes 10 in
        ns ← atoi (String.substring 1 (nbytes - 1) value);
        if ns <? 0 then None else Some (ns * 10 ^ Z.of_nat (10 - nbytes))
      else None
  | EmptyString => None
  end.

(** The number of leading digits of [s]. *)
Fixpoint digits_len (s : string) : nat :=
  match s with
  | String c r => if digit c is Some _ then S (digits_len r) else 0%nat
  | EmptyString => 0%nat
  end.

(** The next field of the layout, literal text skipped. *)
Fixpoint next_std (layout : list chunk) : option chunk :=
  match layout with
  | literal _ :: rest => next_std rest
  | c :: _ => Some c
  | [] => None
  end.

Definition isLeap (year : Z) : bool :=
  (year mod 4 =? 0) && (negb (year mod 100 =? 0) || (year mod 400 =? 0)).

Definition daysIn (m year : Z) : Z :=
  if m =? 2 then (if isLeap year then 29 else 28)
  else if (m =? 4) || (m =? 6) || (m =? 9) || (m =? 11) then 30 else 31.

(** The fields [Parse] collects, with their initial values. *)
Definition parse_init : Time := Date 0 (-1) (-1) 0 0 0 0.

Definition in_range (lo x hi : Z) : bool := (lo <=? x) && (x <? hi).

Fixpoint parse_chunks (layout : list chunk) (value : string) (t : Time)
  : option Time :=
  match layout with
  | [] => if decide (value = "") then Some t else None
  | literal pre :: rest =>
      value ← skip value pre; parse_chunks rest value t
  | stdLongYear :: rest =>
      if (String.length value <? 4)%nat || negb (isDigit value 0) then None
      else
        year ← atoi (take 4 value);
        parse_chunks rest (drop 4 value)
          (Date year (Month t) (Day t) (Hour t) (Minute t) (Second t) (Nanosecond t))
  | stdZeroMonth :: rest =>
      '(month, value) ← getnum value true;
      if in_range 1 month 13 then
        parse_chunks rest value
          (Date (Year t) month (Day t) (Hour t) (Minute t) (Second t) (Nanosecond t))
      else None
  | stdZeroDay :: rest =>
      (* any two-digit day here; validated once parsing is complete *)
      '(day, value) ← getnum value true;
      parse_chunks rest value
        (Date (Year t) (Month t) day (Hour t) (Minute t) (Second t) (Nanosecond t))
  | stdHour :: rest =>
      '(hour, value) ← getnum value false;
      if in_range 0 hour 24 then
        parse_chunks rest value
          (Date (Year t) (Month t) (Day t) hour (Minute t) (Second t) (Nanosecond t))
      else None
  | stdZeroMinute :: rest =>
      '(min, value) ← getnum value true;
      if in_range 0 min 60 then
        parse_chunks rest value
          (Date (Year t) (Month t) (Day t) (Hour t) min (Second t) (Nanosecond t))
      else None
  | stdZeroSecond :: rest =>
      '(sec, value) ← getnum value true;
      if in_range 0 sec 60 then
        let t := Date (Year t) (Month t) (Day t) (Hour t) (Minute t) sec (Nanosecond t) in
        (* a fractional second in the input but none in the layout *)
        if (2 <=? String.length value)%nat
           && from_option commaOrPeriod false (String.get 0 value)
           && isDigit value 1 then
          match next_std rest with
          | Some (stdFracSecond0 _) => parse_chunks rest value t
          | _ =>
              let n := (1 + digits_len (drop 1 value))%nat in
              nsec ← parseNanoseconds value n;
              parse_chunks rest (drop n value)
                (Date (Year t) (Month t) (Day t) (Hour t) (Minute t) (Second t) nsec)
          end
        else parse_chunks rest value t
      else None
  | stdFracSecond0 digits :: rest =>
      let ndigit := (1 + digits)%nat in
      if (String.length value <? ndigit)%nat then None
      else
        nsec ← parseNanoseconds value ndigit;
        parse_chunks rest (drop ndigit value)
          (Date (Year t) (Month t) (Day t) (Hour t) (Minute t) (Second t) nsec)
  end.

(** [time.Parse(layout, value)]; [None] stands for a non-nil error. *)
Definition Parse (layout : list chunk) (value : string) : option Time :=
  t ← parse_chunks layout value parse_init;
  let month := if Month t <? 0 then 1 else Month t in
  let day := if Day t <? 0 then 1 else Day t in
  if (day <? 1) || (daysIn month (Year t) <? day) then None
  else Some (Date (Year t) month day (Hour t) (Minute t) (Second t) (Nanosecond t)).

(** *** Comparing instants

    The times of this program are in UTC with their fields in range (they
    come from [Parse], from [Date] with fields in range, or are the zero
    time): the order of the instants is the lexicographic order of the
    fields. *)
Definition fields (t : Time) : list Z :=
  [Year t; Month t; Day t; Hour t; Minute t; Second t; Nanosecond t].

Fixpoint compare_fields (a b : list Z) : comparison :=
  match a, b with
  | x :: a, y :: b =>
      match x ?= y with
      | Eq => compare_fields a b
      | c => c
      end
  | _, _ => Eq
  end.

Definition Compare (t u : Time) : comparison :=
  compare_fields (fields t) (fields u).

Definition Equal (t u : Time) : bool :=
  match Compare t u with Eq => true | _ => false end.
Definition Before (t u : Time) : bool :=
  match Compare t u with Lt => true | _ => false end.
Definition After (t u : Time) : bool :=
  match Compare t u with Gt => true | _ => false end.

Definition IsZero (t : Time) : bool := Equal t zero.
End time.

(** ** Package models *)

Module models.
(** The dynamic values the program stores in an [interface{}]: the raw
    field values kept for audit. *)
Inductive any : Type :=
| AString (s : string)
| AInt (n : Z)
| AFloat (x : float64)
| AStringPtr (p : option string).

Module FieldQuality.
Record t : Type := mk {
  IsValid : bool;
  Description : string;
  OriginalValue : any
}.
End FieldQuality.

(** A value of type [map[string]FieldQuality] is a reference to a map
    object in memory: copying a struct that holds it copies the reference,
    not the entries. *)
Abbreviation mapref := nat.

Module RecordQuality.
Record t : Type := mk {
  RecordID : string;
  IsValid : bool;
  FieldErrors : mapref;
  ErrorCount : Z
}.
Definition set_IsValid (q : t) (b : bool) : t :=
  mk (RecordID q) b (FieldErrors q) (ErrorCount q).
Definition set_ErrorCount (q : t) (n : Z) : t :=
  mk (RecordID q) (IsValid q) (FieldErrors q) n.
End RecordQuality.

(** A [*string] is [None] when nil. *)
Module AdsRecord.
Record t : Type := mk {
  Date : string;
  CampaignID : string;
  Channel : string;
  Clicks : Z;
  Impressions : Z;
  Cost : float64;
  UTMCampaign : string;
  UTMSource : option string;
  UTMMedium : option string
}.
End AdsRecord.

Module CRMRecord.
Record t : Type := mk {
  OpportunityID : string;
  ContactEmail : string;
  Stage : string;
  Amount : float64;
  CreatedAt : string;
  UTMCampaign : string;
  UTMSource : option string;
  UTMMedium : option string
}.
End CRMRecord.

Module NormalizedAdsRecord.
Record t : Type := mk {
  Date : time.Time;
  CampaignID : string;
  Channel : string;
  Clicks : Z;
  Impressions : Z;
  Cost : float64;
  UTMCampaign : string;
  UTMSource : string;
  UTMMedium : string;
  UTMKey : string;
  Quality : RecordQuality.t
}.
Definition set_UTMKey (r : t) (k : string) : t :=
  mk (Date r) (CampaignID r) (Channel r) (Clicks r) (Impressions r)
     (Cost r) (UTMCampaign r) (UTMSource r) (UTMMedium r) k (Quality r).
Definition set_Quality (r : t) (q : RecordQuality.t) : t :=
  mk (Date r) (CampaignID r) (Channel r) (Clicks r) (Impressions r)
     (Cost r) (UTMCampaign r) (UTMSource r) (UTMMedium r) (UTMKey r) q.
End NormalizedAdsRecord.

Module NormalizedCRMRecord.
Record t : Type := mk {
  OpportunityID : string;
  ContactEmail : string;
  Stage : string;
  Amount : float64;
  CreatedAt : time.Time;
  UTMCampaign : string;
  UTMSource : string;
  UTMMedium : string;
  UTMKey : string;
  Quality : RecordQuality.t
}.
Definition set_UTMKey (r : t) (k : string) : t :=
  mk (OpportunityID r) (ContactEmail r) (Stage r) (Amount r)
     (CreatedAt r) (UTMCampaign r) (UTMSource r) (UTMMedium r) k (Quality r).
Definition set_Quality (r : t) (q : RecordQuality.t) : t :=
  mk (OpportunityID r) (ContactEmail r) (Stage r) (Amount r)
     (CreatedAt r) (UTMCampaign r) (UTMSource r) (UTMMedium r) (UTMKey r) q.
End NormalizedCRMRecord.

(** [QualityScore], [TotalRecords] and [ValidRecords] are left at their
    zero values by [CalculateChannelMetrics]. *)
Module ChannelMetrics.
Record t : Type := mk {
  Channel : string;
  Date : string;
  Clicks : Z;
  Impressions : Z;
  Cost : float64;
  Leads : Z;
  Opportunities : Z;
  ClosedWon : Z;
  Revenue : float64;
  CPC : float64;
  CPA : float64;
  CVRLeadToOpp : float64;
  CVROppToWon : float64;
  ROAS : float64;
  QualityScore : float64;
  TotalRecords : Z;
  ValidRecords : Z
}.
End ChannelMetrics.

Module QualitySummary.
Record t : Type := mk {
  TotalAdsRecords : Z;
  ValidAdsRecords : Z;
  AdsQualityScore : float64;
  TotalCRMRecords : Z;
  ValidCRMRecords : Z;
  CRMQualityScore : float64;
  OverallQualityScore : float64;
  CommonIssues : list string
}.
End QualitySummary.

Module DataQualityReport.
Record t : Type := mk {
  Summary : QualitySummary.t;
  AdsReport : list RecordQuality.t;
  CRMReport : list RecordQuality.t;
  Timestamp : string
}.
End DataQualityReport.

(** [QualityScore], [TotalRecords] and [ValidRecords] are left at their
    zero values by [CalculateFunnelMetrics]. *)
Module FunnelMetrics.
Record t : Type := mk {
  UTMCampaign : string;
  UTMSource : string;
  UTMMedium : string;
  Clicks : Z;
  Impressions : Z;
  Cost : float64;
  Leads : Z;
  Opportunities : Z;
  ClosedWon : Z;
  Revenue : float64;
  CPC : float64;
  CPA : float64;
  CVRLeadToOpp : float64;
  CVROppToWon : float64;
  ROAS : float64;
  QualityScore : float64;
  TotalRecords : Z;
  ValidRecords : Z
}.
End FunnelMetrics.

(** [Data] is an [interface{}]; the handlers put a slice of metrics in it,
    here a list of rows of type [A]. *)
Module MetricsResponse.
Record t (A : Type) : Type := mk {
  Data : list A;
  Total : Z;
  Page : Z;
  Limit : Z;
  HasMore : bool
}.
Arguments mk {A}.
Arguments Data {A}.
Arguments Total {A}.
Arguments Page {A}.
Arguments Limit {A}.
Arguments HasMore {A}.
End MetricsResponse.

Module ExportRecord.
Record t : Type := mk {
  Date : string;
  Channel : string;
  CampaignID : string;
  Clicks : Z;
  Impressions : Z;
  Cost : float64;
  Leads : Z;
  Opportunities : Z;
  ClosedWon : Z;
  Revenue : float64;
  CPC : float64;
  CPA : float64;
  CVRLeadToOpp : float64;
  CVROppToWon : float64;
  ROAS : float64
}.
End ExportRecord.
End models.

Import models.

(** ** Memory: the map objects

    The heap holds the [map[string]FieldQuality] objects; a reference is an
    index into it.  A reference outside the heap is the nil map: it reads as
    an empty map and assigning to one of its entries panics. *)

Abbreviation fieldmap := (gmap string FieldQuality.t).
Abbreviation heap := (list fieldmap).

(** A computation that may allocate and update maps, and may panic
    ([None]). *)
Definition M (A : Type) : Type := heap -> option (A * heap).

Global Instance M_ret : MRet M := fun A (a : A) h => Some (a, h).
Global Instance M_bind : MBind M := fun A B (k : A -> M B) (c : M A) h =>
  match c h with
  | Some (a, h') => k a h'
  | None => None
  end.

(** [make(map[string]models.FieldQuality)] *)
Definition make_map : M mapref :=
  fun h => Some (length h, h ++ [∅]).

(** [m[k] = v] *)
Definition map_store (m : mapref) (k : string) (v : FieldQuality.t) : M unit :=
  fun h =>
    match h !! m with
    | Some entries => Some (tt, <[m := <[k := v]> entries]> h)
    | None => None
    end.

(** The entries a reference denotes, as [range] and indexing see them. *)
Definition map_load (h : heap) (m : mapref) : fieldmap :=
  default ∅ (h !! m).

(** [n++] on an [int]. *)
Definition incr (n : Z) : Z := wrap64 (n + 1).

(** ** Package metrics: the calculator *)

Module metrics.
Definition safeDivide (numerator denominator : float64) : float64 :=
  if Float64.eqb denominator Float64.zero then Float64.zero
  else
    let result := Float64.div numerator denominator in
    if math.IsNaN result || math.IsInf result 0 then Float64.zero
    else Float64.div (math.Round (Float64.mul result (Float64.of_int 1000)))
                     (Float64.of_int 1000).

(** The key under which an advertising record is grouped. *)
Definition group_key (record : NormalizedAdsRecord.t) : string :=
  time.FormatDate (NormalizedAdsRecord.Date record) +:+ "|"
    +:+ NormalizedAdsRecord.Channel record.

(** The first loop: [adsGrouped], a map from key to the records appended
    under it. *)
Definition group_step (channel : string)
    (adsGrouped : gmap string (list NormalizedAdsRecord.t))
    (record : NormalizedAdsRecord.t) : gmap string (list NormalizedAdsRecord.t) :=
  if bool_decide (channel = "") || bool_decide (NormalizedAdsRecord.Channel record = channel)
  then
    let key := group_key record in
    <[key := (default [] (adsGrouped !! key) ++ [record])%list]> adsGrouped
  else adsGrouped.

Definition group_ads (channel : string) (adsRecords : list NormalizedAdsRecord.t)
  : gmap string (list NormalizedAdsRecord.t) :=
  foldl (group_step channel) ∅ adsRecords.

(** The local variables of the loop over the records of a group. *)
Record ads_totals : Type := AdsTotals {
  totalClicks : Z;
  totalImpressions : Z;
  totalCost : float64;
  utmKeys : gset string
}.

Definition ads_step (a : ads_totals) (record : NormalizedAdsRecord.t) : ads_totals :=
  AdsTotals (wrap64 (totalClicks a + NormalizedAdsRecord.Clicks record))
            (wrap64 (totalImpressions a + NormalizedAdsRecord.Impressions record))
            (Float64.add (totalCost a) (NormalizedAdsRecord.Cost record))
            ({[NormalizedAdsRecord.UTMKey record]} ∪ utmKeys a).

(** The local variables of the loop over the CRM records. *)
Record crm_tally : Type := CrmTally {
  leads : Z;
  opportunities : Z;
  closedWon : Z;
  revenue : float64
}.

Definition crm_step (date : string) (keys : gset string)
    (t : crm_tally) (crmRecord : NormalizedCRMRecord.t) : crm_tally :=
  let recordDate := time.FormatDate (NormalizedCRMRecord.CreatedAt crmRecord) in
  if bool_decide (recordDate = date)
     && bool_decide (NormalizedCRMRecord.UTMKey crmRecord ∈ keys) then
    let stage := NormalizedCRMRecord.Stage crmRecord in
    if bool_decide (stage = "lead") then
      CrmTally (incr (leads t)) (opportunities t) (closedWon t) (revenue t)
    else if bool_decide (stage = "opportunity") then
      CrmTally (leads t) (incr (opportunities t)) (closedWon t) (revenue t)
    else if bool_decide (stage = "closed_won") then
      CrmTally (leads t) (opportunities t) (incr (closedWon t))
               (Float64.add (revenue t) (NormalizedCRMRecord.Amount crmRecord))
    else if bool_decide (stage = "closed_lost") then
      (* Count as opportunity that didn't convert *)
      CrmTally (leads t) (incr (opportunities t)) (closedWon t) (revenue t)
    else t
  else t.

(** The body of the loop over the groups; [None] is the [continue] of an
    empty group. *)
Definition group_metrics (crmRecords : list NormalizedCRMRecord.t)
    (adsGroup : list NormalizedAdsRecord.t) : option ChannelMetrics.t :=
  match adsGroup with
  | [] => None
  | first :: _ =>
      let date := time.FormatDate (NormalizedAdsRecord.Date first) in
      let channelName := NormalizedAdsRecord.Channel first in
      let a := foldl ads_step (AdsTotals 0 0 Float64.zero ∅) adsGroup in
      let t := foldl (crm_step date (utmKeys a))
                 (CrmTally 0 0 0 Float64.zero) crmRecords in
      let opps := wrap64 (opportunities t + closedWon t) in
      Some (ChannelMetrics.mk
        channelName date (totalClicks a) (totalImpressions a) (totalCost a)
        (leads t)
        opps                         (* Total opportunities including won *)
        (closedWon t)
        (revenue t)
        (safeDivide (totalCost a) (Float64.of_int (totalClicks a)))
        (safeDivide (totalCost a) (Float64.of_int (leads t)))
        (safeDivide (Float64.of_int opps) (Float64.of_int (leads t)))
        (safeDivide (Float64.of_int (closedWon t)) (Float64.of_int opps))
        (safeDivide (revenue t) (totalCost a))
        Float64.zero 0 0)
  end.

(** Go leaves the iteration order of a map unspecified; the rows come here
    in the order [map_to_list] enumerates the groups, and no statement
    below depends on it. *)
Definition CalculateChannelMetrics (adsRecords : list NormalizedAdsRecord.t)
    (crmRecords : list NormalizedCRMRecord.t) (channel : string)
  : list ChannelMetrics.t :=
  omap (fun kg => group_metrics crmRecords kg.2)
       (map_to_list (group_ads channel adsRecords)).

(** *** The funnel *)

Module funnel.
(** The first loop of [CalculateFunnelMetrics]: [utmGroups], a map from
    attribution key to the records appended under it. *)
Definition group_step (utmCampaign : string)
    (utmGroups : gmap string (list NormalizedAdsRecord.t))
    (record : NormalizedAdsRecord.t) : gmap string (list NormalizedAdsRecord.t) :=
  if bool_decide (utmCampaign = "")
     || bool_decide (NormalizedAdsRecord.UTMCampaign record = utmCampaign)
  then
    let key := NormalizedAdsRecord.UTMKey record in
    <[key := (default [] (utmGroups !! key) ++ [record])%list]> utmGroups
  else utmGroups.

Definition group_ads (utmCampaign : string) (adsRecords : list NormalizedAdsRecord.t)
  : gmap string (list NormalizedAdsRecord.t) :=
  foldl (group_step utmCampaign) ∅ adsRecords.

(** The local variables of the loop over the records of a group. *)
Record ads_totals : Type := AdsTotals {
  totalClicks : Z;
  totalImpressions : Z;
  totalCost : float64
}.

Definition ads_step (a : ads_totals) (record : NormalizedAdsRecord.t) : ads_totals :=
  AdsTotals (wrap64 (totalClicks a + NormalizedAdsRecord.Clicks record))
            (wrap64 (totalImpressions a + NormalizedAdsRecord.Impressions record))
            (Float64.add (totalCost a) (NormalizedAdsRecord.Cost record)).

(** The loop over the CRM records: a record is matched by its key alone. *)
Definition crm_step (utmKey : string)
    (t : crm_tally) (crmRecord : NormalizedCRMRecord.t) : crm_tally :=
  if bool_decide (NormalizedCRMRecord.UTMKey crmRecord = utmKey) then
    let stage := NormalizedCRMRecord.Stage crmRecord in
    if bool_decide (stage = "lead") then
      CrmTally (incr (leads t)) (opportunities t) (closedWon t) (revenue t)
    else if bool_decide (stage = "opportunity") then
      CrmTally (leads t) (incr (opportunities t)) (closedWon t) (revenue t)
    else if bool_decide (stage = "closed_won") then
      CrmTally (leads t) (opportunities t) (incr (closedWon t))
               (Float64.add (revenue t) (NormalizedCRMRecord.Amount crmRecord))
    else if bool_decide (stage = "closed_lost") then
      CrmTally (leads t) (incr (opportunities t)) (closedWon t) (revenue t)
    else t
  else t.

(** The body of the loop over the groups, for the entry [utmKey],
    [adsGroup] of the map; [None] is the [continue] of an empty group. *)
Definition group_metrics (crmRecords : list NormalizedCRMRecord.t)
    (utmKey : string) (adsGroup : list NormalizedAdsRecord.t)
  : option FunnelMetrics.t :=
  match adsGroup with
  | [] => None
  | first :: _ =>
      let campaign := NormalizedAdsRecord.UTMCampaign first in
      let source := NormalizedAdsRecord.UTMSource first in
      let medium := NormalizedAdsRecord.UTMMedium first in
      let a := foldl ads_step (AdsTotals 0 0 Float64.zero) adsGroup in
      let t := foldl (crm_step utmKey) (CrmTally 0 0 0 Float64.zero) crmRecords in
      let opps := wrap64 (opportunities t + closedWon t) in
      Some (FunnelMetrics.mk
        campaign source medium
        (totalClicks a) (totalImpressions a) (totalCost a)
        (leads t)
        opps
        (closedWon t)
        (revenue t)
        (safeDivide (totalCost a) (Float64.of_int (totalClicks a)))
        (safeDivide (totalCost a) (Float64.of_int (leads t)))
        (safeDivide (Float64.of_int opps) (Float64.of_int (leads t)))
        (safeDivide (Float64.of_int (closedWon t)) (Float64.of_int opps))
        (safeDivide (revenue t) (totalCost a))
        Float64.zero 0 0)
  end.
End funnel.

(** The rows come in the order [map_to_list] enumerates the groups, as for
    [CalculateChannelMetrics]. *)
Definition CalculateFunnelMetrics (adsRecords : list NormalizedAdsRecord.t)
    (crmRecords : list NormalizedCRMRecord.t) (utmCampaign : string)
  : list FunnelMetrics.t :=
  omap (fun kg => funnel.group_metrics crmRecords kg.1 kg.2)
       (map_to_list (funnel.group_ads utmCampaign adsRecords)).
End metrics.

(** ** Package transformer *)

Module transformer.
Import RecordQuality.

(** *** The e-mail pattern

    [^[a-zA-Z0-9._%+-]+@[a-zA-Z0-9.-]+\.[a-zA-Z]{2,}$].  Neither class
    contains [@] and the last one contains no dot, so a match is the text up
    to the first [@] (the local part), the text from there to the last dot
    (the domain) and the text after it (the top-level name). *)
Definition is_letter (c : ascii) : bool :=
  let n := Ascii.N_of_ascii c in
  ((97 <=? n) && (n <=? 122) || (65 <=? n) && (n <=? 90))%N.
Definition is_alnum (c : ascii) : bool :=
  let n := Ascii.N_of_ascii c in
  (is_letter c || (48 <=? n) && (n <=? 57))%N.
Definition is_local_char (c : ascii) : bool :=
  is_alnum c || bool_decide (c ∈ ["."; "_"; "%"; "+"; "-"]%char).
Definition is_domain_char (c : ascii) : bool :=
  is_alnum c || bool_decide (c ∈ ["."; "-"]%char).

Fixpoint all_chars (p : ascii -> bool) (s : string) : bool :=
  match s with
  | EmptyString => true
  | String c r => p c && all_chars p r
  end.

(** [s] cut at the first occurrence of [c]. *)
Fixpoint cut_first (c : ascii) (s : string) : option (string * string) :=
  match s with
  | EmptyString => None
  | String x r =>
      if decide (x = c) then Some (EmptyString, r)
      else '(a, b) ← cut_first c r; Some (String x a, b)
  end.

(** [s] cut at the last occurrence of [c]. *)
Fixpoint cut_last (c : ascii) (s : string) : option (string * string) :=
  match s with
  | EmptyString => None
  | String x r =>
      match cut_last c r with
      | Some (a, b) => Some (String x a, b)
      | None => if decide (x = c) then Some (EmptyString, r) else None
      end
  end.

Definition emailRegex_MatchString (s : string) : bool :=
  match cut_first "@" s with
  | Some (loc, rest) =>
      match cut_last "." rest with
      | Some (domain, tld) =>
          negb (bool_decide (loc = "")) && all_chars is_local_char loc
          && negb (bool_decide (domain = "")) && all_chars is_domain_char domain
          && (2 <=? String.length tld)%nat && all_chars is_letter tld
      | None => false
      end
  | None => false
  end.

(** *** Writing a verdict

    Every validator ends in one of two blocks: it stores the verdict of the
    field under [fieldName] and, when the verdict is a failure, increments
    [quality.ErrorCount].  [quality] is the struct the caller passes by
    pointer: the updated struct is returned along with the result. *)
Definition fail {A} (quality : RecordQuality.t) (fieldName description : string)
    (original : any) (result : A) : M (A * RecordQuality.t) :=
  _ ← map_store (FieldErrors quality) fieldName
        (FieldQuality.mk false description original);
  mret (result, set_ErrorCount quality (incr (ErrorCount quality))).

Definition pass {A} (quality : RecordQuality.t) (fieldName description : string)
    (original : any) (result : A) : M (A * RecordQuality.t) :=
  _ ← map_store (FieldErrors quality) fieldName
        (FieldQuality.mk true description original);
  mret (result, quality).

(** The loop over the accepted formats: the first that parses wins. *)
Fixpoint parse_first (formats : list (list time.chunk)) (value : string)
  : option time.Time :=
  match formats with
  | [] => None
  | format :: formats =>
      match time.Parse format value with
      | Some date => Some date
      | None => parse_first formats value
      end
  end.

(** *** ADS field validators *)

Definition validateAndParseDate (dateStr fieldName : string)
    (quality : RecordQuality.t) : M (time.Time * RecordQuality.t) :=
  if decide (strings.TrimSpace dateStr = "") then
    fail quality fieldName "Missing - Date field is empty" (AString dateStr) time.zero
  else
    match parse_first [time.layout_date_dash; time.layout_date_slash] dateStr with
    | Some date => pass quality fieldName "Valid date" (AString dateStr) date
    | None =>
        fail quality fieldName
          "Invalid date format - Expected YYYY-MM-DD or YYYY/MM/DD"
          (AString dateStr) time.zero
    end.

Definition validateCampaignID (id fieldName : string)
    (quality : RecordQuality.t) : M (string * RecordQuality.t) :=
  if decide (strings.TrimSpace id = "") then
    fail quality fieldName "Missing - Campaign ID is empty, using 'unknown'"
      (AString id) "unknown"
  else pass quality fieldName "Valid campaign ID" (AString id) id.

Definition validChannels : list string :=
  ["google_ads"; "facebook_ads"; "tiktok_ads"; "linkedin_ads"; "twitter_ads"].

Definition validateChannel (channel fieldName : string)
    (quality : RecordQuality.t) : M (string * RecordQuality.t) :=
  if decide (strings.TrimSpace channel = "") then
    fail quality fieldName "Missing - Channel is empty" (AString channel) "unknown"
  else if bool_decide (channel ∈ validChannels) then
    pass quality fieldName "Valid channel" (AString channel) channel
  else
    fail quality fieldName ("Unknown channel type: " +:+ channel)
      (AString channel) channel.

Definition validateClicks (clicks : Z) (fieldName : string)
    (quality : RecordQuality.t) : M (Z * RecordQuality.t) :=
  if clicks <? 0 then
    fail quality fieldName "Invalid - Clicks cannot be negative, setting to 0"
      (AInt clicks) 0
  else pass quality fieldName "Valid clicks count" (AInt clicks) clicks.

Definition validateImpressions (impressions : Z) (fieldName : string)
    (quality : RecordQuality.t) : M (Z * RecordQuality.t) :=
  if impressions <? 0 then
    fail quality fieldName "Invalid - Impressions cannot be negative, setting to 0"
      (AInt impressions) 0
  else pass quality fieldName "Valid impressions count" (AInt impressions) impressions.

Definition validateCost (cost : float64) (fieldName : string)
    (quality : RecordQuality.t) : M (float64 * RecordQuality.t) :=
  if Float64.ltb cost Float64.zero then
    fail quality fieldName "Invalid - Cost cannot be negative, setting to 0"
      (AFloat cost) Float64.zero
  else pass quality fieldName "Valid cost amount" (AFloat cost) cost.

(** *** CRM field validators *)

Definition validateOpportunityID (id fieldName : string)
    (quality : RecordQuality.t) : M (string * RecordQuality.t) :=
  if decide (strings.TrimSpace id = "") then
    fail quality fieldName "Missing - Opportunity ID is empty" (AString id) "unknown"
  else pass quality fieldName "Valid opportunity ID" (AString id) id.

Definition validateEmail (email fieldName : string)
    (quality : RecordQuality.t) : M (string * RecordQuality.t) :=
  if decide (strings.TrimSpace email = "") then
    fail quality fieldName "Missing - Email is empty" (AString email) email
  else if negb (emailRegex_MatchString email) then
    fail quality fieldName "Invalid email format" (AString email) email
  else pass quality fieldName "Valid email" (AString email) email.

Definition validStages : list string :=
  ["lead"; "opportunity"; "closed_won"; "closed_lost"].

Definition validateStage (stage fieldName : string)
    (quality : RecordQuality.t) : M (string * RecordQuality.t) :=
  if decide (strings.TrimSpace stage = "") then
    fail quality fieldName "Missing - Stage is empty" (AString stage) "unknown"
  else if bool_decide (stage ∈ validStages) then
    pass quality fieldName "Valid stage" (AString stage) stage
  else
    fail quality fieldName ("Unknown stage: " +:+ stage) (AString stage) stage.

Definition validateAmount (amount : float64) (fieldName : string)
    (quality : RecordQuality.t) : M (float64 * RecordQuality.t) :=
  if Float64.ltb amount Float64.zero then
    fail quality fieldName "Invalid - Amount cannot be negative, setting to 0"
      (AFloat amount) Float64.zero
  else pass quality fieldName "Valid amount" (AFloat amount) amount.

Definition validateAndParseDateTime (dateTimeStr fieldName : string)
    (quality : RecordQuality.t) : M (time.Time * RecordQuality.t) :=
  if decide (strings.TrimSpace dateTimeStr = "") then
    fail quality fieldName "Missing - DateTime field is empty"
      (AString dateTimeStr) time.zero
  else
    match parse_first [time.layout_iso; time.layout_iso_millis;
                       time.layout_datetime_dash; time.layout_datetime_slash]
                      dateTimeStr with
    | Some dateTime =>
        pass quality fieldName "Valid datetime" (AString dateTimeStr) dateTime
    | None =>
        fail quality fieldName
          "Invalid datetime format - Expected ISO format or YYYY-MM-DD HH:MM:SS"
          (AString dateTimeStr) time.zero
    end.

(** *** UTM validators *)

Definition validateUTMCampaign (campaign fieldName : string)
    (quality : RecordQuality.t) : M (string * RecordQuality.t) :=
  if decide (strings.TrimSpace campaign = "") then
    fail quality fieldName "Missing - UTM Campaign is empty, using 'unknown'"
      (AString campaign) "unknown"
  else pass quality fieldName "Valid UTM campaign" (AString campaign) campaign.

Definition validateUTMSource (source : option string) (fieldName : string)
    (quality : RecordQuality.t) : M (string * RecordQuality.t) :=
  match source with
  | Some src =>
      if decide (strings.TrimSpace src = "") then
        fail quality fieldName "Missing - UTM Source is null or empty, using 'unknown'"
          (AStringPtr source) "unknown"
      else
        pass quality fieldName "Valid UTM source" (AString src)
          (strings.TrimSpace src)
  | None =>
      fail quality fieldName "Missing - UTM Source is null or empty, using 'unknown'"
        (AStringPtr source) "unknown"
  end.

Definition validateUTMMedium (medium : option string) (fieldName : string)
    (quality : RecordQuality.t) : M (string * RecordQuality.t) :=
  match medium with
  | Some med =>
      if decide (strings.TrimSpace med = "") then
        fail quality fieldName "Missing - UTM Medium is null or empty, using 'unknown'"
          (AStringPtr medium) "unknown"
      else
        pass quality fieldName "Valid UTM medium" (AString med)
          (strings.TrimSpace med)
  | None =>
      fail quality fieldName "Missing - UTM Medium is null or empty, using 'unknown'"
        (AStringPtr medium) "unknown"
  end.

Definition generateUTMKey (campaign source medium : string) : string :=
  let campaign :=
    if decide (strings.TrimSpace campaign = "") then "unknown" else campaign in
  campaign +:+ "|" +:+ source +:+ "|" +:+ medium.

(** *** Normalisation

    The body of the loop of [NormalizeAdsRecords] for the record at index
    [i].  The composite literal calls the validators in the order of its
    fields and copies [quality] into its last field, [Quality], once they
    have run. *)
Definition normalizeAdsRecord (i : nat) (record : AdsRecord.t)
  : M NormalizedAdsRecord.t :=
  fieldErrors ← make_map;
  let quality := RecordQuality.mk ("ads_" +:+ fmt.d (Z.of_nat i)) true fieldErrors 0 in
  '(date, quality) ← validateAndParseDate (AdsRecord.Date record) "date" quality;
  '(campaignID, quality) ← validateCampaignID (AdsRecord.CampaignID record) "campaign_id" quality;
  '(channel, quality) ← validateChannel (AdsRecord.Channel record) "channel" quality;
  '(clicks, quality) ← validateClicks (AdsRecord.Clicks record) "clicks" quality;
  '(impressions, quality) ← validateImpressions (AdsRecord.Impressions record) "impressions" quality;
  '(cost, quality) ← validateCost (AdsRecord.Cost record) "cost" quality;
  '(utmCampaign, quality) ← validateUTMCampaign (AdsRecord.UTMCampaign record) "utm_campaign" quality;
  '(utmSource, quality) ← validateUTMSource (AdsRecord.UTMSource record) "utm_source" quality;
  '(utmMedium, quality) ← validateUTMMedium (AdsRecord.UTMMedium record) "utm_medium" quality;
  let normalizedRecord :=
    NormalizedAdsRecord.mk date campaignID channel clicks impressions cost
      utmCampaign utmSource utmMedium "" quality in
  let normalizedRecord :=
    NormalizedAdsRecord.set_UTMKey normalizedRecord
      (generateUTMKey (NormalizedAdsRecord.UTMCampaign normalizedRecord)
                      (NormalizedAdsRecord.UTMSource normalizedRecord)
                      (NormalizedAdsRecord.UTMMedium normalizedRecord)) in
  (* Final record validation *)
  mret (NormalizedAdsRecord.set_Quality normalizedRecord
          (set_IsValid (NormalizedAdsRecord.Quality normalizedRecord)
             (ErrorCount (NormalizedAdsRecord.Quality normalizedRecord) =? 0))).

(** The loop of [NormalizeAdsRecords], from index [i] on, appending to
    [normalized]. *)
Fixpoint normalizeAdsFrom (i : nat) (records : list AdsRecord.t)
    (normalized : list NormalizedAdsRecord.t) : M (list NormalizedAdsRecord.t) :=
  match records with
  | [] => mret normalized
  | record :: records =>
      normalizedRecord ← normalizeAdsRecord i record;
      normalizeAdsFrom (S i) records (normalized ++ [normalizedRecord])
  end.

Definition normalizeCRMRecord (i : nat) (record : CRMRecord.t)
  : M NormalizedCRMRecord.t :=
  fieldErrors ← make_map;
  let quality := RecordQuality.mk ("crm_" +:+ fmt.d (Z.of_nat i)) true fieldErrors 0 in
  '(opportunityID, quality) ← validateOpportunityID (CRMRecord.OpportunityID record) "opportunity_id" quality;
  '(contactEmail, quality) ← validateEmail (CRMRecord.ContactEmail record) "contact_email" quality;
  '(stage, quality) ← validateStage (CRMRecord.Stage record) "stage" quality;
  '(amount, quality) ← validateAmount (CRMRecord.Amount record) "amount" quality;
  '(createdAt, quality) ← validateAndParseDateTime (CRMRecord.CreatedAt record) "created_at" quality;
  '(utmCampaign, quality) ← validateUTMCampaign (CRMRecord.UTMCampaign record) "utm_campaign" quality;
  '(utmSource, quality) ← validateUTMSource (CRMRecord.UTMSource record) "utm_source" quality;
  '(utmMedium, quality) ← validateUTMMedium (CRMRecord.UTMMedium record) "utm_medium" quality;
  let normalizedRecord :=
    NormalizedCRMRecord.mk opportunityID contactEmail stage amount createdAt
      utmCampaign utmSource utmMedium "" quality in
  let normalizedRecord :=
    NormalizedCRMRecord.set_UTMKey normalizedRecord
      (generateUTMKey (NormalizedCRMRecord.UTMCampaign normalizedRecord)
                      (NormalizedCRMRecord.UTMSource normalizedRecord)
                      (NormalizedCRMRecord.UTMMedium normalizedRecord)) in
  (* Final record validation *)
  mret (NormalizedCRMRecord.set_Quality normalizedRecord
          (set_IsValid (NormalizedCRMRecord.Quality normalizedRecord)
             (ErrorCount (NormalizedCRMRecord.Quality normalizedRecord) =? 0))).

Fixpoint normalizeCRMFrom (i : nat) (records : list CRMRecord.t)
    (normalized : list NormalizedCRMRecord.t) : M (list NormalizedCRMRecord.t) :=
  match records with
  | [] => mret normalized
  | record :: records =>
      normalizedRecord ← normalizeCRMRecord i record;
      normalizeCRMFrom (S i) records (normalized ++ [normalizedRecord])
  end.

(** *** Deduplication *)

(** The key of an advertising record. *)
Definition adsKey (record : NormalizedAdsRecord.t) : string :=
  time.FormatDate (NormalizedAdsRecord.Date record) +:+ "|"
    +:+ NormalizedAdsRecord.CampaignID record +:+ "|"
    +:+ NormalizedAdsRecord.Channel record.

(** The [else] branch: [record] is the loop variable, a copy of the slice
    element.  The entry goes into the map object the copy shares with the
    element; the counter and the flag change in the copy, whose new value is
    returned here (the loop then lets go of it). *)
Definition markDuplicateAds (record : NormalizedAdsRecord.t)
    (existingIndex : nat) (key : string) : M NormalizedAdsRecord.t :=
  let quality := NormalizedAdsRecord.Quality record in
  _ ← map_store (FieldErrors quality) "duplicate"
        (FieldQuality.mk false
           ("Duplicate record found (original at index "
              +:+ fmt.d (Z.of_nat existingIndex) +:+ ")")
           (AString key));
  mret (NormalizedAdsRecord.set_Quality record
          (set_IsValid (set_ErrorCount quality (incr (ErrorCount quality))) false)).

(** The loop of [deduplicateAdsRecords], from index [i] on. *)
Fixpoint dedupAdsFrom (i : nat) (records : list NormalizedAdsRecord.t)
    (seen : gmap string nat) (unique : list NormalizedAdsRecord.t)
  : M (list NormalizedAdsRecord.t) :=
  match records with
  | [] => mret unique
  | record :: records =>
      let key := adsKey record in
      match seen !! key with
      | None =>
          dedupAdsFrom (S i) records (<[key := i]> seen) (unique ++ [record])
      | Some existingIndex =>
          (* Mark the duplicate with quality issue *)
          _ ← markDuplicateAds record existingIndex key;
          dedupAdsFrom (S i) records seen unique
      end
  end.

Definition deduplicateAdsRecords (records : list NormalizedAdsRecord.t)
  : M (list NormalizedAdsRecord.t) :=
  dedupAdsFrom 0 records ∅ [].

Definition markDuplicateCRM (record : NormalizedCRMRecord.t)
    (existingIndex : nat) : M NormalizedCRMRecord.t :=
  let quality := NormalizedCRMRecord.Quality record in
  _ ← map_store (FieldErrors quality) "duplicate"
        (FieldQuality.mk false
           ("Duplicate opportunity ID found (original at index "
              +:+ fmt.d (Z.of_nat existingIndex) +:+ ")")
           (AString (NormalizedCRMRecord.OpportunityID record)));
  mret (NormalizedCRMRecord.set_Quality record
          (set_IsValid (set_ErrorCount quality (incr (ErrorCount quality))) false)).

Fixpoint dedupCRMFrom (i : nat) (records : list NormalizedCRMRecord.t)
    (seen : gmap string nat) (unique : list NormalizedCRMRecord.t)
  : M (list NormalizedCRMRecord.t) :=
  match records with
  | [] => mret unique
  | record :: records =>
      let key := NormalizedCRMRecord.OpportunityID record in
      match seen !! key with
      | None =>
          dedupCRMFrom (S i) records (<[key := i]> seen) (unique ++ [record])
      | Some existingIndex =>
          _ ← markDuplicateCRM record existingIndex;
          dedupCRMFrom (S i) records seen unique
      end
  end.

Definition deduplicateCRMRecords (records : list NormalizedCRMRecord.t)
  : M (list NormalizedCRMRecord.t) :=
  dedupCRMFrom 0 records ∅ [].

Definition NormalizeAdsRecords (records : list AdsRecord.t)
  : M (list NormalizedAdsRecord.t) :=
  normalized ← normalizeAdsFrom 0 records [];
  deduplicateAdsRecords normalized.

Definition NormalizeCRMRecords (records : list CRMRecord.t)
  : M (list NormalizedCRMRecord.t) :=
  normalized ← normalizeCRMFrom 0 records [];
  deduplicateCRMRecords normalized.

(** *** The quality report *)

(** The inner loop of [identifyCommonIssues] over the entries of one map. *)
Definition tally_issues (issueCount : gmap string Z) (fieldErrors : fieldmap)
  : gmap string Z :=
  foldl (fun issueCount entry =>
           let fieldError : FieldQuality.t := entry.2 in
           if FieldQuality.IsValid fieldError then issueCount
           else
             let description := FieldQuality.Description fieldError in
             <[description := incr (default 0 (issueCount !! description))]> issueCount)
        issueCount (map_to_list fieldErrors).

Definition issue_line (issue : string) (count : Z) : string :=
  issue +:+ " (occurs " +:+ fmt.d count +:+ " times)".

(** The maps are read in the heap [h]; the order of the result is that of
    [map_to_list], Go leaving it unspecified. *)
Definition identifyCommonIssues (h : heap) (adsRecords : list NormalizedAdsRecord.t)
    (crmRecords : list NormalizedCRMRecord.t) : list string :=
  let issueCount :=
    foldl (fun issueCount record =>
             tally_issues issueCount
               (map_load h (FieldErrors (NormalizedAdsRecord.Quality record))))
          ∅ adsRecords in
  let issueCount :=
    foldl (fun issueCount record =>
             tally_issues issueCount
               (map_load h (FieldErrors (NormalizedCRMRecord.Quality record))))
          issueCount crmRecords in
  omap (fun entry : string * Z =>
          (* Only include issues that appear more than once *)
          if 1 <? entry.2 then Some (issue_line entry.1 entry.2) else None)
       (map_to_list issueCount).

(** The first two loops: the qualities collected and the valid ones
    counted. *)
Definition scan_step {A} (quality : A -> RecordQuality.t)
    (acc : list RecordQuality.t * Z) (record : A) : list RecordQuality.t * Z :=
  ((acc.1 ++ [quality record])%list,
   if IsValid (quality record) then incr acc.2 else acc.2).

Definition scan_quality {A} (quality : A -> RecordQuality.t) (records : list A)
  : list RecordQuality.t * Z :=
  foldl (scan_step quality) ([], 0) records.

Definition score (valid total : Z) : float64 :=
  if 0 <? total then
    Float64.mul (Float64.div (Float64.of_int valid) (Float64.of_int total))
                (Float64.of_int 100)
  else Float64.zero.

(** [now] is [time.Now().Format(time.RFC3339)]. *)
Definition GenerateQualityReport (h : heap) (now : string)
    (adsRecords : list NormalizedAdsRecord.t)
    (crmRecords : list NormalizedCRMRecord.t) : DataQualityReport.t :=
  let '(adsQuality, validAds) := scan_quality NormalizedAdsRecord.Quality adsRecords in
  let '(crmQuality, validCRM) := scan_quality NormalizedCRMRecord.Quality crmRecords in
  let lenAds := Z.of_nat (length adsRecords) in
  let lenCRM := Z.of_nat (length crmRecords) in
  let adsScore := score validAds lenAds in
  let crmScore := score validCRM lenCRM in
  let totalRecords := wrap64 (lenAds + lenCRM) in
  let overallScore := score (wrap64 (validAds + validCRM)) totalRecords in
  (* Identify common issues *)
  let commonIssues := identifyCommonIssues h adsRecords crmRecords in
  DataQualityReport.mk
    (QualitySummary.mk lenAds validAds adsScore lenCRM validCRM crmScore
                       overallScore commonIssues)
    adsQuality crmQuality now.
End transformer.

(** ** Package config *)

Module config.
(** The environment: the variables that are set, with their values.
    [os.Getenv] gives the empty string for a variable that is not set. *)
Abbreviation environ := (gmap string string).

Definition Getenv (env : environ) (key : string) : string :=
  default "" (env !! key).

Definition getEnv (env : environ) (key defaultValue : string) : string :=
  let value := Getenv env key in
  if decide (value <> "") then value else defaultValue.

(** The field [RetryAttempts] of the configuration [Load] returns: the
    error of [Atoi] is dropped. *)
Definition Load_RetryAttempts (env : environ) : Z :=
  (strconv.Atoi (getEnv env "RETRY_ATTEMPTS" "3")).1.
End config.

(** ** Package storage

    The store is used under its lock: an operation is a function of the
    state. *)

Module storage.
Record MemoryStore : Type := mk {
  adsRecords : list NormalizedAdsRecord.t;
  crmRecords : list NormalizedCRMRecord.t;
  lastIngest : time.Time
}.

Definition NewMemoryStore : MemoryStore := mk [] [] time.zero.

(** [now] is [time.Now()]. *)
Definition StoreAdsRecords (s : MemoryStore) (now : time.Time)
    (records : list NormalizedAdsRecord.t) : MemoryStore :=
  mk records (crmRecords s) now.

Definition StoreCRMRecords (s : MemoryStore)
    (records : list NormalizedCRMRecord.t) : MemoryStore :=
  mk (adsRecords s) records (lastIngest s).

Definition GetAdsRecords (s : MemoryStore) : list NormalizedAdsRecord.t :=
  adsRecords s.

Definition GetCRMRecords (s : MemoryStore) : list NormalizedCRMRecord.t :=
  crmRecords s.

Definition GetAdsRecordsByDateRange (s : MemoryStore) (from to : time.Time)
  : list NormalizedAdsRecord.t :=
  filter (fun record =>
            let date := NormalizedAdsRecord.Date record in
            (time.Equal date from || time.After date from)
            && (time.Equal date to || time.Before date to) = true)
         (adsRecords s).

Definition GetCRMRecordsByDateRange (s : MemoryStore) (from to : time.Time)
  : list NormalizedCRMRecord.t :=
  filter (fun record =>
            let createdAt := NormalizedCRMRecord.CreatedAt record in
            let recordDate :=
              time.Date (time.Year createdAt) (time.Month createdAt)
                        (time.Day createdAt) 0 0 0 0 in
            (time.Equal recordDate from || time.After recordDate from)
            && (time.Equal recordDate to || time.Before recordDate to) = true)
         (crmRecords s).

Definition GetLastIngestTime (s : MemoryStore) : time.Time := lastIngest s.

Definition HasData (s : MemoryStore) : bool :=
  (0 <? length (adsRecords s))%nat && (0 <? length (crmRecords s))%nat.
End storage.

(** ** Package client: the retry loops

    The server is known by the replies it gives: [world k] is what the
    [k]-th request of a call comes to.  What the loop does to the outside is
    the list of its events, in order. *)

Module client.
Inductive body : Type :=
| unreadable            (* [io.ReadAll] fails *)
| malformed             (* [json.Unmarshal] fails *)
| decoded.

Inductive reply : Type :=
| transport_error                         (* the request itself fails *)
| response (StatusCode : Z) (b : body).

Inductive cause : Type :=
| request_failed
| server_error (StatusCode : Z)
| read_failed
| unmarshal_failed.

(** The error returned: [None] is nil. *)
Inductive error : Type :=
| client_error (StatusCode : Z)
| retries_failed (lastErr : option cause).

Inductive event : Type :=
| Sleep (nanoseconds : Z)
| Request.

(** [time.Duration(attempt*attempt) * time.Second] *)
Definition backoffTime (attempt : Z) : Z :=
  wrap64 (wrap64 (attempt * attempt) * 1000000000).

Definition backoff (attempt : nat) : list event :=
  if (0 <? attempt)%nat then [Sleep (backoffTime (Z.of_nat attempt))] else [].

(** The loop of [retryRequest] from [attempt] on, with [remaining]
    iterations left. *)
Fixpoint retryRequest_from (world : nat -> reply) (remaining attempt : nat)
    (lastErr : option cause) : option error * list event :=
  match remaining with
  | O => (Some (retries_failed lastErr), [])
  | S remaining =>
      let continue lastErr :=
        let '(err, events) :=
          retryRequest_from world remaining (S attempt) (Some lastErr) in
        (err, backoff attempt ++ Request :: events) in
      match world attempt with
      | transport_error => continue request_failed
      | response StatusCode b =>
          if 500 <=? StatusCode then continue (server_error StatusCode)
          else if 400 <=? StatusCode then
            (Some (client_error StatusCode), backoff attempt ++ [Request])
          else
            match b with
            | unreadable => continue read_failed
            | malformed => continue unmarshal_failed
            | decoded => (None, backoff attempt ++ [Request])
            end
      end
  end.

Definition retryRequest (retryAttempts : Z) (world : nat -> reply)
  : option error * list event :=
  retryRequest_from world (Z.to_nat retryAttempts) 0 None.

(** The loop of [retryPostRequest]: the body of the response is not read. *)
Fixpoint retryPostRequest_from (world : nat -> reply) (remaining attempt : nat)
    (lastErr : option cause) : option error * list event :=
  match remaining with
  | O => (Some (retries_failed lastErr), [])
  | S remaining =>
      let continue lastErr :=
        let '(err, events) :=
          retryPostRequest_from world remaining (S attempt) (Some lastErr) in
        (err, backoff attempt ++ Request :: events) in
      match world attempt with
      | transport_error => continue request_failed
      | response StatusCode _ =>
          if (200 <=? StatusCode) && (StatusCode <? 300) then
            (None, backoff attempt ++ [Request])
          else if (400 <=? StatusCode) && (StatusCode <? 500) then
            (Some (client_error StatusCode), backoff attempt ++ [Request])
          else continue (server_error StatusCode)
      end
  end.

Definition retryPostRequest (retryAttempts : Z) (world : nat -> reply)
  : option error * list event :=
  retryPostRequest_from world (Z.to_nat retryAttempts) 0 None.
End client.

(** ** Package handlers

    The parts of the handlers that work on the records and the rows. *)

Module handlers.
(** The parameters of the query string, by name. *)
Abbreviation query := (gmap string string).

Definition Query (q : query) (key : string) : string := default "" (q !! key).

(** [IngestData]: the filter applied when [since] is given. *)
Definition IngestData_since (sinceTime : time.Time)
    (normalizedAds : list NormalizedAdsRecord.t)
    (normalizedCRM : list NormalizedCRMRecord.t)
  : list NormalizedAdsRecord.t * list NormalizedCRMRecord.t :=
  if negb (time.IsZero sinceTime) then
    (filter (fun record =>
               time.Equal (NormalizedAdsRecord.Date record) sinceTime
               || time.After (NormalizedAdsRecord.Date record) sinceTime = true)
            normalizedAds,
     filter (fun record =>
               let createdAt := NormalizedCRMRecord.CreatedAt record in
               let recordDate :=
                 time.Date (time.Year createdAt) (time.Month createdAt)
                           (time.Day createdAt) 0 0 0 0 in
               time.Equal recordDate sinceTime || time.After recordDate sinceTime = true)
            normalizedCRM)
  else (normalizedAds, normalizedCRM).

(** [GetChannelMetrics] and [GetFunnelMetrics]: the records the metrics are
    computed from. *)
Definition records_of_range (store : storage.MemoryStore) (fromTime toTime : time.Time)
  : list NormalizedAdsRecord.t * list NormalizedCRMRecord.t :=
  if negb (time.IsZero fromTime) && negb (time.IsZero toTime) then
    (storage.GetAdsRecordsByDateRange store fromTime toTime,
     storage.GetCRMRecordsByDateRange store fromTime toTime)
  else (storage.GetAdsRecords store, storage.GetCRMRecords store).

(** [GetChannelMetrics] and [GetFunnelMetrics]: the page of the rows
    [metrics] the response holds.  [None] is a run-time panic: slice bounds
    out of range, or integer divide by zero. *)
Definition paginate {A} (metrics : list A) (limit offset : Z)
  : option (MetricsResponse.t A) :=
  let total := Z.of_nat (length metrics) in
  let start := offset in
  let end_ := wrap64 (offset + limit) in
  let start := if total <? start then total else start in
  let end_ := if total <? end_ then total else end_ in
  if (0 <=? start) && (start <=? end_) then
    let paginatedMetrics :=
      take (Z.to_nat (end_ - start)) (drop (Z.to_nat start) metrics) in
    if limit =? 0 then None
    else
      Some (MetricsResponse.mk paginatedMetrics total
              (wrap64 (wrap64 (Z.quot offset limit) + 1)) limit (end_ <? total))
  else None.

End handlers.

(** ** Vocabulary of the statements *)

(** *** First occurrences *)

Section first_occurrence.
Context {A : Type} (key : A -> string).

(** Position [i] of [l] holds the earliest record with its key. *)
Definition first_with_key (l : list A) (i : nat) : Prop :=
  exists x, l !! i = Some x /\
    forall j y, (j < i)%nat -> l !! j = Some y -> key y <> key x.

(** The records of [l] at the positions [idx], in the order of [idx]. *)
Definition pick (l : list A) (idx : list nat) : list A :=
  omap (fun i => l !! i) idx.

(** The positions [i + n] such that [l !! n] is the first record of [l]
    with its key and that key is not in [seen], in increasing order. *)
Fixpoint first_indices (seen : gset string) (i : nat) (l : list A) : list nat :=
  match l with
  | [] => []
  | x :: l =>
      if decide (key x ∈ seen) then first_indices seen (S i) l
      else i :: first_indices ({[key x]} ∪ seen) (S i) l
  end.

(** The records at those positions, and the others. *)
Fixpoint keep_first (seen : gset string) (l : list A) : list A :=
  match l with
  | [] => []
  | x :: l =>
      if decide (key x ∈ seen) then keep_first seen l
      else x :: keep_first ({[key x]} ∪ seen) l
  end.

Fixpoint drop_later (seen : gset string) (l : list A) : list A :=
  match l with
  | [] => []
  | x :: l =>
      if decide (key x ∈ seen) then x :: drop_later seen l
      else drop_later ({[key x]} ∪ seen) l
  end.

(** The positions of the records the loop drops, each with the position the
    loop has recorded for its key: the records of [l] are numbered from [i]
    and [seen] holds the keys met before, with the position of their first
    record. *)
Fixpoint duplicates (seen : gmap string nat) (i : nat) (l : list A)
  : list (nat * nat) :=
  match l with
  | [] => []
  | x :: l =>
      match seen !! key x with
      | Some existingIndex => (i, existingIndex) :: duplicates seen (S i) l
      | None => duplicates (<[key x := i]> seen) (S i) l
      end
  end.

(** [seen] holds, for each key of [pre], the position of the first record
    of [pre] with that key. *)
Definition firsts (pre : list A) (seen : gmap string nat) : Prop :=
  (forall k e, seen !! k = Some e ->
     exists y, pre !! e = Some y /\ key y = k /\
       forall j z, (j < e)%nat -> pre !! j = Some z -> key z <> k) /\
  (forall j z, pre !! j = Some z -> is_Some (seen !! key z)).
End first_occurrence.


(** *** Quality objects *)

(** The number of entries of a map whose verdict is a failure. *)
Definition count_invalid (entries : fieldmap) : nat :=
  size (filter (fun kv : string * FieldQuality.t => FieldQuality.IsValid kv.2 = false) entries).

(** What a field validator does to the accumulator [quality] and to the heap
    [h] when it is run on them as [c]: it stores a verdict [fq] under
    [fieldName] and counts it when it is a failure; [P] relates the value it
    returns to the verdict. *)
Definition writes_verdict {A} (c : M (A * RecordQuality.t)) (fieldName : string)
    (quality : RecordQuality.t) (h : heap) (P : A -> FieldQuality.t -> Prop) : Prop :=
  forall entries, h !! RecordQuality.FieldErrors quality = Some entries ->
  exists result fq, P result fq /\
    c h = Some ((result,
                 if FieldQuality.IsValid fq then quality
                 else RecordQuality.set_ErrorCount quality
                        (incr (RecordQuality.ErrorCount quality))),
                <[RecordQuality.FieldErrors quality := <[fieldName := fq]> entries]> h).

(** The segment of the attribution key an optional raw value gives:
    ["unknown"] when it is missing (nil) or empty after trimming, the trimmed
    value otherwise. *)
Definition utm_segment (raw : option string) : string :=
  match raw with
  | Some s => if decide (strings.TrimSpace s = "") then "unknown" else strings.TrimSpace s
  | None => "unknown"
  end.

(** The state of the accumulator [quality] of a record while its fields are
    validated: its map is the last object of the heap, holds a verdict for
    each of the fields [fields] validated so far, and [ErrorCount] counts its
    failures. *)
Record accumulates (h0 : heap) (id : string) (fields : list string)
    (quality : RecordQuality.t) (entries : fieldmap) : Prop := {
  acc_ref : RecordQuality.FieldErrors quality = length h0;
  acc_id : RecordQuality.RecordID quality = id;
  acc_count : RecordQuality.ErrorCount quality = Z.of_nat (count_invalid entries);
  acc_dom : dom entries = list_to_set fields;
  acc_bound : (count_invalid entries <= length fields)%nat
}.

(** What normalisation establishes for the record of index [i], whose map
    [entries] is the object [ref] of the heap. *)
Definition ads_fields : list string :=
  ["utm_medium"; "utm_source"; "utm_campaign"; "cost"; "impressions";
   "clicks"; "channel"; "campaign_id"; "date"].

Definition crm_fields : list string :=
  ["utm_medium"; "utm_source"; "utm_campaign"; "created_at"; "amount";
   "stage"; "contact_email"; "opportunity_id"].

Record ads_normal (raw : AdsRecord.t) (i : nat) (ref : mapref)
    (r : NormalizedAdsRecord.t) (entries : fieldmap) : Prop := {
  an_ref : RecordQuality.FieldErrors (NormalizedAdsRecord.Quality r) = ref;
  an_id : RecordQuality.RecordID (NormalizedAdsRecord.Quality r)
          = "ads_" +:+ fmt.d (Z.of_nat i);
  an_count : RecordQuality.ErrorCount (NormalizedAdsRecord.Quality r)
             = Z.of_nat (count_invalid entries);
  an_valid : RecordQuality.IsValid (NormalizedAdsRecord.Quality r)
             = (RecordQuality.ErrorCount (NormalizedAdsRecord.Quality r) =? 0);
  an_dom : dom entries = list_to_set ads_fields;
  an_campaign : NormalizedAdsRecord.UTMCampaign r
                = if decide (strings.TrimSpace (AdsRecord.UTMCampaign raw) = "")
                  then "unknown" else AdsRecord.UTMCampaign raw;
  an_source : NormalizedAdsRecord.UTMSource r = utm_segment (AdsRecord.UTMSource raw);
  an_medium : NormalizedAdsRecord.UTMMedium r = utm_segment (AdsRecord.UTMMedium raw);
  an_key : NormalizedAdsRecord.UTMKey r
           = transformer.generateUTMKey (NormalizedAdsRecord.UTMCampaign r)
               (NormalizedAdsRecord.UTMSource r) (NormalizedAdsRecord.UTMMedium r)
}.

Record crm_normal (raw : CRMRecord.t) (i : nat) (ref : mapref)
    (r : NormalizedCRMRecord.t) (entries : fieldmap) : Prop := {
  cn_ref : RecordQuality.FieldErrors (NormalizedCRMRecord.Quality r) = ref;
  cn_id : RecordQuality.RecordID (NormalizedCRMRecord.Quality r)
          = "crm_" +:+ fmt.d (Z.of_nat i);
  cn_count : RecordQuality.ErrorCount (NormalizedCRMRecord.Quality r)
             = Z.of_nat (count_invalid entries);
  cn_valid : RecordQuality.IsValid (NormalizedCRMRecord.Quality r)
             = (RecordQuality.ErrorCount (NormalizedCRMRecord.Quality r) =? 0);
  cn_dom : dom entries = list_to_set crm_fields;
  cn_opportunity : NormalizedCRMRecord.OpportunityID r
                   = if decide (strings.TrimSpace (CRMRecord.OpportunityID raw) = "")
                     then "unknown" else CRMRecord.OpportunityID raw
}.

(** *** The validation rules

    What each field validator accepts, and the value it returns. *)

Definition text_ok (s : string) : bool :=
  bool_decide (strings.TrimSpace s <> "").

Definition date_ok (s : string) : bool :=
  text_ok s
  && bool_decide (is_Some (transformer.parse_first
                             [time.layout_date_dash; time.layout_date_slash] s)).

Definition channel_ok (s : string) : bool :=
  text_ok s && bool_decide (s ∈ transformer.validChannels).

Definition count_ok (n : Z) : bool := 0 <=? n.

Definition amount_ok (x : float64) : bool := negb (Float64.ltb x Float64.zero).

Definition pointer_ok (p : option string) : bool :=
  match p with Some s => text_ok s | None => false end.

Definition email_ok (s : string) : bool :=
  text_ok s && transformer.emailRegex_MatchString s.

Definition stage_ok (s : string) : bool :=
  text_ok s && bool_decide (s ∈ transformer.validStages).

Definition datetime_ok (s : string) : bool :=
  text_ok s
  && bool_decide (is_Some (transformer.parse_first
                             [time.layout_iso; time.layout_iso_millis;
                              time.layout_datetime_dash; time.layout_datetime_slash] s)).

(** The outcome of the rules on a raw record, in the order of the fields. *)
Definition ads_rules (raw : AdsRecord.t) : list bool :=
  [ date_ok (AdsRecord.Date raw); text_ok (AdsRecord.CampaignID raw);
    channel_ok (AdsRecord.Channel raw); count_ok (AdsRecord.Clicks raw);
    count_ok (AdsRecord.Impressions raw); amount_ok (AdsRecord.Cost raw);
    text_ok (AdsRecord.UTMCampaign raw); pointer_ok (AdsRecord.UTMSource raw);
    pointer_ok (AdsRecord.UTMMedium raw) ].

Definition crm_rules (raw : CRMRecord.t) : list bool :=
  [ text_ok (CRMRecord.OpportunityID raw); email_ok (CRMRecord.ContactEmail raw);
    stage_ok (CRMRecord.Stage raw); amount_ok (CRMRecord.Amount raw);
    datetime_ok (CRMRecord.CreatedAt raw); text_ok (CRMRecord.UTMCampaign raw);
    pointer_ok (CRMRecord.UTMSource raw); pointer_ok (CRMRecord.UTMMedium raw) ].

(** The number of rules that fail. *)
Definition failures (rules : list bool) : nat :=
  length (filter (fun b => b = false) rules).

(** A text value, or ["unknown"] when it is blank. *)
Definition text_or_unknown (s : string) : string :=
  if text_ok s then s else "unknown".

(** The time a date (a date and time) is read as: the zero time when the
    text is blank or follows none of the accepted layouts. *)
Definition date_value (s : string) : time.Time :=
  if date_ok s
  then default time.zero
         (transformer.parse_first [time.layout_date_dash; time.layout_date_slash] s)
  else time.zero.

Definition datetime_value (s : string) : time.Time :=
  if datetime_ok s
  then default time.zero
         (transformer.parse_first
            [time.layout_iso; time.layout_iso_millis;
             time.layout_datetime_dash; time.layout_datetime_slash] s)
  else time.zero.

(** A date text with its slashes turned into dashes. *)
Fixpoint slash_to_dash (s : string) : string :=
  match s with
  | EmptyString => EmptyString
  | String c r =>
      String (if decide (c = "/"%char) then "-"%char else c) (slash_to_dash r)
  end.

(** The business key of the record made from a raw record. *)
Definition raw_ads_key (raw : AdsRecord.t) : string :=
  time.FormatDate (date_value (AdsRecord.Date raw)) +:+ "|"
    +:+ text_or_unknown (AdsRecord.CampaignID raw) +:+ "|"
    +:+ text_or_unknown (AdsRecord.Channel raw).

Definition raw_crm_key (raw : CRMRecord.t) : string :=
  text_or_unknown (CRMRecord.OpportunityID raw).

(** The fields of the normalised record [r] in terms of the raw record
    [raw] it is made from. *)
Record ads_values (raw : AdsRecord.t) (r : NormalizedAdsRecord.t) : Prop := {
  av_date : NormalizedAdsRecord.Date r = date_value (AdsRecord.Date raw);
  av_campaign_id : NormalizedAdsRecord.CampaignID r
                   = text_or_unknown (AdsRecord.CampaignID raw);
  av_channel : NormalizedAdsRecord.Channel r = text_or_unknown (AdsRecord.Channel raw);
  av_clicks : NormalizedAdsRecord.Clicks r
              = if count_ok (AdsRecord.Clicks raw) then AdsRecord.Clicks raw else 0;
  av_impressions : NormalizedAdsRecord.Impressions r
                   = if count_ok (AdsRecord.Impressions raw)
                     then AdsRecord.Impressions raw else 0;
  av_cost : NormalizedAdsRecord.Cost r
            = if amount_ok (AdsRecord.Cost raw) then AdsRecord.Cost raw else Float64.zero;
  av_utm_campaign : NormalizedAdsRecord.UTMCampaign r
                    = text_or_unknown (AdsRecord.UTMCampaign raw);
  av_utm_source : NormalizedAdsRecord.UTMSource r = utm_segment (AdsRecord.UTMSource raw);
  av_utm_medium : NormalizedAdsRecord.UTMMedium r = utm_segment (AdsRecord.UTMMedium raw);
  av_utm_key : NormalizedAdsRecord.UTMKey r
               = NormalizedAdsRecord.UTMCampaign r +:+ "|"
                   +:+ NormalizedAdsRecord.UTMSource r +:+ "|"
                   +:+ NormalizedAdsRecord.UTMMedium r;
  av_errors : RecordQuality.ErrorCount (NormalizedAdsRecord.Quality r)
              = Z.of_nat (failures (ads_rules raw))
}.

Record crm_values (raw : CRMRecord.t) (r : NormalizedCRMRecord.t) : Prop := {
  cv_opportunity_id : NormalizedCRMRecord.OpportunityID r
                      = text_or_unknown (CRMRecord.OpportunityID raw);
  cv_email : NormalizedCRMRecord.ContactEmail r = CRMRecord.ContactEmail raw;
  cv_stage : NormalizedCRMRecord.Stage r = text_or_unknown (CRMRecord.Stage raw);
  cv_amount : NormalizedCRMRecord.Amount r
              = if amount_ok (CRMRecord.Amount raw)
                then CRMRecord.Amount raw else Float64.zero;
  cv_created_at : NormalizedCRMRecord.CreatedAt r
                  = datetime_value (CRMRecord.CreatedAt raw);
  cv_utm_campaign : NormalizedCRMRecord.UTMCampaign r
                    = text_or_unknown (CRMRecord.UTMCampaign raw);
  cv_utm_source : NormalizedCRMRecord.UTMSource r = utm_segment (CRMRecord.UTMSource raw);
  cv_utm_medium : NormalizedCRMRecord.UTMMedium r = utm_segment (CRMRecord.UTMMedium raw);
  cv_utm_key : NormalizedCRMRecord.UTMKey r
               = NormalizedCRMRecord.UTMCampaign r +:+ "|"
                   +:+ NormalizedCRMRecord.UTMSource r +:+ "|"
                   +:+ NormalizedCRMRecord.UTMMedium r;
  cv_errors : RecordQuality.ErrorCount (NormalizedCRMRecord.Quality r)
              = Z.of_nat (failures (crm_rules raw))
}.

(** *** Batches *)

(** The batch [rs] the normalisation loop builds from the raw records
    [raws], numbered from [i0], and the maps [ms] it allocates for them,
    the objects [ref0], [ref0 + 1], ... of the heap. *)
Definition ads_batch (raws : list AdsRecord.t) (i0 : nat) (ref0 : mapref)
    (rs : list NormalizedAdsRecord.t) (ms : list fieldmap) : Prop :=
  length rs = length raws /\ length ms = length raws /\
  forall k raw, raws !! k = Some raw ->
    exists r m, rs !! k = Some r /\ ms !! k = Some m /\
      ads_normal raw (i0 + k)%nat (ref0 + k)%nat r m.

Definition crm_batch (raws : list CRMRecord.t) (i0 : nat) (ref0 : mapref)
    (rs : list NormalizedCRMRecord.t) (ms : list fieldmap) : Prop :=
  length rs = length raws /\ length ms = length raws /\
  forall k raw, raws !! k = Some raw ->
    exists r m, rs !! k = Some r /\ ms !! k = Some m /\
      crm_normal raw (i0 + k)%nat (ref0 + k)%nat r m.

(** The heap [h'] is [h] where the maps [refs] have received a failed
    ["duplicate"] verdict and nothing else has changed. *)
Definition marked (refs : list mapref) (h h' : heap) : Prop :=
  length h' = length h /\
  forall l,
    (l ∉ refs -> h' !! l = h !! l) /\
    (l ∈ refs -> exists entries fq,
        h !! l = Some entries /\ FieldQuality.IsValid fq = false /\
        h' !! l = Some (<["duplicate" := fq]> entries)).

Definition ads_ref (r : NormalizedAdsRecord.t) : mapref :=
  RecordQuality.FieldErrors (NormalizedAdsRecord.Quality r).
Definition crm_ref (r : NormalizedCRMRecord.t) : mapref :=
  RecordQuality.FieldErrors (NormalizedCRMRecord.Quality r).

(** The maps [ms] of a batch after deduplication: those of the records kept,
    at the positions [idx], are as they were; each of the others has
    received a failed ["duplicate"] verdict. *)
Definition settled (idx : list nat) (ms ms' : list fieldmap) : Prop :=
  length ms' = length ms /\
  forall k m, ms !! k = Some m ->
    (k ∈ idx -> ms' !! k = Some m) /\
    (k ∉ idx -> exists fq,
        FieldQuality.IsValid fq = false /\
        ms' !! k = Some (<["duplicate" := fq]> m)).

(** *** Channel metrics *)

(** The advertising records that pass the optional channel filter. *)
Definition selected (channel : string) (ads : list NormalizedAdsRecord.t)
  : list NormalizedAdsRecord.t :=
  filter (fun r => channel = "" \/ NormalizedAdsRecord.Channel r = channel) ads.

(** The group of the selected records sharing a date (as YYYY-MM-DD) and a
    channel. *)
Definition ads_group (channel date chan : string) (ads : list NormalizedAdsRecord.t)
  : list NormalizedAdsRecord.t :=
  filter (fun r => time.FormatDate (NormalizedAdsRecord.Date r) = date
                   /\ NormalizedAdsRecord.Channel r = chan)
         (selected channel ads).

(** A CRM record is counted in a group when the day it was created is the
    date of the group and its key is the key of a record of the group. *)
Definition counted (group : list NormalizedAdsRecord.t) (date : string)
    (c : NormalizedCRMRecord.t) : Prop :=
  time.FormatDate (NormalizedCRMRecord.CreatedAt c) = date /\
  NormalizedCRMRecord.UTMKey c ∈ NormalizedAdsRecord.UTMKey <$> group.

Global Instance counted_dec group date c : Decision (counted group date c).
Proof. unfold counted. apply _. Defined.

(** The number of the counted CRM records at a given stage. *)
Definition count_stage (group : list NormalizedAdsRecord.t) (date stage : string)
    (crm : list NormalizedCRMRecord.t) : Z :=
  Z.of_nat (length (filter (fun c => counted group date c
                                     /\ NormalizedCRMRecord.Stage c = stage) crm)).

(** The amounts of the counted CRM records won, added up in input order. *)
Definition revenue_of (group : list NormalizedAdsRecord.t) (date : string)
    (crm : list NormalizedCRMRecord.t) : float64 :=
  foldl Float64.add Float64.zero
    (NormalizedCRMRecord.Amount <$>
       filter (fun c => counted group date c
                        /\ NormalizedCRMRecord.Stage c = "closed_won") crm).

(** No bar in a string. *)
Fixpoint bar_free (s : string) : bool :=
  match s with
  | EmptyString => true
  | String c r => negb (bool_decide (c = "|"%char)) && bar_free r
  end.

(** *** Totals *)

Definition sum_Z (l : list Z) : Z := foldr Z.add 0 l.

(** Floats added up from the left, as the loops of the program do. *)
Definition sum_float (l : list float64) : float64 :=
  foldl Float64.add Float64.zero l.

(** *** The funnel *)

(** The advertising records that pass the optional campaign filter. *)
Definition campaign_selected (utmCampaign : string) (ads : list NormalizedAdsRecord.t)
  : list NormalizedAdsRecord.t :=
  filter (fun r => utmCampaign = "" \/ NormalizedAdsRecord.UTMCampaign r = utmCampaign) ads.

(** The group of the selected records with a given attribution key. *)
Definition utm_group (utmCampaign key : string) (ads : list NormalizedAdsRecord.t)
  : list NormalizedAdsRecord.t :=
  filter (fun r => NormalizedAdsRecord.UTMKey r = key) (campaign_selected utmCampaign ads).

(** The CRM records with a given attribution key at a given stage. *)
Definition attributed (key stage : string) (crm : list NormalizedCRMRecord.t)
  : list NormalizedCRMRecord.t :=
  filter (fun c => NormalizedCRMRecord.UTMKey c = key
                   /\ NormalizedCRMRecord.Stage c = stage) crm.

(** *** Retries *)

(** The events of a call that makes [requests] requests: each is preceded
    by its back-off, the first excepted. *)
Definition schedule (requests : nat) : list client.event :=
  flat_map (fun attempt => (client.backoff attempt ++ [client.Request])%list)
           (seq 0 requests).

(** The time slept, in nanoseconds. *)
Definition slept (events : list client.event) : Z :=
  sum_Z (omap (fun e => match e with
                        | client.Sleep d => Some d
                        | client.Request => None
                        end) events).

(** The replies after which [retryRequest] tries again: a request that
    fails, a status of 500 or more, a status below 400 with a body that
    cannot be read or decoded. *)
Definition get_again (r : client.reply) : option client.cause :=
  match r with
  | client.transport_error => Some client.request_failed
  | client.response c b =>
      if 500 <=? c then Some (client.server_error c)
      else if 400 <=? c then None
      else match b with
           | client.unreadable => Some client.read_failed
           | client.malformed => Some client.unmarshal_failed
           | client.decoded => None
           end
  end.

(** The replies after which [retryPostRequest] tries again: a request that
    fails, a status below 200, from 300 to 399, or of 500 or more. *)
Definition post_again (r : client.reply) : option client.cause :=
  match r with
  | client.transport_error => Some client.request_failed
  | client.response c _ =>
      if (200 <=? c) && (c <? 500) && negb ((300 <=? c) && (c <? 400)) then None
      else Some (client.server_error c)
  end.

(** *** The quality report *)

(** The number of valid records of a batch. *)
Definition valid_count {A} (quality : A -> RecordQuality.t) (records : list A) : Z :=
  Z.of_nat (length (filter (fun r => RecordQuality.IsValid (quality r) = true) records)).

(** The descriptions of the failed verdicts of a map. *)
Definition failed_descriptions (entries : fieldmap) : list string :=
  FieldQuality.Description <$>
    filter (fun fq => FieldQuality.IsValid fq = false) (snd <$> map_to_list entries).

(** The descriptions of the failed verdicts of the two batches. *)
Definition issues (h : heap) (ads : list NormalizedAdsRecord.t)
    (crm : list NormalizedCRMRecord.t) : list string :=
  (ads ≫= fun r => failed_descriptions (map_load h (ads_ref r)))
  ++ (crm ≫= fun r => failed_descriptions (map_load h (crm_ref r))).

(** The number of occurrences of a description in a list. *)
Definition occurrences (d : string) (l : list string) : Z :=
  Z.of_nat (length (filter (fun d' => d' = d) l)).

(** The counting of [identifyCommonIssues], on a list of descriptions. *)
Definition tally (issueCount : gmap string Z) (descriptions : list string)
  : gmap string Z :=
  foldl (fun issueCount description =>
           <[description := incr (default 0 (issueCount !! description))]> issueCount)
        issueCount descriptions.

(** [strings.Split(s, "|")]: the pieces of [s] between its bars. *)
Fixpoint split_bar (s : string) : list string :=
  match s with
  | EmptyString => [EmptyString]
  | String c r =>
      if decide (c = "|"%char) then EmptyString :: split_bar r
      else match split_bar r with
           | piece :: pieces => String c piece :: pieces
           | [] => [String c EmptyString]
           end
  end.

(** ** Sample data *)

(** Two raw advertising records with the same date, campaign and channel,
    the second without attribution values, and two raw CRM records without
    an opportunity id. *)
Definition sample_ads : list AdsRecord.t :=
  [ AdsRecord.mk "2025-08-01" "C1" "google_ads" 100 1000 (Float64.of_int 50)
      "spring" (Some "google") (Some "cpc");
    AdsRecord.mk "2025-08-01" "C1" "google_ads" 7 70 (Float64.of_int 5)
      "" None (Some "  ") ].

(** A raw advertising record that passes every rule and whose medium is a
    single bar. *)
Definition sample_bar_medium : AdsRecord.t :=
  AdsRecord.mk "2025-08-01" "C1" "google_ads" 100 1000 (Float64.of_int 50)
    "spring" (Some "google") (Some "|").

Definition sample_crm : list CRMRecord.t :=
  [ CRMRecord.mk "" "a@b.co" "closed_won" (Float64.of_int 200)
      "2025-08-01T10:00:00Z" "spring" (Some "google") (Some "cpc");
    CRMRecord.mk "  " "not-an-email" "lead" (Float64.of_int 0)
      "2025-08-01 11:00:00" "spring" (Some "google") (Some "cpc") ].

(** Normalised records written by hand, with their (empty) maps. *)
Definition sample_day : time.Time := time.Date 2025 8 1 0 0 0 0.

Definition sample_normalized_ads : list NormalizedAdsRecord.t :=
  [ NormalizedAdsRecord.mk sample_day "C1" "google_ads" 100 1000 (Float64.of_int 50)
      "spring" "google" "cpc" "spring|google|cpc" (RecordQuality.mk "ads_0" true 0 0);
    NormalizedAdsRecord.mk sample_day "C1" "google_ads" 7 70 (Float64.of_int 5)
      "spring" "google" "cpc" "spring|google|cpc" (RecordQuality.mk "ads_1" true 1 0) ].

Definition sample_normalized_crm : list NormalizedCRMRecord.t :=
  [ NormalizedCRMRecord.mk "O1" "a@b.co" "closed_won" (Float64.of_int 200) sample_day
      "spring" "google" "cpc" "spring|google|cpc" (RecordQuality.mk "crm_0" true 2 0);
    NormalizedCRMRecord.mk "O1" "c@d.co" "lead" (Float64.of_int 0) sample_day
      "spring" "google" "cpc" "spring|google|cpc" (RecordQuality.mk "crm_1" true 3 0) ].

Definition sample_heap : heap := [∅; ∅; ∅; ∅].

(** * Properties *)

(** ** First occurrences *)

Section first_occurrence_facts.
Context {A : Type} (key : A -> string).

Lemma first_indices_ge seen i l n :
  n ∈ first_indices key seen i l -> (i <= n)%nat.
Proof.
  revert seen i. induction l as [|x l IH]; intros seen i; simpl.
  - by intros ?%elem_of_nil.
  - case_decide.
    + intros ?%IH. lia.
    + intros [->|?%IH]%elem_of_cons; lia.
Qed.

Lemma first_indices_sorted seen i l :
  StronglySorted lt (first_indices key seen i l).
Proof.
  revert seen i. induction l as [|x l IH]; intros seen i; simpl.
  - constructor.
  - case_decide; [apply IH|].
    constructor; [apply IH|].
    apply Forall_forall. intros n ?%first_indices_ge. lia.
Qed.

Lemma first_indices_spec seen i l n :
  n ∈ first_indices key seen i l <->
  exists k x, n = (i + k)%nat /\ l !! k = Some x /\ (key x ∉ seen) /\
    forall j y, (j < k)%nat -> l !! j = Some y -> key y <> key x.
Proof.
  revert seen i. induction l as [|x l IH]; intros seen i; simpl.
  - split; [by intros ?%elem_of_nil|]. by intros (? & ? & _ & ? & _).
  - case_decide as Hx.
    + rewrite IH. split.
      * intros (k & y & -> & Hy & Hs & Hf). exists (S k), y.
        split_and!; [lia|done|done|].
        intros [|j] z Hj Hz; simpl in Hz.
        -- injection Hz as <-. intros Heq. apply Hs. by rewrite <-Heq.
        -- apply (Hf j z); [lia|done].
      * intros (k & y & -> & Hy & Hs & Hf). destruct k as [|k]; simpl in Hy.
        { injection Hy as <-. done. }
        exists k, y. split_and!; [lia|done|done|].
        intros j z Hj Hz. apply (Hf (S j) z); [lia|done].
    + rewrite elem_of_cons, IH. split.
      * intros [->|(k & y & -> & Hy & Hs & Hf)].
        { exists 0%nat, x. split_and!; [lia|done|done|]. intros j z Hj. lia. }
        exists (S k), y. split_and!; [lia|done|set_solver|].
        intros [|j] z Hj Hz; simpl in Hz.
        -- injection Hz as <-. intros Heq. apply Hs. rewrite <-Heq. set_solver.
        -- apply (Hf j z); [lia|done].
      * intros (k & y & -> & Hy & Hs & Hf). destruct k as [|k]; simpl in Hy.
        { left. lia. }
        right. exists k, y. split_and!; [lia|done| |].
        { intros [Hk%elem_of_singleton|?]%elem_of_union; [|done].
          apply (Hf 0%nat x); [lia|done|done]. }
        intros j z Hj Hz. apply (Hf (S j) z); [lia|done].
Qed.

Lemma first_indices_first_with_key l n :
  n ∈ first_indices key ∅ 0 l <-> first_with_key key l n.
Proof.
  rewrite first_indices_spec. unfold first_with_key. split.
  - intros (k & x & -> & ? & _ & ?). by exists x.
  - intros (x & ? & ?). exists n, x. split_and!; [lia|done|set_solver|done].
Qed.

Lemma keep_first_pick_from seen i pre l :
  length pre = i ->
  keep_first key seen l = pick (pre ++ l) (first_indices key seen i l).
Proof.
  revert seen i pre. induction l as [|x l IH]; intros seen i pre Hi; simpl; [done|].
  case_decide.
  - rewrite (IH _ (S i) (pre ++ [x])); [|rewrite length_app; simpl; lia].
    by rewrite <-app_assoc.
  - unfold pick at 1. simpl. rewrite lookup_app_r, Hi, Nat.sub_diag by lia. simpl.
    f_equal. rewrite (IH _ (S i) (pre ++ [x])); [|rewrite length_app; simpl; lia].
    by rewrite <-app_assoc.
Qed.

Lemma keep_first_pick l :
  keep_first key ∅ l = pick l (first_indices key ∅ 0 l).
Proof. by apply (keep_first_pick_from ∅ 0%nat []). Qed.

Lemma keep_first_keys seen l x :
  x ∈ keep_first key seen l -> (key x ∉ seen) /\ x ∈ l.
Proof.
  revert seen. induction l as [|y l IH]; intros seen; simpl.
  - by intros ?%elem_of_nil.
  - case_decide.
    + intros [? ?]%IH. split; [done|by right].
    + intros [->|[? ?]%IH]%elem_of_cons; [split; [done|by left]|].
      split; [set_solver|by right].
Qed.

Lemma keep_first_NoDup seen l : NoDup (key <$> keep_first key seen l).
Proof.
  revert seen. induction l as [|y l IH]; intros seen; simpl.
  - constructor.
  - case_decide; [apply IH|]. rewrite fmap_cons. constructor; [|apply IH].
    intros (z & Hz & [? ?]%keep_first_keys)%list_elem_of_fmap. set_solver.
Qed.

(** A list whose keys are pairwise distinct and new is kept whole. *)
Lemma keep_first_id seen l :
  NoDup (key <$> l) -> (forall x, x ∈ l -> key x ∉ seen) ->
  keep_first key seen l = l /\ drop_later key seen l = [].
Proof.
  revert seen. induction l as [|y l IH]; intros seen Hnd Hs; simpl; [done|].
  rewrite fmap_cons in Hnd. apply NoDup_cons in Hnd as [Hy Hnd].
  rewrite !decide_False by (apply Hs; by left).
  assert (forall x, x ∈ l -> key x ∉ {[key y]} ∪ seen) as Hs'.
  { intros x Hx [Hk%elem_of_singleton|?]%elem_of_union.
    - apply Hy, list_elem_of_fmap. by exists x.
    - apply (Hs x); [by right|done]. }
  destruct (IH _ Hnd Hs') as [H1 H2]. by rewrite H1, H2.
Qed.

Lemma drop_later_elem seen l x : x ∈ drop_later key seen l -> x ∈ l.
Proof.
  revert seen. induction l as [|y l IH]; intros seen; simpl.
  - by intros ?%elem_of_nil.
  - case_decide.
    + intros [->|?%IH]%elem_of_cons; [by left|by right].
    + intros ?%IH. by right.
Qed.
End first_occurrence_facts.

Section first_occurrence_more.
Context {A : Type} (key : A -> string).

Lemma drop_later_spec seen i l x :
  x ∈ drop_later key seen l <->
  exists k, l !! k = Some x /\ (i + k)%nat ∉ first_indices key seen i l.
Proof.
  revert seen i. induction l as [|y l IH]; intros seen i; simpl.
  - split; [by intros ?%elem_of_nil|]. by intros (? & ? & _).
  - case_decide as Hy.
    + rewrite elem_of_cons, (IH seen (S i)). split.
      * intros [->|(k & Hk & Hn)].
        -- exists 0%nat. split; [done|].
           intros ?%first_indices_ge. lia.
        -- exists (S k). split; [done|].
           by replace (i + S k)%nat with (S i + k)%nat by lia.
      * intros ([|k] & Hk & Hn); simpl in Hk.
        -- left. congruence.
        -- right. exists k. split; [done|].
           by replace (S i + k)%nat with (i + S k)%nat by lia.
    + rewrite (IH _ (S i)). split.
      * intros (k & Hk & Hn). exists (S k). split; [done|].
        rewrite not_elem_of_cons.
        replace (i + S k)%nat with (S i + k)%nat by lia. split; [lia|done].
      * intros ([|k] & Hk & Hn); simpl in Hk.
        -- exfalso. apply Hn. rewrite Nat.add_0_r. by left.
        -- exists k. split; [done|].
           rewrite not_elem_of_cons in Hn.
           replace (S i + k)%nat with (i + S k)%nat by lia. tauto.
Qed.

Lemma pick_elem (l : list A) (idx : list nat) (x : A) :
  x ∈ pick l idx <-> exists i, i ∈ idx /\ l !! i = Some x.
Proof. unfold pick. by rewrite list_elem_of_omap. Qed.
End first_occurrence_more.

(** ** Integers *)

Lemma wrap64_small z : - 2 ^ 63 <= z < 2 ^ 63 -> wrap64 z = z.
Proof.
  intros Hz. unfold wrap64.
  rewrite Z.mod_small by lia. lia.
Qed.

Lemma incr_small z : - 2 ^ 63 <= z < 2 ^ 63 - 1 -> incr z = z + 1.
Proof. intros Hz. unfold incr. apply wrap64_small. lia. Qed.

(** ** The heap *)

Lemma map_store_Some m k v h entries :
  h !! m = Some entries ->
  map_store m k v h = Some (tt, <[m := <[k := v]> entries]> h).
Proof. intros Hm. unfold map_store. by rewrite Hm. Qed.

Lemma map_store_None m k v h : h !! m = None -> map_store m k v h = None.
Proof. intros Hm. unfold map_store. by rewrite Hm. Qed.

Lemma count_invalid_empty : count_invalid ∅ = 0%nat.
Proof. unfold count_invalid. by rewrite map_filter_empty, map_size_empty. Qed.

Lemma count_invalid_insert k fq (entries : fieldmap) :
  entries !! k = None ->
  count_invalid (<[k := fq]> entries) =
    ((if FieldQuality.IsValid fq then 0 else 1) + count_invalid entries)%nat.
Proof.
  intros Hk. unfold count_invalid.
  destruct (FieldQuality.IsValid fq) eqn:Hv.
  - rewrite map_filter_insert_not' ; simpl; [done|congruence|by rewrite Hk].
  - rewrite map_filter_insert_True by done.
    rewrite map_size_insert_None; [done|].
    apply map_lookup_filter_None. by left.
Qed.

(** ** The field validators *)

Section validators.
Import transformer.

Lemma fail_writes {A} quality fieldName description original (result : A) h
    (P : A -> FieldQuality.t -> Prop) :
  P result (FieldQuality.mk false description original) ->
  writes_verdict (fail quality fieldName description original result)
    fieldName quality h P.
Proof.
  intros HP entries He. eexists _, _. split; [exact HP|].
  unfold fail, mbind, M_bind, mret, M_ret.
  by rewrite (map_store_Some _ _ _ _ _ He).
Qed.

Lemma pass_writes {A} quality fieldName description original (result : A) h
    (P : A -> FieldQuality.t -> Prop) :
  P result (FieldQuality.mk true description original) ->
  writes_verdict (pass quality fieldName description original result)
    fieldName quality h P.
Proof.
  intros HP entries He. eexists _, _. split; [exact HP|].
  unfold pass, mbind, M_bind, mret, M_ret.
  by rewrite (map_store_Some _ _ _ _ _ He).
Qed.

(** Every validator stores exactly one verdict, under the name it is
    given, and counts it when it is a failure. *)
Ltac one_verdict :=
  intros;
  repeat first [case_decide | case_match];
  first [apply fail_writes | apply pass_writes]; done.

Lemma validateAndParseDate_writes dateStr f q h :
  writes_verdict (validateAndParseDate dateStr f q) f q h (fun _ _ => True).
Proof. unfold validateAndParseDate. one_verdict. Qed.

Lemma validateCampaignID_writes id f q h :
  writes_verdict (validateCampaignID id f q) f q h (fun _ _ => True).
Proof. unfold validateCampaignID. one_verdict. Qed.

Lemma validateChannel_writes channel f q h :
  writes_verdict (validateChannel channel f q) f q h (fun _ _ => True).
Proof. unfold validateChannel. one_verdict. Qed.

Lemma validateClicks_writes clicks f q h :
  writes_verdict (validateClicks clicks f q) f q h (fun _ _ => True).
Proof. unfold validateClicks. one_verdict. Qed.

Lemma validateImpressions_writes impressions f q h :
  writes_verdict (validateImpressions impressions f q) f q h (fun _ _ => True).
Proof. unfold validateImpressions. one_verdict. Qed.

Lemma validateCost_writes cost f q h :
  writes_verdict (validateCost cost f q) f q h (fun _ _ => True).
Proof. unfold validateCost. one_verdict. Qed.

Lemma validateOpportunityID_writes id f q h :
  writes_verdict (validateOpportunityID id f q) f q h
    (fun result _ =>
       result = if decide (strings.TrimSpace id = "") then "unknown" else id).
Proof. unfold validateOpportunityID. one_verdict. Qed.

Lemma validateEmail_writes email f q h :
  writes_verdict (validateEmail email f q) f q h (fun _ _ => True).
Proof. unfold validateEmail. one_verdict. Qed.

Lemma validateStage_writes stage f q h :
  writes_verdict (validateStage stage f q) f q h (fun _ _ => True).
Proof. unfold validateStage. one_verdict. Qed.

Lemma validateAmount_writes amount f q h :
  writes_verdict (validateAmount amount f q) f q h (fun _ _ => True).
Proof. unfold validateAmount. one_verdict. Qed.

Lemma validateAndParseDateTime_writes dateTimeStr f q h :
  writes_verdict (validateAndParseDateTime dateTimeStr f q) f q h (fun _ _ => True).
Proof. unfold validateAndParseDateTime. one_verdict. Qed.

Lemma validateUTMCampaign_writes campaign f q h :
  writes_verdict (validateUTMCampaign campaign f q) f q h
    (fun result _ =>
       result = if decide (strings.TrimSpace campaign = "") then "unknown" else campaign).
Proof. unfold validateUTMCampaign. one_verdict. Qed.

Lemma validateUTMSource_writes source f q h :
  writes_verdict (validateUTMSource source f q) f q h
    (fun result _ => result = utm_segment source).
Proof. unfold validateUTMSource, utm_segment. one_verdict. Qed.

Lemma validateUTMMedium_writes medium f q h :
  writes_verdict (validateUTMMedium medium f q) f q h
    (fun result _ => result = utm_segment medium).
Proof. unfold validateUTMMedium, utm_segment. one_verdict. Qed.
End validators.

(** ** Normalising one record *)

Section normalize_record.
Import transformer RecordQuality.

Lemma accumulates_init h0 id :
  accumulates h0 id [] (RecordQuality.mk id true (length h0) 0) ∅.
Proof.
  split; simpl; try done; by rewrite ?count_invalid_empty.
Qed.

(** One validator run on the accumulator of a record under construction. *)
Lemma validator_step {A} (c : M (A * RecordQuality.t)) f q h0 id m P fs :
  writes_verdict c f q (h0 ++ [m]) P ->
  accumulates h0 id fs q m ->
  f ∉ fs -> (length fs < 100)%nat ->
  exists result fq q',
    P result fq /\
    c (h0 ++ [m]) = Some ((result, q'), h0 ++ [<[f := fq]> m]) /\
    accumulates h0 id (f :: fs) q' (<[f := fq]> m) /\
    IsValid q' = IsValid q.
Proof.
  intros Hw [Href Hid Hcount Hdom Hbound] Hf Hlen.
  destruct (Hw m) as (result & fq & HP & Hc).
  { rewrite Href. by rewrite lookup_app_r, Nat.sub_diag. }
  assert (m !! f = None) as Hfresh.
  { apply not_elem_of_dom. rewrite Hdom. by rewrite elem_of_list_to_set. }
  exists result, fq. eexists. split; [done|]. split.
  { rewrite Hc. do 2 f_equal. rewrite Href.
    rewrite insert_app_r_alt, Nat.sub_diag by lia. done. }
  pose proof (count_invalid_insert f fq m Hfresh) as Hci.
  destruct (FieldQuality.IsValid fq); (split; [split|]); simpl; try done.
  - rewrite Hci. simpl. done.
  - by rewrite dom_insert_L, Hdom.
  - lia.
  - rewrite Hci, Hcount. rewrite incr_small; lia.
  - by rewrite dom_insert_L, Hdom.
  - lia.
Qed.

Ltac fresh_field := apply (bool_decide_unpack _); vm_compute; exact I.

(** Runs the next validator of the goal, with the lemma [Hw] for it. *)
Ltac run_validator Hw Hacc result fq q HP :=
  let E := fresh "E" in
  let Hacc' := fresh "Hacc" in
  let Hv := fresh "Hv" in
  destruct (validator_step _ _ _ _ _ _ _ _ (Hw _ _) Hacc)
    as (result & fq & q & HP & E & Hacc' & Hv);
  [fresh_field | simpl; lia |];
  rewrite E; clear E; simpl;
  clear Hacc; rename Hacc' into Hacc.

Lemma normalizeAdsRecord_spec i record h :
  exists r entries,
    normalizeAdsRecord i record h = Some (r, h ++ [entries]) /\
    ads_normal record i (length h) r entries.
Proof.
  unfold normalizeAdsRecord, make_map.
  unfold mbind at 1. unfold M_bind at 1.
  pose proof (accumulates_init h ("ads_" +:+ fmt.d (Z.of_nat i))) as Hacc.
  unfold mbind, M_bind.
  run_validator (validateAndParseDate_writes (AdsRecord.Date record) "date") Hacc v1 fq1 q1 H1.
  run_validator (validateCampaignID_writes (AdsRecord.CampaignID record) "campaign_id") Hacc v2 fq2 q2 H2.
  run_validator (validateChannel_writes (AdsRecord.Channel record) "channel") Hacc v3 fq3 q3 H3.
  run_validator (validateClicks_writes (AdsRecord.Clicks record) "clicks") Hacc v4 fq4 q4 H4.
  run_validator (validateImpressions_writes (AdsRecord.Impressions record) "impressions") Hacc v5 fq5 q5 H5.
  run_validator (validateCost_writes (AdsRecord.Cost record) "cost") Hacc v6 fq6 q6 H6.
  run_validator (validateUTMCampaign_writes (AdsRecord.UTMCampaign record) "utm_campaign") Hacc v7 fq7 q7 H7.
  run_validator (validateUTMSource_writes (AdsRecord.UTMSource record) "utm_source") Hacc v8 fq8 q8 H8.
  run_validator (validateUTMMedium_writes (AdsRecord.UTMMedium record) "utm_medium") Hacc v9 fq9 q9 H9.
  eexists _, _. split; [reflexivity|].
  destruct Hacc as [Href Hid Hcount Hdom Hbound].
  split; simpl; done.
Qed.

Lemma normalizeCRMRecord_spec i record h :
  exists r entries,
    normalizeCRMRecord i record h = Some (r, h ++ [entries]) /\
    crm_normal record i (length h) r entries.
Proof.
  unfold normalizeCRMRecord, make_map.
  unfold mbind at 1. unfold M_bind at 1.
  pose proof (accumulates_init h ("crm_" +:+ fmt.d (Z.of_nat i))) as Hacc.
  unfold mbind, M_bind.
  run_validator (validateOpportunityID_writes (CRMRecord.OpportunityID record) "opportunity_id") Hacc v1 fq1 q1 H1.
  run_validator (validateEmail_writes (CRMRecord.ContactEmail record) "contact_email") Hacc v2 fq2 q2 H2.
  run_validator (validateStage_writes (CRMRecord.Stage record) "stage") Hacc v3 fq3 q3 H3.
  run_validator (validateAmount_writes (CRMRecord.Amount record) "amount") Hacc v4 fq4 q4 H4.
  run_validator (validateAndParseDateTime_writes (CRMRecord.CreatedAt record) "created_at") Hacc v5 fq5 q5 H5.
  run_validator (validateUTMCampaign_writes (CRMRecord.UTMCampaign record) "utm_campaign") Hacc v6 fq6 q6 H6.
  run_validator (validateUTMSource_writes (CRMRecord.UTMSource record) "utm_source") Hacc v7 fq7 q7 H7.
  run_validator (validateUTMMedium_writes (CRMRecord.UTMMedium record) "utm_medium") Hacc v8 fq8 q8 H8.
  eexists _, _. split; [reflexivity|].
  destruct Hacc as [Href Hid Hcount Hdom Hbound].
  split; simpl; done.
Qed.
End normalize_record.

(** ** The normalisation loops *)

Section normalize_loop.
Import transformer.

Lemma normalizeAdsFrom_spec records : forall i normalized h,
  exists rs ms,
    normalizeAdsFrom i records normalized h = Some ((normalized ++ rs)%list, (h ++ ms)%list) /\
    ads_batch records i (length h) rs ms.
Proof.
  induction records as [|record records IH]; intros i normalized h; simpl.
  - exists [], []. rewrite !app_nil_r. split; [done|].
    split_and!; [done|done|]. intros k raw Hk. done.
  - destruct (normalizeAdsRecord_spec i record h) as (r & m & Hr & Hn).
    destruct (IH (S i) (normalized ++ [r])%list (h ++ [m])%list)
      as (rs & ms & Hrs & Hlr & Hlm & Hall).
    exists (r :: rs), (m :: ms). split.
    + unfold mbind, M_bind. rewrite Hr. rewrite Hrs.
      by rewrite <-!app_assoc.
    + split_and!; simpl; [lia|lia|].
      intros [|k] raw Hk; simpl in Hk.
      * injection Hk as <-. exists r, m. rewrite !Nat.add_0_r. done.
      * destruct (Hall k raw Hk) as (r' & m' & ? & ? & Hn').
        exists r', m'. split_and!; [done|done|].
        rewrite length_app in Hn'. simpl in Hn'.
        by replace (i + S k)%nat with (S i + k)%nat by lia;
           replace (length h + S k)%nat with (length h + 1 + k)%nat by lia.
Qed.

Lemma normalizeCRMFrom_spec records : forall i normalized h,
  exists rs ms,
    normalizeCRMFrom i records normalized h = Some ((normalized ++ rs)%list, (h ++ ms)%list) /\
    crm_batch records i (length h) rs ms.
Proof.
  induction records as [|record records IH]; intros i normalized h; simpl.
  - exists [], []. rewrite !app_nil_r. split; [done|].
    split_and!; [done|done|]. intros k raw Hk. done.
  - destruct (normalizeCRMRecord_spec i record h) as (r & m & Hr & Hn).
    destruct (IH (S i) (normalized ++ [r])%list (h ++ [m])%list)
      as (rs & ms & Hrs & Hlr & Hlm & Hall).
    exists (r :: rs), (m :: ms). split.
    + unfold mbind, M_bind. rewrite Hr. rewrite Hrs.
      by rewrite <-!app_assoc.
    + split_and!; simpl; [lia|lia|].
      intros [|k] raw Hk; simpl in Hk.
      * injection Hk as <-. exists r, m. rewrite !Nat.add_0_r. done.
      * destruct (Hall k raw Hk) as (r' & m' & ? & ? & Hn').
        exists r', m'. split_and!; [done|done|].
        rewrite length_app in Hn'. simpl in Hn'.
        by replace (i + S k)%nat with (S i + k)%nat by lia;
           replace (length h + S k)%nat with (length h + 1 + k)%nat by lia.
Qed.
End normalize_loop.

(** ** Marking duplicates in the heap *)

Lemma marked_nil h : marked [] h h.
Proof.
  split; [done|]. intros l. split; [done|]. by intros ?%elem_of_nil.
Qed.

Lemma marked_cons l entries fq refs (h h' : heap) :
  h !! l = Some entries ->
  FieldQuality.IsValid fq = false ->
  marked refs (<[l := <["duplicate" := fq]> entries]> h) h' ->
  marked (l :: refs) h h'.
Proof.
  intros Hl Hfq [Hlen Hm].
  assert (l < length h)%nat as Hlt by (by eapply lookup_lt_Some).
  rewrite length_insert in Hlen. split; [done|].
  intros l'. destruct (Hm l') as [Hout Hin]. split.
  - intros Hnot. rewrite not_elem_of_cons in Hnot. destruct Hnot as [Hne Hnot].
    rewrite (Hout Hnot). by rewrite list_lookup_insert_ne.
  - intros Hel. destruct (decide (l' ∈ refs)) as [Hr|Hr].
    + destruct (Hin Hr) as (e1 & fq1 & He1 & Hv1 & Hh').
      destruct (decide (l' = l)) as [->|Hne].
      * rewrite list_lookup_insert_eq in He1 by done. injection He1 as <-.
        exists entries, fq1. split_and!; [done|done|].
        by rewrite Hh', insert_insert_eq.
      * rewrite list_lookup_insert_ne in He1 by done.
        by exists e1, fq1.
    + apply elem_of_cons in Hel as [->|?]; [|done].
      exists entries, fq. split_and!; [done|done|].
      rewrite (Hout Hr). by rewrite list_lookup_insert_eq.
Qed.

(** ** The deduplication loops *)

Section dedup_loop.
Import transformer.

Lemma dedupAdsFrom_spec records : forall i (seen : gmap string nat) unique h,
  Forall (fun r => (ads_ref r < length h)%nat) records ->
  exists h',
    dedupAdsFrom i records seen unique h
      = Some ((unique ++ keep_first adsKey (dom seen) records)%list, h') /\
    marked (ads_ref <$> drop_later adsKey (dom seen) records) h h'.
Proof.
  induction records as [|record records IH]; intros i seen unique h Hall; simpl.
  - exists h. rewrite app_nil_r. split; [done|apply marked_nil].
  - apply Forall_cons in Hall as [Hrec Hall].
    destruct (seen !! adsKey record) as [existingIndex|] eqn:Hseen.
    + rewrite !decide_True by (apply elem_of_dom; eauto).
      destruct (lookup_lt_is_Some_2 h _ Hrec) as [entries Hentries].
      unfold mbind, M_bind, markDuplicateAds.
      unfold mbind, M_bind, mret, M_ret.
      fold (ads_ref record).
      rewrite (map_store_Some _ _ _ _ _ Hentries).
      edestruct (IH (S i) seen unique) as (h' & Hrun & Hmarked);
        [|exists h'; split; [exact Hrun|]].
      { rewrite length_insert. exact Hall. }
      rewrite fmap_cons. eapply marked_cons; [done| |exact Hmarked]. done.
    + rewrite !decide_False by (by apply not_elem_of_dom).
      destruct (IH (S i) (<[adsKey record := i]> seen) (unique ++ [record])%list h Hall)
        as (h' & Hrun & Hmarked).
      exists h'. rewrite dom_insert_L in Hrun, Hmarked.
      rewrite <-app_assoc in Hrun. done.
Qed.

Lemma dedupCRMFrom_spec records : forall i (seen : gmap string nat) unique h,
  Forall (fun r => (crm_ref r < length h)%nat) records ->
  exists h',
    dedupCRMFrom i records seen unique h
      = Some ((unique ++ keep_first NormalizedCRMRecord.OpportunityID (dom seen) records)%list, h') /\
    marked (crm_ref <$> drop_later NormalizedCRMRecord.OpportunityID (dom seen) records) h h'.
Proof.
  induction records as [|record records IH]; intros i seen unique h Hall; simpl.
  - exists h. rewrite app_nil_r. split; [done|apply marked_nil].
  - apply Forall_cons in Hall as [Hrec Hall].
    destruct (seen !! NormalizedCRMRecord.OpportunityID record) as [existingIndex|] eqn:Hseen.
    + rewrite !decide_True by (apply elem_of_dom; eauto).
      destruct (lookup_lt_is_Some_2 h _ Hrec) as [entries Hentries].
      unfold mbind, M_bind, markDuplicateCRM.
      unfold mbind, M_bind, mret, M_ret.
      fold (crm_ref record).
      rewrite (map_store_Some _ _ _ _ _ Hentries).
      edestruct (IH (S i) seen unique) as (h' & Hrun & Hmarked);
        [|exists h'; split; [exact Hrun|]].
      { rewrite length_insert. exact Hall. }
      rewrite fmap_cons. eapply marked_cons; [done| |exact Hmarked]. done.
    + rewrite !decide_False by (by apply not_elem_of_dom).
      destruct (IH (S i) (<[NormalizedCRMRecord.OpportunityID record := i]> seen)
                  (unique ++ [record])%list h Hall)
        as (h' & Hrun & Hmarked).
      exists h'. rewrite dom_insert_L in Hrun, Hmarked.
      rewrite <-app_assoc in Hrun. done.
Qed.

(** On a batch whose keys are pairwise distinct the loop keeps every
    record and writes nothing. *)
Lemma dedupAdsFrom_distinct records : forall i (seen : gmap string nat) unique h,
  NoDup (adsKey <$> records) ->
  (forall r, r ∈ records -> adsKey r ∉ dom seen) ->
  dedupAdsFrom i records seen unique h = Some ((unique ++ records)%list, h).
Proof.
  induction records as [|record records IH]; intros i seen unique h Hnd Hnew; simpl.
  - by rewrite app_nil_r.
  - rewrite fmap_cons in Hnd. apply NoDup_cons in Hnd as [Hrec Hnd].
    assert (seen !! adsKey record = None) as ->.
    { apply not_elem_of_dom, Hnew. by left. }
    rewrite IH; [by rewrite <-app_assoc|done|].
    intros r Hr. rewrite dom_insert_L.
    intros [Hk%elem_of_singleton|Hk]%elem_of_union.
    + apply Hrec, list_elem_of_fmap. by exists r.
    + apply (Hnew r); [by right|done].
Qed.

Lemma dedupCRMFrom_distinct records : forall i (seen : gmap string nat) unique h,
  NoDup (NormalizedCRMRecord.OpportunityID <$> records) ->
  (forall r, r ∈ records -> NormalizedCRMRecord.OpportunityID r ∉ dom seen) ->
  dedupCRMFrom i records seen unique h = Some ((unique ++ records)%list, h).
Proof.
  induction records as [|record records IH]; intros i seen unique h Hnd Hnew; simpl.
  - by rewrite app_nil_r.
  - rewrite fmap_cons in Hnd. apply NoDup_cons in Hnd as [Hrec Hnd].
    assert (seen !! NormalizedCRMRecord.OpportunityID record = None) as ->.
    { apply not_elem_of_dom, Hnew. by left. }
    rewrite IH; [by rewrite <-app_assoc|done|].
    intros r Hr. rewrite dom_insert_L.
    intros [Hk%elem_of_singleton|Hk]%elem_of_union.
    + apply Hrec, list_elem_of_fmap. by exists r.
    + apply (Hnew r); [by right|done].
Qed.
End dedup_loop.

(** ** Deduplication of a batch *)

Section dedup_batch.
Import transformer.

Lemma deduplicateAdsRecords_spec records h :
  Forall (fun r => (ads_ref r < length h)%nat) records ->
  exists h',
    deduplicateAdsRecords records h
      = Some (pick records (first_indices adsKey ∅ 0 records), h') /\
    marked (ads_ref <$> drop_later adsKey ∅ records) h h'.
Proof.
  intros Hall. unfold deduplicateAdsRecords.
  destruct (dedupAdsFrom_spec records 0 ∅ [] h Hall) as (h' & Hrun & Hm).
  rewrite dom_empty_L in Hrun, Hm. simpl in Hrun.
  rewrite keep_first_pick in Hrun. by exists h'.
Qed.

Lemma deduplicateCRMRecords_spec records h :
  Forall (fun r => (crm_ref r < length h)%nat) records ->
  exists h',
    deduplicateCRMRecords records h
      = Some (pick records
                (first_indices NormalizedCRMRecord.OpportunityID ∅ 0 records), h') /\
    marked (crm_ref <$> drop_later NormalizedCRMRecord.OpportunityID ∅ records) h h'.
Proof.
  intros Hall. unfold deduplicateCRMRecords.
  destruct (dedupCRMFrom_spec records 0 ∅ [] h Hall) as (h' & Hrun & Hm).
  rewrite dom_empty_L in Hrun, Hm. simpl in Hrun.
  rewrite keep_first_pick in Hrun. by exists h'.
Qed.
End dedup_batch.

(** C3.  Deduplication keeps, for every business key, the earliest record
    and only that one, in input order: the output of the deduplicator is
    made of the records at the positions [idx] of its input, in increasing
    order, and a position is in [idx] exactly when no earlier record has
    the key of its record.  The key of an advertising record is its date
    as YYYY-MM-DD, its campaign id and its channel joined by a bar, that of
    a CRM record its opportunity id.  (The maps of the records are
    allocated, as those of normalised records are.) *)
Theorem dedup_first_occurrence_wins
    (ads : list NormalizedAdsRecord.t) (crm : list NormalizedCRMRecord.t) (h : heap) :
  Forall (fun r => (ads_ref r < length h)%nat) ads ->
  Forall (fun r => (crm_ref r < length h)%nat) crm ->
  (exists out h' idx,
      transformer.deduplicateAdsRecords ads h = Some (out, h') /\
      StronglySorted lt idx /\
      (forall i, i ∈ idx <->
         first_with_key
           (fun r => time.FormatDate (NormalizedAdsRecord.Date r) +:+ "|"
                       +:+ NormalizedAdsRecord.CampaignID r +:+ "|"
                       +:+ NormalizedAdsRecord.Channel r) ads i) /\
      out = pick ads idx) /\
  (exists out h' idx,
      transformer.deduplicateCRMRecords crm h = Some (out, h') /\
      StronglySorted lt idx /\
      (forall i, i ∈ idx <->
         first_with_key NormalizedCRMRecord.OpportunityID crm i) /\
      out = pick crm idx).
Proof.
  intros Hads Hcrm. split.
  - destruct (deduplicateAdsRecords_spec ads h Hads) as (h' & Hrun & _).
    exists (pick ads (first_indices transformer.adsKey ∅ 0 ads)), h',
      (first_indices transformer.adsKey ∅ 0 ads).
    split; [exact Hrun|]. split_and!.
    + apply first_indices_sorted.
    + intros i. apply (first_indices_first_with_key transformer.adsKey).
    + done.
  - destruct (deduplicateCRMRecords_spec crm h Hcrm) as (h' & Hrun & _).
    exists (pick crm (first_indices NormalizedCRMRecord.OpportunityID ∅ 0 crm)), h',
      (first_indices NormalizedCRMRecord.OpportunityID ∅ 0 crm).
    split; [exact Hrun|]. split_and!.
    + apply first_indices_sorted.
    + intros i. apply first_indices_first_with_key.
    + done.
Qed.

(** C8.  Deduplication is idempotent: run on its own output, in the heap
    the first run leaves, the deduplicator returns that output and leaves
    the heap as it is. *)
Theorem dedup_idempotent
    (ads : list NormalizedAdsRecord.t) (crm : list NormalizedCRMRecord.t) (h : heap) :
  Forall (fun r => (ads_ref r < length h)%nat) ads ->
  Forall (fun r => (crm_ref r < length h)%nat) crm ->
  (exists out h',
      transformer.deduplicateAdsRecords ads h = Some (out, h') /\
      transformer.deduplicateAdsRecords out h' = Some (out, h')) /\
  (exists out h',
      transformer.deduplicateCRMRecords crm h = Some (out, h') /\
      transformer.deduplicateCRMRecords out h' = Some (out, h')).
Proof.
  intros Hads Hcrm. split.
  - destruct (deduplicateAdsRecords_spec ads h Hads) as (h' & Hrun & _).
    eexists _, h'. split; [exact Hrun|].
    rewrite <-keep_first_pick. unfold transformer.deduplicateAdsRecords.
    rewrite dedupAdsFrom_distinct; [done|apply keep_first_NoDup|].
    intros r _. rewrite dom_empty_L. set_solver.
  - destruct (deduplicateCRMRecords_spec crm h Hcrm) as (h' & Hrun & _).
    eexists _, h'. split; [exact Hrun|].
    rewrite <-keep_first_pick. unfold transformer.deduplicateCRMRecords.
    rewrite dedupCRMFrom_distinct; [done|apply keep_first_NoDup|].
    intros r _. rewrite dom_empty_L. set_solver.
Qed.

(** ** From marked references to the maps of a batch *)

Lemma marked_settled {A} (key : A -> string) (ref : A -> mapref)
    (rs : list A) (h : heap) (ms : list fieldmap) (h2 : heap) :
  length rs = length ms ->
  (forall k r, rs !! k = Some r -> ref r = (length h + k)%nat) ->
  marked (ref <$> drop_later key ∅ rs) (h ++ ms) h2 ->
  exists ms', h2 = (h ++ ms')%list /\ settled (first_indices key ∅ 0 rs) ms ms'.
Proof.
  intros Hlen Href [Hl2 Hm].
  assert (forall k, (length h + k)%nat ∈ ref <$> drop_later key ∅ rs <->
                    (k < length rs)%nat /\ k ∉ first_indices key ∅ 0 rs) as Hin.
  { intros k. rewrite list_elem_of_fmap. split.
    - intros (x & Hx & (k' & Hk' & Hn)%(drop_later_spec key ∅ 0%nat)).
      rewrite (Href _ _ Hk') in Hx. assert (k = k') as -> by lia.
      split; [by eapply lookup_lt_Some|done].
    - intros [Hlt Hn]. destruct (lookup_lt_is_Some_2 rs k Hlt) as [x Hx].
      exists x. split; [by rewrite (Href _ _ Hx)|].
      apply (drop_later_spec key ∅ 0%nat). by exists k. }
  assert (forall l, (l < length h)%nat -> l ∉ ref <$> drop_later key ∅ rs) as Hlow.
  { intros l Hlt (x & Hx & (k' & Hk' & _)%(drop_later_spec key ∅ 0%nat))%list_elem_of_fmap.
    rewrite (Href _ _ Hk') in Hx. lia. }
  exists (drop (length h) h2). split.
  - rewrite <-(take_drop (length h) h2) at 1. f_equal.
    apply list_eq. intros i. destruct (decide (i < length h)%nat) as [Hi|Hi].
    + rewrite lookup_take_lt by done. destruct (Hm i) as [Hout _].
      rewrite Hout by (by apply Hlow). by rewrite lookup_app_l.
    + rewrite lookup_take_ge by lia. symmetry. apply lookup_ge_None. lia.
  - split.
    + rewrite length_drop, Hl2, length_app. lia.
    + intros k m Hk. rewrite lookup_drop.
      assert (k < length rs)%nat as Hlt.
      { rewrite Hlen. by eapply lookup_lt_Some. }
      assert ((h ++ ms) !! (length h + k)%nat = Some m) as Hhm.
      { by rewrite lookup_app_r, Nat.add_sub' by lia. }
      destruct (Hm (length h + k)%nat) as [Hout Hinn]. split.
      * intros Hidx. rewrite Hout; [done|]. rewrite Hin. tauto.
      * intros Hidx. destruct Hinn as (e & fq & He & Hv & Hh2); [by apply Hin|].
        exists fq. split; [done|]. rewrite Hh2. congruence.
Qed.

(** ** The two normalisers *)

Section pipeline.
Import transformer.

Lemma ads_batch_ref raws i0 (h : heap) rs ms :
  ads_batch raws i0 (length h) rs ms ->
  forall k r, rs !! k = Some r -> ads_ref r = (length h + k)%nat.
Proof.
  intros (Hlr & Hlm & Hall) k r Hk.
  destruct (lookup_lt_is_Some_2 raws k) as [raw Hraw].
  { rewrite <-Hlr. by eapply lookup_lt_Some. }
  destruct (Hall k raw Hraw) as (r' & m & Hr' & _ & Hn).
  assert (r' = r) as -> by congruence. apply Hn.
Qed.

Lemma crm_batch_ref raws i0 (h : heap) rs ms :
  crm_batch raws i0 (length h) rs ms ->
  forall k r, rs !! k = Some r -> crm_ref r = (length h + k)%nat.
Proof.
  intros (Hlr & Hlm & Hall) k r Hk.
  destruct (lookup_lt_is_Some_2 raws k) as [raw Hraw].
  { rewrite <-Hlr. by eapply lookup_lt_Some. }
  destruct (Hall k raw Hraw) as (r' & m & Hr' & _ & Hn).
  assert (r' = r) as -> by congruence. apply Hn.
Qed.

Lemma NormalizeAdsRecords_spec raws h :
  exists rs ms ms',
    normalizeAdsFrom 0 raws [] h = Some (rs, (h ++ ms)%list) /\
    ads_batch raws 0 (length h) rs ms /\
    deduplicateAdsRecords rs (h ++ ms)
      = Some (pick rs (first_indices adsKey ∅ 0 rs), (h ++ ms')%list) /\
    NormalizeAdsRecords raws h
      = Some (pick rs (first_indices adsKey ∅ 0 rs), (h ++ ms')%list) /\
    settled (first_indices adsKey ∅ 0 rs) ms ms'.
Proof.
  destruct (normalizeAdsFrom_spec raws 0 [] h) as (rs & ms & Hnorm & Hbatch).
  simpl in Hnorm.
  pose proof (ads_batch_ref _ _ _ _ _ Hbatch) as Href.
  destruct (deduplicateAdsRecords_spec rs (h ++ ms)) as (h2 & Hrun & Hmarked).
  { apply Forall_forall. intros r [k Hk]%list_elem_of_lookup.
    rewrite (Href _ _ Hk), length_app.
    apply lookup_lt_Some in Hk. destruct Hbatch as (? & ? & _). lia. }
  destruct (marked_settled adsKey ads_ref rs h ms h2) as (ms' & -> & Hsettled);
    [destruct Hbatch as (? & ? & _); lia|done|done|].
  exists rs, ms, ms'. split_and!; try done.
  unfold NormalizeAdsRecords, mbind, M_bind. by rewrite Hnorm.
Qed.

Lemma NormalizeCRMRecords_spec raws h :
  exists rs ms ms',
    normalizeCRMFrom 0 raws [] h = Some (rs, (h ++ ms)%list) /\
    crm_batch raws 0 (length h) rs ms /\
    deduplicateCRMRecords rs (h ++ ms)
      = Some (pick rs (first_indices NormalizedCRMRecord.OpportunityID ∅ 0 rs),
              (h ++ ms')%list) /\
    NormalizeCRMRecords raws h
      = Some (pick rs (first_indices NormalizedCRMRecord.OpportunityID ∅ 0 rs),
              (h ++ ms')%list) /\
    settled (first_indices NormalizedCRMRecord.OpportunityID ∅ 0 rs) ms ms'.
Proof.
  destruct (normalizeCRMFrom_spec raws 0 [] h) as (rs & ms & Hnorm & Hbatch).
  simpl in Hnorm.
  pose proof (crm_batch_ref _ _ _ _ _ Hbatch) as Href.
  destruct (deduplicateCRMRecords_spec rs (h ++ ms)) as (h2 & Hrun & Hmarked).
  { apply Forall_forall. intros r [k Hk]%list_elem_of_lookup.
    rewrite (Href _ _ Hk), length_app.
    apply lookup_lt_Some in Hk. destruct Hbatch as (? & ? & _). lia. }
  destruct (marked_settled NormalizedCRMRecord.OpportunityID crm_ref rs h ms h2)
    as (ms' & -> & Hsettled);
    [destruct Hbatch as (? & ? & _); lia|done|done|].
  exists rs, ms, ms'. split_and!; try done.
  unfold NormalizeCRMRecords, mbind, M_bind. by rewrite Hnorm.
Qed.
End pipeline.

(** ** Records of a batch, by position *)

Lemma ads_batch_lookup raws i0 ref0 rs ms k r :
  ads_batch raws i0 ref0 rs ms -> rs !! k = Some r ->
  exists raw m, raws !! k = Some raw /\ ms !! k = Some m /\
    ads_normal raw (i0 + k)%nat (ref0 + k)%nat r m.
Proof.
  intros (Hlr & Hlm & Hall) Hk.
  destruct (lookup_lt_is_Some_2 raws k) as [raw Hraw].
  { rewrite <-Hlr. by eapply lookup_lt_Some. }
  destruct (Hall k raw Hraw) as (r' & m & Hr' & Hm & Hn).
  assert (r' = r) as -> by congruence. by exists raw, m.
Qed.

Lemma crm_batch_lookup raws i0 ref0 rs ms k r :
  crm_batch raws i0 ref0 rs ms -> rs !! k = Some r ->
  exists raw m, raws !! k = Some raw /\ ms !! k = Some m /\
    crm_normal raw (i0 + k)%nat (ref0 + k)%nat r m.
Proof.
  intros (Hlr & Hlm & Hall) Hk.
  destruct (lookup_lt_is_Some_2 raws k) as [raw Hraw].
  { rewrite <-Hlr. by eapply lookup_lt_Some. }
  destruct (Hall k raw Hraw) as (r' & m & Hr' & Hm & Hn).
  assert (r' = r) as -> by congruence. by exists raw, m.
Qed.

(** The records of a batch have pairwise distinct maps, so a record is among
    those picked exactly when its position is. *)
Lemma pick_position {A} (ref : A -> mapref) (rs : list A) (n0 : nat) idx k r :
  (forall k r, rs !! k = Some r -> ref r = (n0 + k)%nat) ->
  rs !! k = Some r ->
  r ∈ pick rs idx <-> k ∈ idx.
Proof.
  intros Href Hk. rewrite pick_elem. split.
  - intros (k' & Hin & Hk').
    assert (k' = k) as <-; [|done].
    pose proof (Href _ _ Hk). pose proof (Href _ _ Hk'). lia.
  - intros Hin. by exists k.
Qed.

Lemma map_load_app_r (h : heap) (ms : list fieldmap) k m :
  ms !! k = Some m -> map_load (h ++ ms) (length h + k) = m.
Proof.
  intros Hk. unfold map_load. by rewrite lookup_app_r, Nat.add_sub', Hk by lia.
Qed.

Lemma map_load_app_l (h : heap) (ms : list fieldmap) l :
  (l < length h)%nat -> map_load (h ++ ms) l = map_load h l.
Proof. intros Hl. unfold map_load. by rewrite lookup_app_l. Qed.

(** C5.  In the batches the two normalisers return, a record is valid exactly
    when its error count is zero. *)
Theorem valid_iff_no_error
    (ads : list AdsRecord.t) (crm : list CRMRecord.t) (h : heap) :
  (exists out h',
      transformer.NormalizeAdsRecords ads h = Some (out, h') /\
      forall r, r ∈ out ->
        RecordQuality.IsValid (NormalizedAdsRecord.Quality r) = true
        <-> RecordQuality.ErrorCount (NormalizedAdsRecord.Quality r) = 0) /\
  (exists out h',
      transformer.NormalizeCRMRecords crm h = Some (out, h') /\
      forall r, r ∈ out ->
        RecordQuality.IsValid (NormalizedCRMRecord.Quality r) = true
        <-> RecordQuality.ErrorCount (NormalizedCRMRecord.Quality r) = 0).
Proof.
  split.
  - destruct (NormalizeAdsRecords_spec ads h)
      as (rs & ms & ms' & _ & Hbatch & _ & Hrun & _).
    eexists _, _. split; [exact Hrun|].
    intros r (k & _ & Hk)%pick_elem.
    destruct (ads_batch_lookup _ _ _ _ _ _ _ Hbatch Hk) as (raw & m & _ & _ & Hn).
    rewrite (an_valid _ _ _ _ _ Hn). apply Z.eqb_eq.
  - destruct (NormalizeCRMRecords_spec crm h)
      as (rs & ms & ms' & _ & Hbatch & _ & Hrun & _).
    eexists _, _. split; [exact Hrun|].
    intros r (k & _ & Hk)%pick_elem.
    destruct (crm_batch_lookup _ _ _ _ _ _ _ Hbatch Hk) as (raw & m & _ & _ & Hn).
    rewrite (cn_valid _ _ _ _ _ Hn). apply Z.eqb_eq.
Qed.

(** ** The copy the deduplicator marks *)

Lemma markDuplicateAds_result record existingIndex key h record' h' :
  transformer.markDuplicateAds record existingIndex key h = Some (record', h') ->
  NormalizedAdsRecord.Quality record'
  = RecordQuality.mk
      (RecordQuality.RecordID (NormalizedAdsRecord.Quality record)) false
      (ads_ref record)
      (incr (RecordQuality.ErrorCount (NormalizedAdsRecord.Quality record))).
Proof.
  unfold transformer.markDuplicateAds, mbind, M_bind, mret, M_ret.
  destruct (map_store _ _ _ h) as [[[] h1]|]; [|done].
  intros [= <- <-]. done.
Qed.

Lemma markDuplicateCRM_result record existingIndex h record' h' :
  transformer.markDuplicateCRM record existingIndex h = Some (record', h') ->
  NormalizedCRMRecord.Quality record'
  = RecordQuality.mk
      (RecordQuality.RecordID (NormalizedCRMRecord.Quality record)) false
      (crm_ref record)
      (incr (RecordQuality.ErrorCount (NormalizedCRMRecord.Quality record))).
Proof.
  unfold transformer.markDuplicateCRM, mbind, M_bind, mret, M_ret.
  destruct (map_store _ _ _ h) as [[[] h1]|]; [|done].
  intros [= <- <-]. done.
Qed.

Lemma count_invalid_duplicate fields (m : fieldmap) fq :
  dom m = list_to_set fields -> "duplicate" ∉ fields ->
  FieldQuality.IsValid fq = false ->
  count_invalid (<["duplicate" := fq]> m) = S (count_invalid m).
Proof.
  intros Hdom Hnot Hfq. rewrite count_invalid_insert, Hfq; [done|].
  apply not_elem_of_dom. by rewrite Hdom, elem_of_list_to_set.
Qed.

Lemma count_invalid_le_size (m : fieldmap) : (count_invalid m <= size m)%nat.
Proof. unfold count_invalid. apply map_subseteq_size, map_filter_subseteq. Qed.

Lemma size_dom_list (m : fieldmap) fields :
  dom m = list_to_set fields -> (size m <= length fields)%nat.
Proof.
  intros Hdom. rewrite <-size_dom, Hdom. clear Hdom.
  induction fields as [|f fields IH].
  - by rewrite list_to_set_nil, size_empty.
  - rewrite list_to_set_cons, size_union_alt, size_singleton.
    assert (size (list_to_set fields ∖ {[f]} : gset string)
            <= size (list_to_set fields : gset string))%nat
      by (apply subseteq_size; set_solver).
    simpl. lia.
Qed.

(** C9.  For every record the normalisers return, the [FieldErrors] map
    holds one verdict for each field validated, under the name of the field,
    and [ErrorCount] is the number of failed verdicts in it.  For a record
    they drop, the copy the deduplicator marks has its flag lowered and its
    counter incremented once, and the incremented counter is again the number
    of failed verdicts of its map, which has received the "duplicate"
    verdict. *)
Theorem error_count_counts_failures
    (ads : list AdsRecord.t) (crm : list CRMRecord.t) (h : heap) :
  (exists rs h1 out h2,
      transformer.normalizeAdsFrom 0 ads [] h = Some (rs, h1) /\
      transformer.deduplicateAdsRecords rs h1 = Some (out, h2) /\
      transformer.NormalizeAdsRecords ads h = Some (out, h2) /\
      (forall r, r ∈ out ->
         dom (map_load h2 (ads_ref r)) = list_to_set ads_fields /\
         RecordQuality.ErrorCount (NormalizedAdsRecord.Quality r)
         = Z.of_nat (count_invalid (map_load h2 (ads_ref r)))) /\
      (forall r, r ∈ rs -> r ∉ out ->
         incr (RecordQuality.ErrorCount (NormalizedAdsRecord.Quality r))
         = Z.of_nat (count_invalid (map_load h2 (ads_ref r))))) /\
  (exists rs h1 out h2,
      transformer.normalizeCRMFrom 0 crm [] h = Some (rs, h1) /\
      transformer.deduplicateCRMRecords rs h1 = Some (out, h2) /\
      transformer.NormalizeCRMRecords crm h = Some (out, h2) /\
      (forall r, r ∈ out ->
         dom (map_load h2 (crm_ref r)) = list_to_set crm_fields /\
         RecordQuality.ErrorCount (NormalizedCRMRecord.Quality r)
         = Z.of_nat (count_invalid (map_load h2 (crm_ref r)))) /\
      (forall r, r ∈ rs -> r ∉ out ->
         incr (RecordQuality.ErrorCount (NormalizedCRMRecord.Quality r))
         = Z.of_nat (count_invalid (map_load h2 (crm_ref r))))) /\
  (forall record existingIndex key h0 record' h',
      transformer.markDuplicateAds record existingIndex key h0 = Some (record', h') ->
      RecordQuality.ErrorCount (NormalizedAdsRecord.Quality record')
      = incr (RecordQuality.ErrorCount (NormalizedAdsRecord.Quality record)) /\
      RecordQuality.IsValid (NormalizedAdsRecord.Quality record') = false /\
      ads_ref record' = ads_ref record) /\
  (forall record existingIndex h0 record' h',
      transformer.markDuplicateCRM record existingIndex h0 = Some (record', h') ->
      RecordQuality.ErrorCount (NormalizedCRMRecord.Quality record')
      = incr (RecordQuality.ErrorCount (NormalizedCRMRecord.Quality record)) /\
      RecordQuality.IsValid (NormalizedCRMRecord.Quality record') = false /\
      crm_ref record' = crm_ref record).
Proof.
  split_and!.
  - destruct (NormalizeAdsRecords_spec ads h)
      as (rs & ms & ms' & Hnorm & Hbatch & Hdedup & Hrun & Hlen & Hset).
    pose proof (ads_batch_ref _ _ _ _ _ Hbatch) as Href.
    eexists rs, _, _, _. split_and!; [exact Hnorm|exact Hdedup|exact Hrun| |].
    + intros r Hr. pose proof Hr as (k & Hidx & Hk)%pick_elem.
      destruct (ads_batch_lookup _ _ _ _ _ _ _ Hbatch Hk) as (raw & m & _ & Hm & Hn).
      destruct (Hset k m Hm) as [Hkeep _].
      rewrite (Href _ _ Hk), (map_load_app_r _ _ _ _ (Hkeep Hidx)).
      split; apply Hn.
    + intros r [k Hk]%list_elem_of_lookup Hout.
      destruct (ads_batch_lookup _ _ _ _ _ _ _ Hbatch Hk) as (raw & m & _ & Hm & Hn).
      destruct (Hset k m Hm) as [_ Hdrop].
      destruct Hdrop as (fq & Hfq & Hm').
      { intros Hidx. apply Hout. by apply (pick_position ads_ref rs (length h) _ k). }
      rewrite (Href _ _ Hk), (map_load_app_r _ _ _ _ Hm').
      rewrite (count_invalid_duplicate ads_fields) by
        (first [apply Hn | done | apply (bool_decide_unpack _); vm_compute; exact I]).
      rewrite (an_count _ _ _ _ _ Hn).
      pose proof (count_invalid_le_size m).
      pose proof (size_dom_list m ads_fields (an_dom _ _ _ _ _ Hn)). simpl in *.
      rewrite incr_small; lia.
  - destruct (NormalizeCRMRecords_spec crm h)
      as (rs & ms & ms' & Hnorm & Hbatch & Hdedup & Hrun & Hlen & Hset).
    pose proof (crm_batch_ref _ _ _ _ _ Hbatch) as Href.
    eexists rs, _, _, _. split_and!; [exact Hnorm|exact Hdedup|exact Hrun| |].
    + intros r Hr. pose proof Hr as (k & Hidx & Hk)%pick_elem.
      destruct (crm_batch_lookup _ _ _ _ _ _ _ Hbatch Hk) as (raw & m & _ & Hm & Hn).
      destruct (Hset k m Hm) as [Hkeep _].
      rewrite (Href _ _ Hk), (map_load_app_r _ _ _ _ (Hkeep Hidx)).
      split; apply Hn.
    + intros r [k Hk]%list_elem_of_lookup Hout.
      destruct (crm_batch_lookup _ _ _ _ _ _ _ Hbatch Hk) as (raw & m & _ & Hm & Hn).
      destruct (Hset k m Hm) as [_ Hdrop].
      destruct Hdrop as (fq & Hfq & Hm').
      { intros Hidx. apply Hout. by apply (pick_position crm_ref rs (length h) _ k). }
      rewrite (Href _ _ Hk), (map_load_app_r _ _ _ _ Hm').
      rewrite (count_invalid_duplicate crm_fields) by
        (first [apply Hn | done | apply (bool_decide_unpack _); vm_compute; exact I]).
      rewrite (cn_count _ _ _ _ _ Hn).
      pose proof (count_invalid_le_size m).
      pose proof (size_dom_list m crm_fields (cn_dom _ _ _ _ _ Hn)). simpl in *.
      rewrite incr_small; lia.
  - intros record existingIndex key h0 record' h' Hmark.
    unfold ads_ref at 1. by rewrite (markDuplicateAds_result _ _ _ _ _ _ Hmark).
  - intros record existingIndex h0 record' h' Hmark.
    unfold crm_ref at 1. by rewrite (markDuplicateCRM_result _ _ _ _ _ Hmark).
Qed.

(** ** Strings without a bar *)

Lemma bar_free_app a b : bar_free (a +:+ b) = bar_free a && bar_free b.
Proof.
  induction a as [|c a IH]; simpl; [done|].
  rewrite IH. by rewrite andb_assoc.
Qed.

(** Two texts joined by a bar are told apart by the first bar when the
    left ones have none. *)
Lemma bar_join_inj a a' b b' :
  bar_free a = true -> bar_free a' = true ->
  a +:+ "|" +:+ b = a' +:+ "|" +:+ b' -> a = a' /\ b = b'.
Proof.
  revert a'. induction a as [|c a IH]; intros [|c' a'] Ha Ha' Heq; simpl in *.
  - injection Heq as Hb. by subst.
  - injection Heq as Hc _. subst c'. by rewrite bool_decide_eq_true_2 in Ha'.
  - injection Heq as Hc _. subst c. by rewrite bool_decide_eq_true_2 in Ha.
  - injection Heq as Hc Heq. subst c'.
    apply andb_prop in Ha as [_ Ha]. apply andb_prop in Ha' as [_ Ha'].
    destruct (IH a' Ha Ha' Heq) as [Ha1 Hb1]. by subst.
Qed.

Lemma bar_free_pretty_N_go x s :
  bar_free s = true -> bar_free (pretty_N_go x s) = true.
Proof.
  revert s. induction (N.lt_wf_0 x) as [x _ IH]; intros s Hs.
  assert (x = 0 \/ 0 < x)%N as [->|Hpos] by lia.
  - by rewrite pretty_N_go_0.
  - rewrite pretty_N_go_step by done. apply IH.
    { by apply N.div_lt. }
    simpl. rewrite Hs. unfold pretty_N_char. by repeat case_match.
Qed.

Lemma bar_free_pretty_N (x : N) : bar_free (pretty x) = true.
Proof.
  unfold pretty, pretty_N. case_decide; [done|].
  by apply bar_free_pretty_N_go.
Qed.

Lemma bar_free_zeros n : bar_free (time.zeros n) = true.
Proof. induction n as [|n IH]; simpl; [done|]. by rewrite IH. Qed.

Lemma bar_free_appendInt x width : bar_free (time.appendInt x width) = true.
Proof.
  unfold time.appendInt.
  rewrite !bar_free_app, bar_free_zeros, bar_free_pretty_N.
  by destruct (x <? 0).
Qed.

Lemma bar_free_FormatDate t : bar_free (time.FormatDate t) = true.
Proof.
  unfold time.FormatDate. by rewrite !bar_free_app, !bar_free_appendInt.
Qed.

(** ** Grouping *)

Section grouping.
Import metrics.

Lemma group_key_eq r r' :
  group_key r = group_key r' <->
  time.FormatDate (NormalizedAdsRecord.Date r) = time.FormatDate (NormalizedAdsRecord.Date r')
  /\ NormalizedAdsRecord.Channel r = NormalizedAdsRecord.Channel r'.
Proof.
  unfold group_key. split.
  - apply bar_join_inj; apply bar_free_FormatDate.
  - by intros [-> ->].
Qed.

Lemma group_step_selected channel m r :
  channel = "" \/ NormalizedAdsRecord.Channel r = channel ->
  group_step channel m r
  = <[group_key r := (default [] (m !! group_key r) ++ [r])%list]> m.
Proof.
  intros Hsel. unfold group_step.
  destruct Hsel as [?|?]; [by rewrite bool_decide_eq_true_2|].
  rewrite (bool_decide_eq_true_2 (NormalizedAdsRecord.Channel r = channel)) by done.
  by rewrite orb_true_r.
Qed.

Lemma group_step_skipped channel m r :
  ~ (channel = "" \/ NormalizedAdsRecord.Channel r = channel) ->
  group_step channel m r = m.
Proof.
  intros Hsel. unfold group_step.
  rewrite !bool_decide_eq_false_2 by tauto. done.
Qed.

Lemma group_ads_from_lookup channel ads : forall m key,
  foldl (group_step channel) m ads !! key =
    match filter (fun r => group_key r = key) (selected channel ads) with
    | [] => m !! key
    | extra => Some (default [] (m !! key) ++ extra)%list
    end.
Proof.
  unfold selected.
  induction ads as [|r ads IH]; intros m key; simpl; [done|].
  rewrite IH.
  destruct (decide (channel = "" \/ NormalizedAdsRecord.Channel r = channel)) as [Hsel|Hsel].
  - rewrite (filter_cons_True _ r) by done.
    rewrite group_step_selected by done.
    destruct (decide (group_key r = key)) as [Hk|Hk].
    + rewrite (filter_cons_True _ r) by done. subst key.
      rewrite lookup_insert_eq. simpl.
      destruct (filter _ (filter _ ads)); simpl; [done|].
      by rewrite <-app_assoc.
    + rewrite (filter_cons_False _ r) by done.
      by rewrite lookup_insert_ne.
  - rewrite (filter_cons_False _ r) by done.
    by rewrite group_step_skipped.
Qed.

Lemma group_ads_lookup channel ads key :
  group_ads channel ads !! key =
    match filter (fun r => group_key r = key) (selected channel ads) with
    | [] => None
    | g => Some g
    end.
Proof.
  unfold group_ads. rewrite group_ads_from_lookup, lookup_empty.
  by destruct (filter _ _).
Qed.

(** A group of the map is the group of the date and channel of its first
    record. *)
Lemma group_ads_group channel ads key g :
  group_ads channel ads !! key = Some g ->
  exists first rest,
    g = first :: rest /\ key = group_key first /\
    g = ads_group channel (time.FormatDate (NormalizedAdsRecord.Date first))
          (NormalizedAdsRecord.Channel first) ads.
Proof.
  rewrite group_ads_lookup.
  destruct (filter _ _) as [|first rest] eqn:Hg; [done|].
  intros [= <-]. exists first, rest.
  assert (first ∈ filter (fun r => group_key r = key) (selected channel ads)) as Hin
    by (rewrite Hg; by left).
  apply list_elem_of_filter in Hin as [Hkey _].
  split_and!; [done|done|]. rewrite <-Hg. unfold ads_group.
  apply list_filter_iff. intros r. rewrite <-Hkey. apply group_key_eq.
Qed.
End grouping.

(** ** The metrics of one group *)

Section group_metrics.
Import metrics.

Lemma ads_totals_keys g : forall a x,
  x ∈ utmKeys (foldl ads_step a g) <->
  x ∈ utmKeys a \/ x ∈ NormalizedAdsRecord.UTMKey <$> g.
Proof.
  induction g as [|r g IH]; intros a x; simpl.
  - rewrite elem_of_nil. tauto.
  - rewrite IH. simpl. rewrite elem_of_union, elem_of_singleton, elem_of_cons. tauto.
Qed.

Lemma crm_step_counted group date keys t c :
  (forall x, x ∈ keys <-> x ∈ NormalizedAdsRecord.UTMKey <$> group) ->
  crm_step date keys t c =
    if decide (counted group date c) then
      let stage := NormalizedCRMRecord.Stage c in
      if decide (stage = "lead") then
        CrmTally (incr (leads t)) (opportunities t) (closedWon t) (revenue t)
      else if decide (stage = "opportunity") then
        CrmTally (leads t) (incr (opportunities t)) (closedWon t) (revenue t)
      else if decide (stage = "closed_won") then
        CrmTally (leads t) (opportunities t) (incr (closedWon t))
                 (Float64.add (revenue t) (NormalizedCRMRecord.Amount c))
      else if decide (stage = "closed_lost") then
        CrmTally (leads t) (incr (opportunities t)) (closedWon t) (revenue t)
      else t
    else t.
Proof.
  intros Hkeys. unfold crm_step, counted.
  destruct (decide (_ /\ _)) as [[Hd Hk]|Hn].
  - rewrite (bool_decide_eq_true_2 _ Hd).
    rewrite bool_decide_eq_true_2 by (by apply Hkeys). simpl.
    repeat (case_decide;
            [rewrite bool_decide_eq_true_2 by done; done
            |rewrite bool_decide_eq_false_2 by done]).
    done.
  - destruct (decide (time.FormatDate (NormalizedCRMRecord.CreatedAt c) = date)) as [Hd|Hd].
    + rewrite (bool_decide_eq_true_2 _ Hd).
      rewrite bool_decide_eq_false_2; [done|].
      intros Hk. apply Hn. split; [done|by apply Hkeys].
    + by rewrite (bool_decide_eq_false_2 _ Hd).
Qed.

Ltac step_filters :=
  repeat first
    [ rewrite filter_cons_True by (split; [assumption|congruence])
    | rewrite filter_cons_False by (intros [? ?]; congruence) ].

Lemma crm_fold group date keys :
  (forall x, x ∈ keys <-> x ∈ NormalizedAdsRecord.UTMKey <$> group) ->
  forall crm t,
    0 <= leads t -> 0 <= opportunities t -> 0 <= closedWon t ->
    leads t + Z.of_nat (length crm) < 2 ^ 63 ->
    opportunities t + Z.of_nat (length crm) < 2 ^ 63 ->
    closedWon t + Z.of_nat (length crm) < 2 ^ 63 ->
    let t' := foldl (crm_step date keys) t crm in
    leads t' = leads t + count_stage group date "lead" crm /\
    opportunities t' = opportunities t + count_stage group date "opportunity" crm
                       + count_stage group date "closed_lost" crm /\
    closedWon t' = closedWon t + count_stage group date "closed_won" crm /\
    revenue t' = foldl Float64.add (revenue t)
                   (NormalizedCRMRecord.Amount <$>
                      filter (fun c => counted group date c
                                       /\ NormalizedCRMRecord.Stage c = "closed_won") crm).
Proof.
  intros Hkeys. unfold count_stage.
  induction crm as [|c crm IH]; intros t Hl Ho Hw Bl Bo Bw; simpl.
  - rewrite !Z.add_0_r. done.
  - simpl in Bl, Bo, Bw.
    rewrite (crm_step_counted group date keys t c Hkeys).
    destruct (decide (counted group date c)) as [Hc|Hc]; simpl.
    + repeat case_decide; step_filters; simpl;
        match goal with
        | |- context [foldl (crm_step date keys) ?t' crm] =>
            destruct (IH t') as (E1 & E2 & E3 & E4);
            [simpl; rewrite ?incr_small by lia; lia ..|];
            rewrite E1, E2, E3, E4; simpl; rewrite ?incr_small by lia;
            split_and!; try done; lia
        end.
    + rewrite !filter_cons_False by tauto. apply IH; lia.
Qed.
End group_metrics.

Section channel_rows.
Import metrics.

Lemma count_stage_le group date crm :
  0 <= count_stage group date "lead" crm /\
  0 <= count_stage group date "opportunity" crm /\
  0 <= count_stage group date "closed_lost" crm /\
  0 <= count_stage group date "closed_won" crm /\
  count_stage group date "opportunity" crm + count_stage group date "closed_lost" crm
    + count_stage group date "closed_won" crm <= Z.of_nat (length crm) /\
  count_stage group date "lead" crm <= Z.of_nat (length crm).
Proof.
  unfold count_stage. split_and!; try lia.
  - induction crm as [|c crm IH]; simpl; [lia|].
    destruct (decide (counted group date c)) as [Hc|Hc].
    + destruct (decide (NormalizedCRMRecord.Stage c = "opportunity"));
        [|destruct (decide (NormalizedCRMRecord.Stage c = "closed_lost"));
          [|destruct (decide (NormalizedCRMRecord.Stage c = "closed_won"))]];
        repeat first
          [ rewrite filter_cons_True by (split; [assumption|congruence])
          | rewrite filter_cons_False by (intros [? ?]; congruence) ];
        simpl; lia.
    + rewrite !filter_cons_False by tauto. lia.
  - pose proof (length_filter
      (fun c => counted group date c /\ NormalizedCRMRecord.Stage c = "lead") crm).
    lia.
Qed.

Lemma group_metrics_spec crm first rest :
  Z.of_nat (length crm) < 2 ^ 63 ->
  exists row,
    let g := first :: rest in
    let date := time.FormatDate (NormalizedAdsRecord.Date first) in
    group_metrics crm g = Some row /\
    ChannelMetrics.Date row = date /\
    ChannelMetrics.Channel row = NormalizedAdsRecord.Channel first /\
    ChannelMetrics.Leads row = count_stage g date "lead" crm /\
    ChannelMetrics.ClosedWon row = count_stage g date "closed_won" crm /\
    ChannelMetrics.Opportunities row
      = (count_stage g date "opportunity" crm + count_stage g date "closed_lost" crm)
        + count_stage g date "closed_won" crm /\
    ChannelMetrics.Revenue row = revenue_of g date crm.
Proof.
  intros Hlen. eexists. cbv zeta. split; [reflexivity|]. cbn [ChannelMetrics.Date
    ChannelMetrics.Channel ChannelMetrics.Leads ChannelMetrics.ClosedWon
    ChannelMetrics.Opportunities ChannelMetrics.Revenue].
  set (g := first :: rest).
  set (date := time.FormatDate (NormalizedAdsRecord.Date first)).
  set (a := foldl ads_step (AdsTotals 0 0 Float64.zero ∅) g).
  destruct (crm_fold g date (utmKeys a)) with (crm := crm) (t := CrmTally 0 0 0 Float64.zero)
    as (El & Eo & Ew & Er); simpl; try lia.
  { intros x. unfold a. rewrite ads_totals_keys. simpl. set_solver. }
  pose proof (count_stage_le g date crm) as (? & ? & ? & ? & ? & ?).
  simpl in El, Eo, Ew, Er.
  split_and!; try done.
  rewrite Eo, Ew. apply wrap64_small. lia.
Qed.

Lemma rows_keys crm (l : list (string * list NormalizedAdsRecord.t)) :
  Z.of_nat (length crm) < 2 ^ 63 ->
  (forall key g, (key, g) ∈ l -> exists first rest,
      g = first :: rest /\ key = group_key first) ->
  (fun row => ChannelMetrics.Date row +:+ "|" +:+ ChannelMetrics.Channel row)
    <$> omap (fun kg => group_metrics crm kg.2) l
  = l.*1.
Proof.
  intros Hlen. induction l as [|[key g] l IH]; intros Hall; [done|].
  destruct (Hall key g) as (first & rest & -> & ->); [by left|].
  destruct (group_metrics_spec crm first rest Hlen) as (row & Hrow & Hd & Hc & _).
  cbn [omap list_omap snd]. rewrite Hrow. cbn [fmap list_fmap fst].
  rewrite Hd, Hc. f_equal. apply IH. intros key g Hin. apply Hall. by right.
Qed.
End channel_rows.

(** C2.  [CalculateChannelMetrics] returns one row for each non-empty group
    of the (selected) advertising records sharing a date and a channel.  In
    the row of a group the CRM records counted are exactly those created on
    the date of the group whose key is the key of a record of the group:
    [Leads] is the number of them at stage "lead", [ClosedWon] the number at
    stage "closed_won", [Revenue] the sum of the amounts of the latter, and
    [Opportunities] the raw tally (stages "opportunity" and "closed_lost")
    plus [ClosedWon]. *)
Theorem channel_metrics_join
    (ads : list NormalizedAdsRecord.t) (crm : list NormalizedCRMRecord.t)
    (channel : string) :
  Z.of_nat (length crm) < 2 ^ 63 ->
  let rows := metrics.CalculateChannelMetrics ads crm channel in
  (forall row, row ∈ rows ->
     let date := ChannelMetrics.Date row in
     let g := ads_group channel date (ChannelMetrics.Channel row) ads in
     g <> [] /\
     ChannelMetrics.Leads row = count_stage g date "lead" crm /\
     ChannelMetrics.ClosedWon row = count_stage g date "closed_won" crm /\
     ChannelMetrics.Opportunities row
       = (count_stage g date "opportunity" crm + count_stage g date "closed_lost" crm)
         + ChannelMetrics.ClosedWon row /\
     ChannelMetrics.Revenue row = revenue_of g date crm) /\
  (forall date chan, ads_group channel date chan ads <> [] ->
     exists row, row ∈ rows /\ ChannelMetrics.Date row = date
                 /\ ChannelMetrics.Channel row = chan) /\
  NoDup ((fun row => (ChannelMetrics.Date row, ChannelMetrics.Channel row)) <$> rows).
Proof.
  intros Hlen rows. subst rows. unfold metrics.CalculateChannelMetrics.
  set (groups := metrics.group_ads channel ads).
  assert (forall key g, (key, g) ∈ map_to_list groups -> exists first rest,
            g = first :: rest /\ key = metrics.group_key first /\
            g = ads_group channel (time.FormatDate (NormalizedAdsRecord.Date first))
                  (NormalizedAdsRecord.Channel first) ads) as Hgroups.
  { intros key g Hin%elem_of_map_to_list. by apply group_ads_group. }
  split_and!.
  - intros row ([key g] & Hin & Hrow)%list_elem_of_omap. simpl in Hrow.
    destruct (Hgroups key g Hin) as (first & rest & Hg & _ & Hgroup).
    destruct (group_metrics_spec crm first rest Hlen)
      as (row' & Hrow' & Hd & Hc & Hl & Hw & Ho & Hr).
    rewrite Hg, Hrow' in Hrow. injection Hrow as <-.
    cbv zeta. rewrite Hd, Hc, <-Hgroup, Hg. split_and!; try done.
    by rewrite Hw.
  - intros date chan Hne.
    destruct (ads_group channel date chan ads) as [|a g'] eqn:Hg; [done|].
    assert (a ∈ ads_group channel date chan ads) as Ha by (rewrite Hg; by left).
    apply list_elem_of_filter in Ha as [[Hd Hc] Hsel].
    pose proof (group_ads_lookup channel ads (metrics.group_key a)) as Hlook.
    destruct (filter _ (selected channel ads)) as [|first rest] eqn:Hf.
    { exfalso. eapply (not_elem_of_nil a). rewrite <-Hf.
      apply list_elem_of_filter. done. }
    assert (first ∈ filter (fun r => metrics.group_key r = metrics.group_key a)
                      (selected channel ads)) as Hfirst by (rewrite Hf; by left).
    apply list_elem_of_filter in Hfirst as [Hkey _].
    apply group_key_eq in Hkey as [Hkd Hkc].
    destruct (group_metrics_spec crm first rest Hlen) as (row & Hrow & Hrd & Hrc & _).
    exists row. split_and!; [|congruence|congruence].
    apply list_elem_of_omap. exists (metrics.group_key a, first :: rest).
    split; [|done]. by apply elem_of_map_to_list.
  - eapply (NoDup_fmap_1 (fun p : string * string => p.1 +:+ "|" +:+ p.2)).
    rewrite <-list_fmap_compose. unfold compose. simpl.
    rewrite rows_keys; [apply NoDup_fst_map_to_list|done|].
    intros key g Hin. destruct (Hgroups key g Hin) as (first & rest & ? & ? & _).
    by exists first, rest.
Qed.

(** ** Trimming and splitting *)

Lemma trimLeft_suffix table s :
  exists p, s = p +:+ strings.trimLeft table s.
Proof.
  remember (String.length s) as n eqn:Hn.
  revert s Hn. induction (lt_wf n) as [n _ IH]; intros s Hn.
  destruct s as [|c r1]; [by exists ""|].
  cbn [strings.trimLeft].
  destruct (strings.space_width table (String c r1)) as [|[|[|w]]].
  - by exists "".
  - destruct (IH (String.length r1)) with (s := r1) as [p Hp]; [simpl in Hn; lia|done|].
    exists (String c p). rewrite Hp at 1. reflexivity.
  - destruct r1 as [|c2 r2]; [by exists ""|].
    destruct (IH (String.length r2)) with (s := r2) as [p Hp]; [simpl in Hn; lia|done|].
    exists (String c (String c2 p)). rewrite Hp at 1. reflexivity.
  - destruct r1 as [|c2 [|c3 r3]]; [by exists ""|by exists ""|].
    destruct (IH (String.length r3)) with (s := r3) as [p Hp]; [simpl in Hn; lia|done|].
    exists (String c (String c2 (String c3 p))). rewrite Hp at 1. reflexivity.
Qed.

Lemma bar_free_trimLeft table s :
  bar_free s = true -> bar_free (strings.trimLeft table s) = true.
Proof.
  destruct (trimLeft_suffix table s) as [p Hp]. rewrite Hp at 1.
  rewrite bar_free_app. by intros [_ ?]%andb_prop.
Qed.

Lemma bar_free_rev_app s acc :
  bar_free (String.rev_app s acc) = bar_free s && bar_free acc.
Proof.
  revert acc. induction s as [|c s IH]; intros acc; simpl; [done|].
  rewrite IH. simpl. by destruct (bool_decide _), (bar_free s), (bar_free acc).
Qed.

Lemma bar_free_rev s : bar_free (String.rev s) = bar_free s.
Proof. unfold String.rev. rewrite bar_free_rev_app. simpl. by rewrite andb_true_r. Qed.

Lemma bar_free_TrimSpace s :
  bar_free s = true -> bar_free (strings.TrimSpace s) = true.
Proof.
  intros Hs. unfold strings.TrimSpace.
  rewrite bar_free_rev. apply bar_free_trimLeft.
  rewrite bar_free_rev. by apply bar_free_trimLeft.
Qed.

Lemma split_bar_free s : bar_free s = true -> split_bar s = [s].
Proof.
  induction s as [|c s IH]; simpl; [done|].
  intros [Hc Hs]%andb_prop. rewrite decide_False.
  - by rewrite (IH Hs).
  - intros ->. by rewrite bool_decide_eq_true_2 in Hc.
Qed.

Lemma split_bar_join a b :
  bar_free a = true -> split_bar (a +:+ "|" +:+ b) = a :: split_bar b.
Proof.
  induction a as [|c a IH]; simpl; [done|].
  intros [Hc Ha]%andb_prop. rewrite decide_False.
  - by rewrite (IH Ha).
  - intros ->. by rewrite bool_decide_eq_true_2 in Hc.
Qed.

Lemma bar_free_utm_segment raw :
  from_option bar_free true raw = true -> bar_free (utm_segment raw) = true.
Proof.
  unfold utm_segment. destruct raw as [s|]; simpl; [|done].
  intros Hs. case_decide; [done|]. by apply bar_free_TrimSpace.
Qed.

(** ** The attribution key *)

Lemma TrimSpace_empty : strings.TrimSpace "" = "".
Proof. reflexivity. Qed.

Lemma TrimSpace_unknown : strings.TrimSpace "unknown" = "unknown".
Proof. vm_compute. reflexivity. Qed.

Lemma utm_segment_nonempty raw : utm_segment raw <> "".
Proof.
  unfold utm_segment. destruct raw as [s|]; [|done].
  by case_decide.
Qed.

Lemma utm_segment_unknown raw :
  raw = None \/ (exists s, raw = Some s /\ strings.TrimSpace s = "") ->
  utm_segment raw = "unknown".
Proof.
  intros [->|(s & -> & Hs)]; [done|].
  unfold utm_segment. by rewrite decide_True.
Qed.

Lemma string_app_nonempty (a b : string) : a <> "" -> a +:+ b <> "".
Proof. by destruct a. Qed.

Lemma split_bar_nonempty s : split_bar s <> [].
Proof.
  destruct s as [|c s]; simpl; [done|].
  case_decide; [done|]. by destruct (split_bar s).
Qed.

Lemma split_bar_app a b :
  split_bar (a +:+ "|" +:+ b) = split_bar a ++ split_bar b.
Proof.
  induction a as [|c a IH]; simpl; [done|].
  case_decide.
  - by rewrite IH.
  - rewrite IH. pose proof (split_bar_nonempty a) as Ha.
    by destruct (split_bar a).
Qed.

(** C7, as amended.  For every raw advertising record the key of the
    normalised record is [campaign|source|medium], built from three
    non-empty values, so it is not empty itself, and the value of a raw
    campaign, source or medium that is missing (nil) or empty after trimming
    is "unknown".  The pieces of the key between its bars are the pieces of
    the three values, in order: the key has an empty piece exactly when one
    of the three values has one of its own.  When the raw values hold no
    bar, the pieces of the key are the three values themselves and none of
    them is empty. *)
Theorem utm_key_segments (raws : list AdsRecord.t) (h : heap) :
  exists rs h1 out h2,
    transformer.normalizeAdsFrom 0 raws [] h = Some (rs, h1) /\
    transformer.NormalizeAdsRecords raws h = Some (out, h2) /\
    (forall r, r ∈ out -> r ∈ rs) /\
    length rs = length raws /\
    forall k raw r, raws !! k = Some raw -> rs !! k = Some r ->
      let campaign := NormalizedAdsRecord.UTMCampaign r in
      let source := NormalizedAdsRecord.UTMSource r in
      let medium := NormalizedAdsRecord.UTMMedium r in
      NormalizedAdsRecord.UTMKey r = campaign +:+ "|" +:+ source +:+ "|" +:+ medium /\
      NormalizedAdsRecord.UTMKey r <> "" /\
      campaign <> "" /\ source <> "" /\ medium <> "" /\
      (strings.TrimSpace (AdsRecord.UTMCampaign raw) = "" -> campaign = "unknown") /\
      (AdsRecord.UTMSource raw = None \/
       (exists s, AdsRecord.UTMSource raw = Some s /\ strings.TrimSpace s = "") ->
       source = "unknown") /\
      (AdsRecord.UTMMedium raw = None \/
       (exists s, AdsRecord.UTMMedium raw = Some s /\ strings.TrimSpace s = "") ->
       medium = "unknown") /\
      split_bar (NormalizedAdsRecord.UTMKey r)
      = split_bar campaign ++ split_bar source ++ split_bar medium /\
      ("" ∈ split_bar (NormalizedAdsRecord.UTMKey r) <->
       "" ∈ split_bar campaign \/ "" ∈ split_bar source \/ "" ∈ split_bar medium) /\
      (bar_free (AdsRecord.UTMCampaign raw) = true ->
       from_option bar_free true (AdsRecord.UTMSource raw) = true ->
       from_option bar_free true (AdsRecord.UTMMedium raw) = true ->
       split_bar (NormalizedAdsRecord.UTMKey r) = [campaign; source; medium] /\
       "" ∉ split_bar (NormalizedAdsRecord.UTMKey r)).
Proof.
  destruct (NormalizeAdsRecords_spec raws h)
    as (rs & ms & ms' & Hnorm & Hbatch & _ & Hrun & _).
  eexists rs, _, _, _. split_and!; [exact Hnorm|exact Hrun| | |].
  - intros r (k & _ & Hk)%pick_elem. by eapply list_elem_of_lookup_2.
  - apply Hbatch.
  - intros k raw r Hraw Hr.
    destruct (ads_batch_lookup _ _ _ _ _ _ _ Hbatch Hr) as (raw' & m & Hraw' & _ & Hn).
    assert (raw' = raw) as -> by congruence.
    destruct Hn as [_ _ _ _ _ Hc Hs Hm Hkey]. simpl.
    assert (NormalizedAdsRecord.UTMCampaign r <> "" /\
            strings.TrimSpace (NormalizedAdsRecord.UTMCampaign r) <> "") as [Hc1 Hc2].
    { rewrite Hc. case_decide as Hblank.
      - by rewrite TrimSpace_unknown.
      - split; [|done]. intros Heq. apply Hblank. by rewrite Heq. }
    assert (NormalizedAdsRecord.UTMKey r
            = NormalizedAdsRecord.UTMCampaign r +:+ "|"
                +:+ NormalizedAdsRecord.UTMSource r +:+ "|"
                +:+ NormalizedAdsRecord.UTMMedium r) as Hk.
    { rewrite Hkey. unfold transformer.generateUTMKey. by rewrite decide_False. }
    assert (NormalizedAdsRecord.UTMSource r <> "") as Hs1.
    { rewrite Hs. apply utm_segment_nonempty. }
    assert (NormalizedAdsRecord.UTMMedium r <> "") as Hm1.
    { rewrite Hm. apply utm_segment_nonempty. }
    assert (split_bar (NormalizedAdsRecord.UTMKey r)
            = split_bar (NormalizedAdsRecord.UTMCampaign r)
                ++ split_bar (NormalizedAdsRecord.UTMSource r)
                ++ split_bar (NormalizedAdsRecord.UTMMedium r)) as Hsplit.
    { rewrite Hk. by rewrite !split_bar_app. }
    split_and!.
    + exact Hk.
    + rewrite Hk. by apply string_app_nonempty.
    + exact Hc1.
    + exact Hs1.
    + exact Hm1.
    + intros Hblank. by rewrite Hc, decide_True.
    + intros Hmiss. rewrite Hs. by apply utm_segment_unknown.
    + intros Hmiss. rewrite Hm. by apply utm_segment_unknown.
    + exact Hsplit.
    + rewrite Hsplit, !elem_of_app. tauto.
    + intros Hbc Hbs Hbm.
      assert (split_bar (NormalizedAdsRecord.UTMKey r)
              = [NormalizedAdsRecord.UTMCampaign r; NormalizedAdsRecord.UTMSource r;
                 NormalizedAdsRecord.UTMMedium r]) as Hthree.
      { rewrite Hsplit, !split_bar_free; [done| | |].
        - rewrite Hm. by apply bar_free_utm_segment.
        - rewrite Hs. by apply bar_free_utm_segment.
        - rewrite Hc. by case_decide. }
      split; [exact Hthree|].
      rewrite Hthree, !elem_of_cons, elem_of_nil. intros [?|[?|[?|[]]]]; congruence.
Qed.

(** C7, counterexample.  A raw advertising record that passes every rule,
    with the medium "|": it is returned as a valid record with the key
    [spring|google||], and the pieces of that key between its bars are
    "spring", "google" and two empty strings. *)
Lemma utm_key_empty_segment :
  exists r h,
    transformer.NormalizeAdsRecords [sample_bar_medium] [] = Some ([r], h) /\
    RecordQuality.IsValid (NormalizedAdsRecord.Quality r) = true /\
    RecordQuality.ErrorCount (NormalizedAdsRecord.Quality r) = 0 /\
    NormalizedAdsRecord.UTMMedium r = "|" /\
    NormalizedAdsRecord.UTMKey r = "spring|google||" /\
    split_bar (NormalizedAdsRecord.UTMKey r) = ["spring"; "google"; ""; ""] /\
    "" ∈ split_bar (NormalizedAdsRecord.UTMKey r).
Proof.
  eexists _, _. split; [vm_compute; reflexivity|].
  split_and!; [reflexivity..|].
  cbn [NormalizedAdsRecord.UTMKey]. apply (bool_decide_unpack _). by vm_compute.
Qed.

(** C10.  A CRM record whose opportunity id is empty or blank is given the
    id "unknown", and of the records with such an id every one after the
    first is dropped by the deduplicator: at most one of them, the first in
    input order, is returned.  The batch returned is made of the records at
    the positions [idx] of the normalised batch [rs]. *)
Theorem blank_opportunity_ids_collapse (raws : list CRMRecord.t) (h : heap) :
  exists rs h1 out h2 idx,
    transformer.normalizeCRMFrom 0 raws [] h = Some (rs, h1) /\
    transformer.deduplicateCRMRecords rs h1 = Some (out, h2) /\
    transformer.NormalizeCRMRecords raws h = Some (out, h2) /\
    length rs = length raws /\
    out = pick rs idx /\
    (forall k raw r, raws !! k = Some raw -> rs !! k = Some r ->
       strings.TrimSpace (CRMRecord.OpportunityID raw) = "" ->
       NormalizedCRMRecord.OpportunityID r = "unknown") /\
    (forall i j raw_i raw_j r_j,
       (i < j)%nat ->
       raws !! i = Some raw_i -> raws !! j = Some raw_j -> rs !! j = Some r_j ->
       strings.TrimSpace (CRMRecord.OpportunityID raw_i) = "" ->
       strings.TrimSpace (CRMRecord.OpportunityID raw_j) = "" ->
       (j ∉ idx) /\ (r_j ∉ out)).
Proof.
  destruct (NormalizeCRMRecords_spec raws h)
    as (rs & ms & ms' & Hnorm & Hbatch & Hdedup & Hrun & _).
  pose proof (crm_batch_ref _ _ _ _ _ Hbatch) as Href.
  assert (forall k raw r, raws !! k = Some raw -> rs !! k = Some r ->
            strings.TrimSpace (CRMRecord.OpportunityID raw) = "" ->
            NormalizedCRMRecord.OpportunityID r = "unknown") as Hunknown.
  { intros k raw r Hraw Hr Hblank.
    destruct (crm_batch_lookup _ _ _ _ _ _ _ Hbatch Hr) as (raw' & m & Hraw' & _ & Hn).
    assert (raw' = raw) as -> by congruence.
    by rewrite (cn_opportunity _ _ _ _ _ Hn), decide_True. }
  eexists rs, _, _, _, _.
  split_and!; [exact Hnorm|exact Hdedup|exact Hrun|apply Hbatch|reflexivity|exact Hunknown|].
  intros i j raw_i raw_j r_j Hij Hi Hj Hrj Hbi Hbj.
  assert (j ∉ first_indices NormalizedCRMRecord.OpportunityID ∅ 0 rs) as Hnot.
  { intros (x & Hx & Hfirst)%first_indices_first_with_key.
    assert (x = r_j) as -> by congruence.
    destruct (lookup_lt_is_Some_2 rs i) as [r_i Hri].
    { apply lookup_lt_Some in Hrj. lia. }
    apply (Hfirst i r_i Hij Hri).
    by rewrite (Hunknown _ _ _ Hi Hri Hbi), (Hunknown _ _ _ Hj Hrj Hbj). }
  split; [done|].
  by rewrite (pick_position crm_ref rs (length h) _ j r_j Href Hrj).
Qed.

(** ** The quality objects of the report *)

Section report_scan.
Import transformer.
Context {A : Type} (quality : A -> RecordQuality.t).

Lemma scan_quality_from_fst records acc :
  (foldl (scan_step quality) acc records).1 = (acc.1 ++ (quality <$> records))%list.
Proof.
  revert acc. induction records as [|r records IH]; intros acc; simpl.
  - by rewrite app_nil_r.
  - rewrite IH. simpl. by rewrite <-app_assoc.
Qed.

Lemma scan_quality_fst records :
  (scan_quality quality records).1 = quality <$> records.
Proof. exact (scan_quality_from_fst records ([], 0)). Qed.
End report_scan.

Lemma GenerateQualityReport_AdsReport h now ads crm :
  DataQualityReport.AdsReport (transformer.GenerateQualityReport h now ads crm)
  = NormalizedAdsRecord.Quality <$> ads.
Proof.
  unfold transformer.GenerateQualityReport.
  rewrite <-(scan_quality_fst NormalizedAdsRecord.Quality ads).
  destruct (transformer.scan_quality NormalizedAdsRecord.Quality ads).
  by destruct (transformer.scan_quality NormalizedCRMRecord.Quality crm).
Qed.

Lemma GenerateQualityReport_CRMReport h now ads crm :
  DataQualityReport.CRMReport (transformer.GenerateQualityReport h now ads crm)
  = NormalizedCRMRecord.Quality <$> crm.
Proof.
  unfold transformer.GenerateQualityReport.
  rewrite <-(scan_quality_fst NormalizedCRMRecord.Quality crm).
  destruct (transformer.scan_quality NormalizedAdsRecord.Quality ads).
  by destruct (transformer.scan_quality NormalizedCRMRecord.Quality crm).
Qed.

(** ** What marking a duplicate changes *)

Lemma markDuplicateAds_effect record existingIndex key h record' h' :
  transformer.markDuplicateAds record existingIndex key h = Some (record', h') ->
  exists entries fq,
    h !! ads_ref record = Some entries /\
    FieldQuality.IsValid fq = false /\
    h' = <[ads_ref record := <["duplicate" := fq]> entries]> h /\
    record' = NormalizedAdsRecord.set_Quality record
                (RecordQuality.mk
                   (RecordQuality.RecordID (NormalizedAdsRecord.Quality record)) false
                   (ads_ref record)
                   (incr (RecordQuality.ErrorCount (NormalizedAdsRecord.Quality record)))).
Proof.
  unfold transformer.markDuplicateAds, mbind, M_bind, mret, M_ret, map_store.
  fold (ads_ref record).
  destruct (h !! ads_ref record) as [entries|] eqn:He; [|done].
  intros [= <- <-]. eexists entries, _. split_and!; [done| |reflexivity|reflexivity]. done.
Qed.

Lemma markDuplicateCRM_effect record existingIndex h record' h' :
  transformer.markDuplicateCRM record existingIndex h = Some (record', h') ->
  exists entries fq,
    h !! crm_ref record = Some entries /\
    FieldQuality.IsValid fq = false /\
    h' = <[crm_ref record := <["duplicate" := fq]> entries]> h /\
    record' = NormalizedCRMRecord.set_Quality record
                (RecordQuality.mk
                   (RecordQuality.RecordID (NormalizedCRMRecord.Quality record)) false
                   (crm_ref record)
                   (incr (RecordQuality.ErrorCount (NormalizedCRMRecord.Quality record)))).
Proof.
  unfold transformer.markDuplicateCRM, mbind, M_bind, mret, M_ret, map_store.
  fold (crm_ref record).
  destruct (h !! crm_ref record) as [entries|] eqn:He; [|done].
  intros [= <- <-]. eexists entries, _. split_and!; [done| |reflexivity|reflexivity]. done.
Qed.

(** C4.  An ingestion run normalises the advertising batch and then the CRM
    batch, and the report is built from the two batches returned.  Dropping
    a duplicate changes the map of the dropped record only, which receives a
    failed "duplicate" verdict: marking a record writes that verdict into
    the map of the record, increments the counter and lowers the flag of the
    copy the deduplicator holds, and changes nothing else.  A record that is
    kept is returned as it was normalised, flag and counter included, and its
    map is, when the report is built, what it was before deduplication.  The
    report holds the quality objects of the returned records, in order; none
    of them refers to the map of a dropped record and none of their maps has
    a "duplicate" entry. *)
Theorem duplicate_marking_is_local
    (ads : list AdsRecord.t) (crm : list CRMRecord.t) (h : heap) (now : string) :
  (* marking one record *)
  (forall record existingIndex key h0 record' h',
      transformer.markDuplicateAds record existingIndex key h0 = Some (record', h') ->
      exists entries fq,
        h0 !! ads_ref record = Some entries /\
        FieldQuality.IsValid fq = false /\
        h' = <[ads_ref record := <["duplicate" := fq]> entries]> h0 /\
        record' = NormalizedAdsRecord.set_Quality record
                    (RecordQuality.mk
                       (RecordQuality.RecordID (NormalizedAdsRecord.Quality record)) false
                       (ads_ref record)
                       (incr (RecordQuality.ErrorCount (NormalizedAdsRecord.Quality record))))) /\
  (forall record existingIndex h0 record' h',
      transformer.markDuplicateCRM record existingIndex h0 = Some (record', h') ->
      exists entries fq,
        h0 !! crm_ref record = Some entries /\
        FieldQuality.IsValid fq = false /\
        h' = <[crm_ref record := <["duplicate" := fq]> entries]> h0 /\
        record' = NormalizedCRMRecord.set_Quality record
                    (RecordQuality.mk
                       (RecordQuality.RecordID (NormalizedCRMRecord.Quality record)) false
                       (crm_ref record)
                       (incr (RecordQuality.ErrorCount (NormalizedCRMRecord.Quality record))))) /\
  (* an ingestion run *)
  exists rsA h1 outA h2 rsC h3 outC h4,
    transformer.normalizeAdsFrom 0 ads [] h = Some (rsA, h1) /\
    transformer.deduplicateAdsRecords rsA h1 = Some (outA, h2) /\
    transformer.NormalizeAdsRecords ads h = Some (outA, h2) /\
    transformer.normalizeCRMFrom 0 crm [] h2 = Some (rsC, h3) /\
    transformer.deduplicateCRMRecords rsC h3 = Some (outC, h4) /\
    transformer.NormalizeCRMRecords crm h2 = Some (outC, h4) /\
    (* the records kept *)
    (forall r, r ∈ outA ->
       r ∈ rsA /\ map_load h2 (ads_ref r) = map_load h1 (ads_ref r)
       /\ map_load h4 (ads_ref r) = map_load h1 (ads_ref r)) /\
    (forall r, r ∈ outC ->
       r ∈ rsC /\ map_load h4 (crm_ref r) = map_load h3 (crm_ref r)) /\
    (* the records dropped *)
    (forall r, r ∈ rsA -> r ∉ outA ->
       exists fq, FieldQuality.IsValid fq = false /\
         map_load h2 (ads_ref r) = <["duplicate" := fq]> (map_load h1 (ads_ref r))) /\
    (forall r, r ∈ rsC -> r ∉ outC ->
       exists fq, FieldQuality.IsValid fq = false /\
         map_load h4 (crm_ref r) = <["duplicate" := fq]> (map_load h3 (crm_ref r))) /\
    (* the report *)
    let report := transformer.GenerateQualityReport h4 now outA outC in
    DataQualityReport.AdsReport report = NormalizedAdsRecord.Quality <$> outA /\
    DataQualityReport.CRMReport report = NormalizedCRMRecord.Quality <$> outC /\
    (forall q, q ∈ DataQualityReport.AdsReport report ++ DataQualityReport.CRMReport report ->
       map_load h4 (RecordQuality.FieldErrors q) !! "duplicate" = None /\
       (forall r, r ∈ rsA -> r ∉ outA -> RecordQuality.FieldErrors q <> ads_ref r) /\
       (forall r, r ∈ rsC -> r ∉ outC -> RecordQuality.FieldErrors q <> crm_ref r)).
Proof.
  split; [exact markDuplicateAds_effect|].
  split; [exact markDuplicateCRM_effect|].
  destruct (NormalizeAdsRecords_spec ads h)
    as (rsA & msA & msA' & HnormA & HbatchA & HdedupA & HrunA & HlenA & HsetA).
  destruct (NormalizeCRMRecords_spec crm (h ++ msA'))
    as (rsC & msC & msC' & HnormC & HbatchC & HdedupC & HrunC & HlenC & HsetC).
  pose proof (ads_batch_ref _ _ _ _ _ HbatchA) as HrefA.
  pose proof (crm_batch_ref _ _ _ _ _ HbatchC) as HrefC.
  set (idxA := first_indices transformer.adsKey ∅ 0 rsA) in *.
  set (idxC := first_indices NormalizedCRMRecord.OpportunityID ∅ 0 rsC) in *.
  (* the maps of the advertising records, at each stage *)
  assert (forall k r m, rsA !! k = Some r -> msA !! k = Some m ->
            map_load (h ++ msA) (ads_ref r) = m) as HloadA1.
  { intros k r m Hr Hm. rewrite (HrefA _ _ Hr). by apply map_load_app_r. }
  assert (forall k r m, rsA !! k = Some r -> msA' !! k = Some m ->
            map_load (h ++ msA') (ads_ref r) = m /\
            map_load ((h ++ msA') ++ msC') (ads_ref r) = m) as HloadA2.
  { intros k r m Hr Hm. rewrite (HrefA _ _ Hr).
    rewrite (map_load_app_l (h ++ msA') msC').
    - split; by apply map_load_app_r.
    - rewrite length_app. apply lookup_lt_Some in Hm. lia. }
  assert (forall k r m, rsC !! k = Some r -> msC !! k = Some m ->
            map_load ((h ++ msA') ++ msC) (crm_ref r) = m) as HloadC1.
  { intros k r m Hr Hm. rewrite (HrefC _ _ Hr). by apply map_load_app_r. }
  assert (forall k r m, rsC !! k = Some r -> msC' !! k = Some m ->
            map_load ((h ++ msA') ++ msC') (crm_ref r) = m) as HloadC2.
  { intros k r m Hr Hm. rewrite (HrefC _ _ Hr). by apply map_load_app_r. }
  (* kept and dropped, by position *)
  assert (forall r, r ∈ pick rsA idxA ->
            exists k raw m, k ∈ idxA /\ rsA !! k = Some r /\ msA !! k = Some m
              /\ msA' !! k = Some m /\ ads_normal raw (0 + k) (length h + k) r m) as HkeptA.
  { intros r (k & Hidx & Hk)%pick_elem.
    destruct (ads_batch_lookup _ _ _ _ _ _ _ HbatchA Hk) as (raw & m & _ & Hm & Hn).
    exists k, raw, m. split_and!; try done. by apply (HsetA k m Hm). }
  assert (forall r, r ∈ pick rsC idxC ->
            exists k raw m, k ∈ idxC /\ rsC !! k = Some r /\ msC !! k = Some m
              /\ msC' !! k = Some m
              /\ crm_normal raw (0 + k) (length (h ++ msA') + k) r m) as HkeptC.
  { intros r (k & Hidx & Hk)%pick_elem.
    destruct (crm_batch_lookup _ _ _ _ _ _ _ HbatchC Hk) as (raw & m & _ & Hm & Hn).
    exists k, raw, m. split_and!; try done. by apply (HsetC k m Hm). }
  assert (forall r, r ∈ rsA -> r ∉ pick rsA idxA ->
            exists k m fq, (k ∉ idxA) /\ rsA !! k = Some r /\ msA !! k = Some m
              /\ FieldQuality.IsValid fq = false
              /\ msA' !! k = Some (<["duplicate" := fq]> m)) as HdropA.
  { intros r [k Hk]%list_elem_of_lookup Hout.
    destruct (ads_batch_lookup _ _ _ _ _ _ _ HbatchA Hk) as (raw & m & _ & Hm & Hn).
    assert (k ∉ idxA) as Hidx.
    { intros Hidx. apply Hout. by apply (pick_position ads_ref rsA (length h) _ k). }
    destruct (HsetA k m Hm) as [_ Hdrop]. destruct (Hdrop Hidx) as (fq & Hfq & Hm').
    by exists k, m, fq. }
  assert (forall r, r ∈ rsC -> r ∉ pick rsC idxC ->
            exists k m fq, (k ∉ idxC) /\ rsC !! k = Some r /\ msC !! k = Some m
              /\ FieldQuality.IsValid fq = false
              /\ msC' !! k = Some (<["duplicate" := fq]> m)) as HdropC.
  { intros r [k Hk]%list_elem_of_lookup Hout.
    destruct (crm_batch_lookup _ _ _ _ _ _ _ HbatchC Hk) as (raw & m & _ & Hm & Hn).
    assert (k ∉ idxC) as Hidx.
    { intros Hidx. apply Hout.
      by apply (pick_position crm_ref rsC (length (h ++ msA')) _ k). }
    destruct (HsetC k m Hm) as [_ Hdrop]. destruct (Hdrop Hidx) as (fq & Hfq & Hm').
    by exists k, m, fq. }
  exists rsA, (h ++ msA)%list, (pick rsA idxA), (h ++ msA')%list,
         rsC, ((h ++ msA') ++ msC)%list, (pick rsC idxC), ((h ++ msA') ++ msC')%list.
  split_and!; try done.
  - intros r (k & raw & m & Hidx & Hr & Hm & Hm' & _)%HkeptA.
    destruct (HloadA2 _ _ _ Hr Hm') as [-> ->].
    rewrite (HloadA1 _ _ _ Hr Hm). split_and!; [|done|done].
    by eapply list_elem_of_lookup_2.
  - intros r (k & raw & m & Hidx & Hr & Hm & Hm' & _)%HkeptC.
    rewrite (HloadC2 _ _ _ Hr Hm'), (HloadC1 _ _ _ Hr Hm). split; [|done].
    by eapply list_elem_of_lookup_2.
  - intros r Hin Hout.
    destruct (HdropA r Hin Hout) as (k & m & fq & _ & Hr & Hm & Hfq & Hm').
    exists fq. split; [done|].
    destruct (HloadA2 _ _ _ Hr Hm') as [-> _]. by rewrite (HloadA1 _ _ _ Hr Hm).
  - intros r Hin Hout.
    destruct (HdropC r Hin Hout) as (k & m & fq & _ & Hr & Hm & Hfq & Hm').
    exists fq. split; [done|].
    by rewrite (HloadC2 _ _ _ Hr Hm'), (HloadC1 _ _ _ Hr Hm).
  - intros report. split; [apply GenerateQualityReport_AdsReport|].
    split; [apply GenerateQualityReport_CRMReport|].
    subst report.
    intros q. rewrite GenerateQualityReport_AdsReport, GenerateQualityReport_CRMReport.
    rewrite elem_of_app, !list_elem_of_fmap.
    intros [(r & -> & Hr)|(r & -> & Hr)].
    { destruct (HkeptA r Hr) as (k & raw & m & Hidx & Hk & Hm & Hm' & Hn).
      fold (ads_ref r). split_and!.
      - destruct (HloadA2 _ _ _ Hk Hm') as [_ ->].
        apply not_elem_of_dom. rewrite (an_dom _ _ _ _ _ Hn), elem_of_list_to_set.
        apply (bool_decide_unpack _). vm_compute. exact I.
      - intros r' Hin' Hout' Heq.
        destruct (HdropA r' Hin' Hout') as (k' & _ & _ & Hidx' & Hk' & _).
        rewrite (HrefA _ _ Hk), (HrefA _ _ Hk') in Heq.
        assert (k' = k) as -> by lia. done.
      - intros r' Hin' Hout' Heq.
        destruct (HdropC r' Hin' Hout') as (k' & _ & _ & Hidx' & Hk' & _).
        rewrite (HrefA _ _ Hk), (HrefC _ _ Hk'), length_app in Heq.
        apply lookup_lt_Some in Hm'. lia. }
    { destruct (HkeptC r Hr) as (k & raw & m & Hidx & Hk & Hm & Hm' & Hn).
      fold (crm_ref r). split_and!.
      - rewrite (HloadC2 _ _ _ Hk Hm').
        apply not_elem_of_dom. rewrite (cn_dom _ _ _ _ _ Hn), elem_of_list_to_set.
        apply (bool_decide_unpack _). vm_compute. exact I.
      - intros r' Hin' Hout' Heq.
        destruct (HdropA r' Hin' Hout') as (k' & m' & fq' & Hidx' & Hk' & Hm1 & _ & Hm2).
        rewrite (HrefC _ _ Hk), (HrefA _ _ Hk'), length_app in Heq.
        apply lookup_lt_Some in Hm2. lia.
      - intros r' Hin' Hout' Heq.
        destruct (HdropC r' Hin' Hout') as (k' & _ & _ & Hidx' & Hk' & _).
        rewrite (HrefC _ _ Hk), (HrefC _ _ Hk') in Heq.
        assert (k' = k) as -> by lia. done. }
Qed.

(** ** Counting the valid records *)

Section valid_count.
Import transformer.
Context {A : Type} (quality : A -> RecordQuality.t).

Lemma valid_count_le records :
  0 <= valid_count quality records <= Z.of_nat (length records).
Proof.
  unfold valid_count.
  pose proof (length_filter
    (fun r => RecordQuality.IsValid (quality r) = true) records). lia.
Qed.

Lemma scan_quality_from_snd records : forall acc,
  0 <= acc.2 -> acc.2 + Z.of_nat (length records) < 2 ^ 63 ->
  (foldl (scan_step quality) acc records).2 = acc.2 + valid_count quality records.
Proof.
  unfold valid_count.
  induction records as [|r records IH]; intros acc H0 Hb; simpl in *; [lia|].
  destruct (RecordQuality.IsValid (quality r)) eqn:Hv.
  - rewrite filter_cons_True by done.
    rewrite IH; unfold scan_step; rewrite Hv; simpl;
      rewrite ?incr_small by lia; lia.
  - rewrite filter_cons_False by congruence.
    rewrite IH; unfold scan_step; rewrite Hv; simpl; lia.
Qed.

Lemma scan_quality_snd records :
  Z.of_nat (length records) < 2 ^ 63 ->
  (scan_quality quality records).2 = valid_count quality records.
Proof.
  intros Hb.
  exact (scan_quality_from_snd records ([], 0) (Z.le_refl 0) Hb).
Qed.
End valid_count.

(** ** Counting the issues *)

Lemma occurrences_nonneg d l : 0 <= occurrences d l.
Proof. unfold occurrences. lia. Qed.

Lemma occurrences_cons d d' l :
  occurrences d (d' :: l) = (if decide (d' = d) then 1 else 0) + occurrences d l.
Proof.
  unfold occurrences. case_decide.
  - rewrite filter_cons_True by done. simpl. lia.
  - rewrite filter_cons_False by done. lia.
Qed.

Lemma occurrences_le d l : occurrences d l <= Z.of_nat (length l).
Proof.
  unfold occurrences. pose proof (length_filter (fun d' => d' = d) l). lia.
Qed.

Lemma tally_lookup descriptions : forall (issueCount : gmap string Z) d,
  (forall d n, issueCount !! d = Some n -> 0 <= n) ->
  (forall d, default 0 (issueCount !! d) + Z.of_nat (length descriptions) < 2 ^ 63) ->
  tally issueCount descriptions !! d =
    if decide (occurrences d descriptions = 0) then issueCount !! d
    else Some (default 0 (issueCount !! d) + occurrences d descriptions).
Proof.
  induction descriptions as [|d' l IH]; intros ic d Hpos Hb.
  - done.
  - cbn [tally foldl]. fold (tally (<[d' := incr (default 0 (ic !! d'))]> ic) l).
    simpl in Hb.
    assert (forall d, 0 <= default 0 (ic !! d)) as Hpos'.
    { intros d0. destruct (ic !! d0) as [n|] eqn:E; simpl; [by eapply Hpos|lia]. }
    pose proof (Hpos' d'). pose proof (Hb d').
    rewrite IH.
    + rewrite occurrences_cons. pose proof (occurrences_nonneg d l).
      destruct (decide (d' = d)) as [->|Hne].
      * rewrite lookup_insert_eq. simpl. rewrite incr_small by lia.
        rewrite (decide_False (P := 1 + _ = 0)) by lia.
        case_decide as Hz; [rewrite Hz; f_equal; lia|f_equal; lia].
      * rewrite lookup_insert_ne by done. simpl. done.
    + intros d0 n. destruct (decide (d' = d0)) as [->|Hne].
      * rewrite lookup_insert_eq. intros [= <-]. rewrite incr_small by lia. lia.
      * rewrite lookup_insert_ne by done. apply Hpos.
    + intros d0. destruct (decide (d' = d0)) as [->|Hne].
      * rewrite lookup_insert_eq. simpl. rewrite incr_small by lia.
        pose proof (Hb d0). lia.
      * rewrite lookup_insert_ne by done. pose proof (Hb d0). lia.
Qed.

Lemma tally_app ic l1 l2 : tally ic (l1 ++ l2) = tally (tally ic l1) l2.
Proof. unfold tally. by rewrite foldl_app. Qed.

Lemma tally_issues_tally ic (entries : fieldmap) :
  transformer.tally_issues ic entries = tally ic (failed_descriptions entries).
Proof.
  unfold transformer.tally_issues, failed_descriptions, tally.
  revert ic. induction (map_to_list entries) as [|[k fq] l IH]; intros ic; simpl; [done|].
  destruct (FieldQuality.IsValid fq) eqn:Hv.
  - rewrite filter_cons_False by congruence. apply IH.
  - rewrite filter_cons_True by done. simpl. apply IH.
Qed.

Lemma tally_records {A} (ref : A -> mapref) (h : heap) (records : list A) : forall ic,
  foldl (fun issueCount record => transformer.tally_issues issueCount (map_load h (ref record)))
        ic records
  = tally ic (records ≫= fun r => failed_descriptions (map_load h (ref r))).
Proof.
  induction records as [|r records IH]; intros ic; simpl; [done|].
  by rewrite IH, tally_issues_tally, tally_app.
Qed.

Lemma identifyCommonIssues_tally h ads crm :
  transformer.identifyCommonIssues h ads crm
  = omap (fun entry : string * Z =>
            if 1 <? entry.2 then Some (transformer.issue_line entry.1 entry.2) else None)
         (map_to_list (tally ∅ (issues h ads crm))).
Proof.
  unfold transformer.identifyCommonIssues, issues.
  rewrite tally_app.
  rewrite <-(tally_records ads_ref h ads), <-(tally_records crm_ref h crm). done.
Qed.

Lemma omap_filter_fmap {A B} (P : A -> bool) (f : A -> B) (l : list A) :
  omap (fun x => if P x then Some (f x) else None) l
  = f <$> filter (fun x => P x = true) l.
Proof.
  induction l as [|x l IH]; [done|].
  cbn [omap list_omap]. rewrite IH.
  destruct (P x) eqn:HP.
  - by rewrite filter_cons_True by done.
  - by rewrite filter_cons_False by congruence.
Qed.

Lemma score_spec (valid : Z) {A} (records : list A) :
  transformer.score valid (Z.of_nat (length records)) =
    if decide (records = []) then Float64.zero
    else Float64.mul (Float64.div (Float64.of_int valid)
                                  (Float64.of_int (Z.of_nat (length records))))
                     (Float64.of_int 100).
Proof.
  unfold transformer.score. destruct records as [|r records]; [done|].
  rewrite decide_False by done.
  assert ((0 <? Z.of_nat (length (r :: records))) = true) as ->; [|done].
  apply Z.ltb_lt. simpl. lia.
Qed.

Lemma valid_invalid_length {A} (quality : A -> RecordQuality.t) (records : list A) :
  valid_count quality records
  = Z.of_nat (length records)
    - Z.of_nat (length (filter (fun r => RecordQuality.IsValid (quality r) = false) records)).
Proof.
  unfold valid_count. induction records as [|r records IH]; [done|].
  destruct (RecordQuality.IsValid (quality r)) eqn:Hv.
  - rewrite filter_cons_True, filter_cons_False by congruence. simpl length. lia.
  - rewrite filter_cons_False, filter_cons_True by congruence. simpl length. lia.
Qed.

(** C6.  The report gives, for each batch, the score valid / total * 100
    (0 for an empty batch), overall the score of the two batches together
    (0 when both are empty), and as common issues the descriptions of the
    failed verdicts of the two batches that occur more than once, each
    once, followed by its number of occurrences.  Ten advertising records
    of which two are invalid score 80. *)
Theorem quality_report_scores (h : heap) (now : string)
    (ads : list NormalizedAdsRecord.t) (crm : list NormalizedCRMRecord.t) :
  Z.of_nat (length ads) + Z.of_nat (length crm) < 2 ^ 63 ->
  Z.of_nat (length (issues h ads crm)) < 2 ^ 63 ->
  let summary := DataQualityReport.Summary (transformer.GenerateQualityReport h now ads crm) in
  let validAds := valid_count NormalizedAdsRecord.Quality ads in
  let validCRM := valid_count NormalizedCRMRecord.Quality crm in
  let totalAds := Z.of_nat (length ads) in
  let totalCRM := Z.of_nat (length crm) in
  QualitySummary.TotalAdsRecords summary = totalAds /\
  QualitySummary.ValidAdsRecords summary = validAds /\
  QualitySummary.TotalCRMRecords summary = totalCRM /\
  QualitySummary.ValidCRMRecords summary = validCRM /\
  QualitySummary.AdsQualityScore summary
    = (if decide (ads = []) then Float64.zero
       else Float64.mul (Float64.div (Float64.of_int validAds) (Float64.of_int totalAds))
                        (Float64.of_int 100)) /\
  QualitySummary.CRMQualityScore summary
    = (if decide (crm = []) then Float64.zero
       else Float64.mul (Float64.div (Float64.of_int validCRM) (Float64.of_int totalCRM))
                        (Float64.of_int 100)) /\
  QualitySummary.OverallQualityScore summary
    = (if decide (ads = [] /\ crm = []) then Float64.zero
       else Float64.mul (Float64.div (Float64.of_int (validAds + validCRM))
                                     (Float64.of_int (totalAds + totalCRM)))
                        (Float64.of_int 100)) /\
  (exists l : list (string * Z),
      NoDup l.*1 /\
      (forall d n, (d, n) ∈ l <-> n = occurrences d (issues h ads crm) /\ 1 < n) /\
      QualitySummary.CommonIssues summary
      = (fun e => e.1 +:+ " (occurs " +:+ fmt.d e.2 +:+ " times)") <$> l) /\
  (length ads = 10%nat ->
   length (filter (fun r => RecordQuality.IsValid (NormalizedAdsRecord.Quality r) = false) ads)
     = 2%nat ->
   QualitySummary.AdsQualityScore summary = Float64.of_int 80).
Proof.
  intros Hlen Hissues summary validAds validCRM totalAds totalCRM.
  assert (QualitySummary.TotalAdsRecords summary = totalAds /\
          QualitySummary.ValidAdsRecords summary = validAds /\
          QualitySummary.TotalCRMRecords summary = totalCRM /\
          QualitySummary.ValidCRMRecords summary = validCRM /\
          QualitySummary.AdsQualityScore summary = transformer.score validAds totalAds /\
          QualitySummary.CRMQualityScore summary = transformer.score validCRM totalCRM /\
          QualitySummary.OverallQualityScore summary
            = transformer.score (validAds + validCRM) (totalAds + totalCRM) /\
          QualitySummary.CommonIssues summary = transformer.identifyCommonIssues h ads crm)
    as (HtA & HvA & HtC & HvC & HsA & HsC & HsO & Hci).
  { subst summary validAds validCRM totalAds totalCRM.
    unfold transformer.GenerateQualityReport.
    rewrite <-(scan_quality_snd NormalizedAdsRecord.Quality ads) by lia.
    rewrite <-(scan_quality_snd NormalizedCRMRecord.Quality crm) by lia.
    destruct (transformer.scan_quality NormalizedAdsRecord.Quality ads) as [qa va] eqn:Ea.
    destruct (transformer.scan_quality NormalizedCRMRecord.Quality crm) as [qc vc] eqn:Ec.
    pose proof (scan_quality_snd NormalizedAdsRecord.Quality ads ltac:(lia)) as Hva.
    pose proof (scan_quality_snd NormalizedCRMRecord.Quality crm ltac:(lia)) as Hvc.
    rewrite Ea in Hva. rewrite Ec in Hvc. simpl in Hva, Hvc.
    pose proof (valid_count_le NormalizedAdsRecord.Quality ads).
    pose proof (valid_count_le NormalizedCRMRecord.Quality crm).
    simpl. rewrite !wrap64_small by lia. done. }
  split_and!; try done.
  - rewrite HsA. apply score_spec.
  - rewrite HsC. apply score_spec.
  - rewrite HsO. subst totalAds totalCRM. unfold transformer.score.
    destruct ads as [|a ads], crm as [|c crm].
    + by rewrite decide_True.
    + rewrite decide_False by (by intros [? ?]).
      by replace (0 <? _) with true by (symmetry; apply Z.ltb_lt; simpl; lia).
    + rewrite decide_False by (by intros [? ?]).
      by replace (0 <? _) with true by (symmetry; apply Z.ltb_lt; simpl; lia).
    + rewrite decide_False by (by intros [? ?]).
      by replace (0 <? _) with true by (symmetry; apply Z.ltb_lt; simpl; lia).
  - rewrite Hci, identifyCommonIssues_tally.
    set (ic := tally ∅ (issues h ads crm)).
    assert (forall d, ic !! d =
              if decide (occurrences d (issues h ads crm) = 0) then None
              else Some (occurrences d (issues h ads crm))) as Hic.
    { intros d. unfold ic. rewrite tally_lookup.
      - rewrite lookup_empty. simpl. by case_decide.
      - intros d0 n. by rewrite lookup_empty.
      - intros d0. rewrite lookup_empty. simpl. lia. }
    exists (filter (fun e : string * Z => (1 <? e.2) = true) (map_to_list ic)).
    split_and!.
    + apply (sublist_NoDup _ (map_to_list ic).*1);
        [apply NoDup_fst_map_to_list|apply fmap_sublist, sublist_filter].
    + intros d n. rewrite list_elem_of_filter, elem_of_map_to_list, Hic. simpl.
      rewrite Z.ltb_lt. case_decide as Hz.
      * split; [by intros [_ ?]|]. intros [-> ?]. lia.
      * split; [intros [? [= <-]]; done|]. intros [-> ?]. done.
    + apply (omap_filter_fmap (fun e : string * Z => 1 <? e.2)
               (fun e => transformer.issue_line e.1 e.2)).
  - intros H10 H2. rewrite HsA.
    subst validAds totalAds. rewrite valid_invalid_length, H10, H2.
    vm_compute. reflexivity.
Qed.

(** ** Safe division *)

Lemma safeDivide_zero_denominator n d :
  Float64.eqb d Float64.zero = true -> metrics.safeDivide n d = Float64.zero.
Proof. intros Hd. unfold metrics.safeDivide. by rewrite Hd. Qed.

Lemma safeDivide_zero_numerator s d :
  Float64.ltb Float64.zero d = true ->
  Float64.eqb (metrics.safeDivide (S754_zero s) d) Float64.zero = true.
Proof.
  destruct d as [sd|sd| |sd m e]; try done.
  - by destruct sd.
  - destruct sd; [done|]. intros _. by destruct s.
Qed.

Example safeDivide_no_leads :
  metrics.safeDivide (Float64.of_int 50) (Float64.of_int 0) = Float64.zero.
Proof. reflexivity. Qed.

Example safeDivide_roas :
  metrics.safeDivide (Float64.of_int 200) (Float64.of_int 50) = Float64.of_int 4.
Proof. vm_compute. reflexivity. Qed.

Example safeDivide_rounds_to_3_places :
  metrics.safeDivide (Float64.of_int 1) (Float64.of_int 3)
  = Float64.div (Float64.of_int 333) (Float64.of_int 1000).
Proof. vm_compute. reflexivity. Qed.

(** C1.  The quotient of the finite, non-negative 1e308 by 1 is finite, so it
    passes the test for NaN and infinities; multiplied by 1000 for the
    rounding it overflows, and [safeDivide] returns +Inf. *)
Theorem safeDivide_returns_infinity :
  let n := Float64.of_int (10 ^ 308) in
  let d := Float64.of_int 1 in
  Float64.is_finite n = true /\ Float64.ltb n Float64.zero = false /\
  Float64.is_finite d = true /\ Float64.eqb d Float64.zero = false /\
  Float64.is_finite (Float64.div n d) = true /\
  metrics.safeDivide n d = S754_infinity false.
Proof. vm_compute. done. Qed.

(** ** The program on the sample data *)

Example sample_ads_run :
  (fun res : list NormalizedAdsRecord.t * heap =>
     (fun r => (NormalizedAdsRecord.UTMKey r,
                RecordQuality.RecordID (NormalizedAdsRecord.Quality r),
                RecordQuality.IsValid (NormalizedAdsRecord.Quality r),
                RecordQuality.ErrorCount (NormalizedAdsRecord.Quality r))) <$> res.1)
    <$> transformer.NormalizeAdsRecords sample_ads []
  = Some [("spring|google|cpc", "ads_0", true, 0)].
Proof. vm_compute. reflexivity. Qed.

Example sample_crm_run :
  (fun res : list NormalizedCRMRecord.t * heap =>
     (fun r => (NormalizedCRMRecord.OpportunityID r,
                RecordQuality.RecordID (NormalizedCRMRecord.Quality r),
                RecordQuality.IsValid (NormalizedCRMRecord.Quality r),
                RecordQuality.ErrorCount (NormalizedCRMRecord.Quality r))) <$> res.1)
    <$> transformer.NormalizeCRMRecords sample_crm []
  = Some [("unknown", "crm_0", false, 1)].
Proof. vm_compute. reflexivity. Qed.

(** The map of the advertising record dropped has received its "duplicate"
    verdict. *)
Example sample_ads_dropped :
  (fun res : list NormalizedAdsRecord.t * heap =>
     FieldQuality.Description <$> map_load res.2 1 !! "duplicate")
    <$> transformer.NormalizeAdsRecords sample_ads []
  = Some (Some "Duplicate record found (original at index 0)").
Proof. vm_compute. reflexivity. Qed.

Example parse_dates :
  time.Parse time.layout_date_dash "2025-08-01" = Some sample_day /\
  time.Parse time.layout_date_slash "2025/08/01" = Some sample_day /\
  time.Parse time.layout_date_dash "2025-02-29" = None /\
  time.Parse time.layout_date_dash "2025-8-1" = None /\
  time.FormatDate sample_day = "2025-08-01" /\
  time.FormatDate time.zero = "0001-01-01".
Proof. vm_compute. done. Qed.

Example email_pattern :
  transformer.emailRegex_MatchString "a.b+c@d-e.example.com" = true /\
  transformer.emailRegex_MatchString "not-an-email" = false /\
  transformer.emailRegex_MatchString "a@b.c" = false.
Proof. vm_compute. done. Qed.

(** ** The statements on the sample data *)

Lemma sample_allocated :
  Forall (fun r => (ads_ref r < length sample_heap)%nat) sample_normalized_ads /\
  Forall (fun r => (crm_ref r < length sample_heap)%nat) sample_normalized_crm.
Proof. split; repeat constructor. Defined.

Lemma dedup_first_occurrence_wins_witness :
  (Forall (fun r => (ads_ref r < length sample_heap)%nat) sample_normalized_ads /\
   Forall (fun r => (crm_ref r < length sample_heap)%nat) sample_normalized_crm) /\
  (exists out h' idx,
      transformer.deduplicateAdsRecords sample_normalized_ads sample_heap = Some (out, h') /\
      out = pick sample_normalized_ads idx /\ 0%nat ∈ idx /\ 1%nat ∉ idx) /\
  (exists out h' idx,
      transformer.deduplicateCRMRecords sample_normalized_crm sample_heap = Some (out, h') /\
      out = pick sample_normalized_crm idx /\ 0%nat ∈ idx /\ 1%nat ∉ idx).
Proof.
  split; [exact sample_allocated|].
  destruct (dedup_first_occurrence_wins sample_normalized_ads sample_normalized_crm
              sample_heap (proj1 sample_allocated) (proj2 sample_allocated))
    as [(out & h' & idx & Hrun & _ & Hidx & Hout)
        (out' & h'' & idx' & Hrun' & _ & Hidx' & Hout')].
  split.
  - exists out, h', idx. split_and!; [exact Hrun|exact Hout| |].
    + apply Hidx. eexists. split; [reflexivity|]. intros j y Hj. lia.
    + intros (x & Hx & Hfirst)%Hidx. injection Hx as <-.
      by apply (Hfirst 0%nat _ (Nat.lt_0_1) eq_refl).
  - exists out', h'', idx'. split_and!; [exact Hrun'|exact Hout'| |].
    + apply Hidx'. eexists. split; [reflexivity|]. intros j y Hj. lia.
    + intros (x & Hx & Hfirst)%Hidx'. injection Hx as <-.
      by apply (Hfirst 0%nat _ (Nat.lt_0_1) eq_refl).
Defined.

Lemma dedup_idempotent_witness :
  (Forall (fun r => (ads_ref r < length sample_heap)%nat) sample_normalized_ads /\
   Forall (fun r => (crm_ref r < length sample_heap)%nat) sample_normalized_crm) /\
  (exists out h',
      transformer.deduplicateAdsRecords sample_normalized_ads sample_heap = Some (out, h') /\
      transformer.deduplicateAdsRecords out h' = Some (out, h')) /\
  (exists out h',
      transformer.deduplicateCRMRecords sample_normalized_crm sample_heap = Some (out, h') /\
      transformer.deduplicateCRMRecords out h' = Some (out, h')).
Proof.
  split; [exact sample_allocated|].
  exact (dedup_idempotent sample_normalized_ads sample_normalized_crm sample_heap
           (proj1 sample_allocated) (proj2 sample_allocated)).
Defined.

Lemma channel_metrics_join_witness :
  Z.of_nat (length sample_normalized_crm) < 2 ^ 63 /\
  exists row,
    row ∈ metrics.CalculateChannelMetrics sample_normalized_ads sample_normalized_crm "" /\
    ChannelMetrics.Date row = "2025-08-01" /\
    ChannelMetrics.Channel row = "google_ads" /\
    ChannelMetrics.Leads row = 1 /\
    ChannelMetrics.ClosedWon row = 1 /\
    ChannelMetrics.Opportunities row = 1 /\
    ChannelMetrics.Revenue row = Float64.of_int 200.
Proof.
  assert (Z.of_nat (length sample_normalized_crm) < 2 ^ 63) as Hlen by (simpl; lia).
  split; [exact Hlen|].
  destruct (channel_metrics_join sample_normalized_ads sample_normalized_crm "" Hlen)
    as (Hrows & Hgroups & _).
  destruct (Hgroups "2025-08-01" "google_ads") as (row & Hin & Hd & Hc);
    [vm_compute; discriminate|].
  destruct (Hrows row Hin) as (_ & Hl & Hw & Ho & Hr).
  rewrite Hd, Hc in Hl, Hw, Ho, Hr.
  exists row. split_and!; [exact Hin|exact Hd|exact Hc| | | |].
  - rewrite Hl. vm_compute. reflexivity.
  - rewrite Hw. vm_compute. reflexivity.
  - rewrite Ho, Hw. vm_compute. reflexivity.
  - rewrite Hr. vm_compute. reflexivity.
Defined.

Lemma quality_report_scores_witness :
  Z.of_nat (length sample_normalized_ads) + Z.of_nat (length sample_normalized_crm) < 2 ^ 63 /\
  Z.of_nat (length (issues sample_heap sample_normalized_ads sample_normalized_crm)) < 2 ^ 63 /\
  let summary :=
    DataQualityReport.Summary
      (transformer.GenerateQualityReport sample_heap "" sample_normalized_ads
         sample_normalized_crm) in
  QualitySummary.TotalAdsRecords summary = 2 /\
  QualitySummary.ValidAdsRecords summary = 2 /\
  QualitySummary.AdsQualityScore summary = Float64.of_int 100 /\
  QualitySummary.OverallQualityScore summary = Float64.of_int 100.
Proof.
  assert (Z.of_nat (length sample_normalized_ads)
          + Z.of_nat (length sample_normalized_crm) < 2 ^ 63) as Hlen by (simpl; lia).
  assert (Z.of_nat (length (issues sample_heap sample_normalized_ads
                              sample_normalized_crm)) < 2 ^ 63) as Hissues
    by (vm_compute; reflexivity).
  split_and!; [exact Hlen|exact Hissues|].
  destruct (quality_report_scores sample_heap "" sample_normalized_ads
              sample_normalized_crm Hlen Hissues)
    as (Ht & Hv & _ & _ & Hs & _ & Ho & _).
  cbv zeta. split_and!.
  - rewrite Ht. reflexivity.
  - rewrite Hv. vm_compute. reflexivity.
  - rewrite Hs. vm_compute. reflexivity.
  - rewrite Ho. vm_compute. reflexivity.
Defined.

(** ** [safeDivide]: never a NaN *)

Lemma shr_1_nonneg mrs : 0 <= shr_m mrs -> 0 <= shr_m (shr_1 mrs).
Proof.
  destruct mrs as [m r s]. destruct m as [|[p|p|]|p]; simpl; lia.
Qed.

Lemma iter_pos_shr_1_nonneg p : forall mrs,
  0 <= shr_m mrs -> 0 <= shr_m (SpecFloat.iter_pos shr_1 p mrs).
Proof.
  induction p as [p IH|p IH|]; intros mrs Hm; simpl.
  - apply IH, IH, shr_1_nonneg, Hm.
  - apply IH, IH, Hm.
  - by apply shr_1_nonneg.
Qed.

Lemma shr_fexp_nonneg prec emax m e l :
  0 <= m -> 0 <= shr_m (shr_fexp prec emax m e l).1.
Proof.
  intros Hm. unfold shr_fexp, shr.
  assert (0 <= shr_m (shr_record_of_loc m l)) as H0
    by (by destruct l as [|[]]).
  destruct (fexp prec emax (Zdigits2 m + e) - e); simpl; try done.
  by apply iter_pos_shr_1_nonneg.
Qed.

Lemma round_nearest_even_nonneg m l : 0 <= m -> 0 <= round_nearest_even m l.
Proof.
  intros Hm. unfold round_nearest_even.
  destruct l as [|[]]; try lia. destruct (IntDef.Z.even m); lia.
Qed.

(** Rounding a non-negative significand gives a zero, a finite number or an
    infinity. *)
Lemma binary_round_aux_not_nan prec emax sx mx ex lx :
  0 <= mx -> binary_round_aux prec emax sx mx ex lx <> S754_nan.
Proof.
  intros Hm. unfold binary_round_aux.
  pose proof (shr_fexp_nonneg prec emax mx ex lx Hm) as H1.
  destruct (shr_fexp prec emax mx ex lx) as [mrs' e']. simpl in H1.
  pose proof (shr_fexp_nonneg prec emax
                (round_nearest_even (shr_m mrs') (loc_of_shr_record mrs')) e' loc_Exact
                (round_nearest_even_nonneg _ _ H1)) as H2.
  destruct (shr_fexp prec emax _ e' loc_Exact) as [mrs'' e'']. simpl in H2.
  destruct (shr_m mrs''); [done| |lia].
  by destruct (e'' <=? emax - prec).
Qed.

Lemma binary_normalize_not_nan prec emax m e szero :
  binary_normalize prec emax m e szero <> S754_nan.
Proof.
  unfold binary_normalize, binary_round.
  destruct m as [|p|p]; [done| |];
    destruct (shl_align _ _ _) as [mz ez];
    by apply binary_round_aux_not_nan.
Qed.

Lemma SFdiv_core_binary_nonneg prec emax m1 e1 m2 e2 :
  (SFdiv_core_binary prec emax (Z.pos m1) e1 (Z.pos m2) e2).1.1 >= 0.
Proof.
  unfold SFdiv_core_binary.
  set (s := e1 - e2 - _).
  set (m' := match s with 0 => Z.pos m1 | Z.pos _ => IntDef.Z.shiftl (Z.pos m1) s
                     | Z.neg _ => 0 end).
  assert (0 <= m') as Hm'.
  { unfold m'. destruct s; [lia| |lia]. change IntDef.Z.shiftl with Z.shiftl.
    apply Z.shiftl_nonneg. lia. }
  change IntDef.Z.div_eucl with Z.div_eucl.
  pose proof (Z_div_mod m' (Z.pos m2) eq_refl) as Hdiv.
  destruct (Z.div_eucl m' (Z.pos m2)) as [q r]. simpl.
  destruct Hdiv as [Heq Hr]. nia.
Qed.

Lemma Float64_mul_not_nan x y :
  Float64.is_finite x = true -> Float64.is_finite y = true ->
  Float64.mul x y <> S754_nan.
Proof.
  destruct x as [sx|sx| |sx mx ex], y as [sy|sy| |sy my ey]; try done.
  intros _ _. by apply binary_round_aux_not_nan.
Qed.

Lemma Float64_div_finite_not_nan x sy my ey :
  x <> S754_nan -> Float64.div x (S754_finite sy my ey) <> S754_nan.
Proof.
  destruct x as [sx|sx| |sx mx ex]; try done. intros _.
  unfold Float64.div, SFdiv.
  pose proof (SFdiv_core_binary_nonneg Float64.prec Float64.emax mx ex my ey) as Hq.
  destruct (SFdiv_core_binary _ _ _ _ _ _) as [[mz ez] lz]. simpl in Hq.
  apply binary_round_aux_not_nan. lia.
Qed.

Lemma Round_not_nan x : x <> S754_nan -> math.Round x <> S754_nan.
Proof.
  destruct x as [s|s| |s m e]; try done. intros _. unfold math.Round.
  repeat case_match; try done. apply binary_normalize_not_nan.
Qed.

Lemma of_int_1000 : Float64.of_int 1000 = S754_finite false 8796093022208000 (-43).
Proof. reflexivity. Qed.

(** X2.  [safeDivide] never returns a NaN, whatever its arguments (NaNs
    and infinities included). *)
Theorem safeDivide_never_nan (numerator denominator : float64) :
  math.IsNaN (metrics.safeDivide numerator denominator) = false.
Proof.
  unfold metrics.safeDivide.
  destruct (Float64.eqb denominator Float64.zero); [done|].
  set (result := Float64.div numerator denominator).
  destruct (math.IsNaN result) eqn:Hnan; [done|].
  destruct (math.IsInf result 0) eqn:Hinf; [done|]. cbn [orb].
  assert (Float64.is_finite result = true) as Hfin.
  { destruct result as [s|[]| |s m e]; try done. }
  rewrite of_int_1000.
  assert (forall x, x <> S754_nan -> math.IsNaN x = false) as Hnot
    by (by intros []).
  apply Hnot, Float64_div_finite_not_nan, Round_not_nan.
  rewrite <-of_int_1000. by apply Float64_mul_not_nan.
Qed.

(** ** The rows of the channel metrics *)

Section channel_row_fields.
Import metrics.

Lemma sum_Z_cons (z : Z) (l : list Z) : sum_Z (z :: l) = z + sum_Z l.
Proof. reflexivity. Qed.

Lemma sum_Z_nonneg (l : list Z) : Forall (fun z => 0 <= z) l -> 0 <= sum_Z l.
Proof. induction 1; rewrite ?sum_Z_cons; [done|lia]. Qed.

Lemma Forall_filter {A} (Q P : A -> Prop) `{!forall x, Decision (P x)} (l : list A) :
  Forall Q l -> Forall Q (filter P l).
Proof.
  rewrite !Forall_forall. intros Hall x [_ Hx]%list_elem_of_filter. by apply Hall.
Qed.

Lemma length_omap_le {A B} (f : A -> option B) (l : list A) :
  (length (omap f l) <= length l)%nat.
Proof.
  induction l as [|x l IH]; [done|].
  change (omap f (x :: l)) with (match f x with Some y => y :: omap f l | None => omap f l end).
  destruct (f x); simpl; lia.
Qed.

Lemma size_foldl_insert_le {A} (key : A -> string) (sel : A -> bool) (l : list A) :
  forall m : gmap string (list A),
  (size (foldl (fun m x =>
                  if sel x then <[key x := (default [] (m !! key x) ++ [x])%list]> m
                  else m) m l)
   <= size m + length l)%nat.
Proof.
  induction l as [|x l IH]; intros m; simpl; [lia|].
  etransitivity; [apply IH|]. destruct (sel x); [|lia].
  rewrite map_size_insert. destruct (m !! key x); unfold id; lia.
Qed.

Lemma sum_Z_filter_le {A} (f : A -> Z) (P : A -> Prop) `{!forall x, Decision (P x)}
    (l : list A) :
  Forall (fun x => 0 <= f x) l ->
  0 <= sum_Z (f <$> filter P l) <= sum_Z (f <$> l).
Proof.
  induction 1 as [|x l Hx Hl IH]; [done|].
  rewrite fmap_cons, sum_Z_cons. destruct (decide (P x)).
  - rewrite filter_cons_True by done. rewrite fmap_cons, sum_Z_cons. lia.
  - rewrite filter_cons_False by done. lia.
Qed.

(** The first loop of the body: integer totals without wrap-around as long
    as the sums fit. *)
Lemma ads_totals_sums g : forall a,
  Forall (fun r => 0 <= NormalizedAdsRecord.Clicks r
                   /\ 0 <= NormalizedAdsRecord.Impressions r) g ->
  0 <= totalClicks a -> 0 <= totalImpressions a ->
  totalClicks a + sum_Z (NormalizedAdsRecord.Clicks <$> g) < 2 ^ 63 ->
  totalImpressions a + sum_Z (NormalizedAdsRecord.Impressions <$> g) < 2 ^ 63 ->
  let a' := foldl ads_step a g in
  totalClicks a' = totalClicks a + sum_Z (NormalizedAdsRecord.Clicks <$> g) /\
  totalImpressions a' = totalImpressions a + sum_Z (NormalizedAdsRecord.Impressions <$> g) /\
  totalCost a' = foldl Float64.add (totalCost a) (NormalizedAdsRecord.Cost <$> g).
Proof.
  induction g as [|r g IH]; intros a Hall Hc Hi Bc Bi.
  - simpl. rewrite !Z.add_0_r. done.
  - apply Forall_cons in Hall as [[Hrc Hri] Hall].
    rewrite !fmap_cons, !sum_Z_cons in *. cbn [foldl].
    pose proof (sum_Z_nonneg (NormalizedAdsRecord.Clicks <$> g)) as Hsc.
    pose proof (sum_Z_nonneg (NormalizedAdsRecord.Impressions <$> g)) as Hsi.
    assert (0 <= sum_Z (NormalizedAdsRecord.Clicks <$> g)) as Hsc'.
    { apply Hsc, Forall_fmap. eapply Forall_impl; [exact Hall|]. by intros ? [? ?]. }
    assert (0 <= sum_Z (NormalizedAdsRecord.Impressions <$> g)) as Hsi'.
    { apply Hsi, Forall_fmap. eapply Forall_impl; [exact Hall|]. by intros ? [? ?]. }
    destruct (IH (ads_step a r)) as (E1 & E2 & E3);
      cbn [ads_step totalClicks totalImpressions totalCost];
      rewrite ?wrap64_small by lia; try lia; [done|].
    rewrite E1, E2, E3. cbn [ads_step totalClicks totalImpressions totalCost].
    rewrite !wrap64_small by lia.
    split_and!; [lia|lia|done].
Qed.

(** The row of a non-empty group, field by field. *)
Lemma group_metrics_row crm first rest :
  exists row,
    let g := first :: rest in
    group_metrics crm g = Some row /\
    ChannelMetrics.Date row = time.FormatDate (NormalizedAdsRecord.Date first) /\
    ChannelMetrics.Channel row = NormalizedAdsRecord.Channel first /\
    ChannelMetrics.Clicks row = totalClicks (foldl ads_step (AdsTotals 0 0 Float64.zero ∅) g) /\
    ChannelMetrics.Impressions row
      = totalImpressions (foldl ads_step (AdsTotals 0 0 Float64.zero ∅) g) /\
    ChannelMetrics.Cost row = totalCost (foldl ads_step (AdsTotals 0 0 Float64.zero ∅) g) /\
    ChannelMetrics.CPC row
      = safeDivide (ChannelMetrics.Cost row) (Float64.of_int (ChannelMetrics.Clicks row)) /\
    ChannelMetrics.CPA row
      = safeDivide (ChannelMetrics.Cost row) (Float64.of_int (ChannelMetrics.Leads row)) /\
    ChannelMetrics.CVRLeadToOpp row
      = safeDivide (Float64.of_int (ChannelMetrics.Opportunities row))
                   (Float64.of_int (ChannelMetrics.Leads row)) /\
    ChannelMetrics.CVROppToWon row
      = safeDivide (Float64.of_int (ChannelMetrics.ClosedWon row))
                   (Float64.of_int (ChannelMetrics.Opportunities row)) /\
    ChannelMetrics.ROAS row
      = safeDivide (ChannelMetrics.Revenue row) (ChannelMetrics.Cost row) /\
    ChannelMetrics.QualityScore row = Float64.zero /\
    ChannelMetrics.TotalRecords row = 0 /\
    ChannelMetrics.ValidRecords row = 0.
Proof. eexists. cbv zeta. split; [reflexivity|]. simpl. split_and!; reflexivity. Qed.

(** Every row comes from the group of its date and channel. *)
Lemma channel_row_group ads crm channel row :
  row ∈ CalculateChannelMetrics ads crm channel ->
  exists first rest,
    ads_group channel (ChannelMetrics.Date row) (ChannelMetrics.Channel row) ads
      = first :: rest /\
    group_metrics crm (first :: rest) = Some row /\
    ChannelMetrics.Date row = time.FormatDate (NormalizedAdsRecord.Date first) /\
    ChannelMetrics.Channel row = NormalizedAdsRecord.Channel first.
Proof.
  unfold CalculateChannelMetrics.
  intros ([key g] & Hin%elem_of_map_to_list & Hrow)%list_elem_of_omap. simpl in Hrow.
  destruct (group_ads_group _ _ _ _ Hin) as (first & rest & Hg & _ & Hgroup).
  destruct (group_metrics_row crm first rest) as (row' & Hrow' & Hd & Hc & _).
  cbv zeta in Hrow'. rewrite Hg, Hrow' in Hrow. injection Hrow as <-.
  exists first, rest. rewrite Hd, Hc, <-Hgroup. rewrite <-Hg in Hrow'. by rewrite <-Hg.
Qed.
End channel_row_fields.

(** X4.  In every row of [CalculateChannelMetrics] the five ratios are
    [safeDivide] of the fields the row itself reports; none of them is a NaN,
    and a ratio whose denominator is a count of zero is 0: no clicks gives
    CPC = 0, no leads gives CPA = 0 and a lead-to-opportunity rate of 0, no
    opportunities gives an opportunity-to-won rate of 0. *)
Theorem channel_metrics_ratios
    (ads : list NormalizedAdsRecord.t) (crm : list NormalizedCRMRecord.t)
    (channel : string) (row : ChannelMetrics.t) :
  row ∈ metrics.CalculateChannelMetrics ads crm channel ->
  (ChannelMetrics.CPC row
     = metrics.safeDivide (ChannelMetrics.Cost row) (Float64.of_int (ChannelMetrics.Clicks row)) /\
   ChannelMetrics.CPA row
     = metrics.safeDivide (ChannelMetrics.Cost row) (Float64.of_int (ChannelMetrics.Leads row)) /\
   ChannelMetrics.CVRLeadToOpp row
     = metrics.safeDivide (Float64.of_int (ChannelMetrics.Opportunities row))
                          (Float64.of_int (ChannelMetrics.Leads row)) /\
   ChannelMetrics.CVROppToWon row
     = metrics.safeDivide (Float64.of_int (ChannelMetrics.ClosedWon row))
                          (Float64.of_int (ChannelMetrics.Opportunities row)) /\
   ChannelMetrics.ROAS row
     = metrics.safeDivide (ChannelMetrics.Revenue row) (ChannelMetrics.Cost row)) /\
  Forall (fun ratio => math.IsNaN ratio = false)
    [ChannelMetrics.CPC row; ChannelMetrics.CPA row; ChannelMetrics.CVRLeadToOpp row;
     ChannelMetrics.CVROppToWon row; ChannelMetrics.ROAS row] /\
  (ChannelMetrics.Clicks row = 0 -> ChannelMetrics.CPC row = Float64.zero) /\
  (ChannelMetrics.Leads row = 0 ->
     ChannelMetrics.CPA row = Float64.zero /\ ChannelMetrics.CVRLeadToOpp row = Float64.zero) /\
  (ChannelMetrics.Opportunities row = 0 -> ChannelMetrics.CVROppToWon row = Float64.zero).
Proof.
  intros (first & rest & _ & Hrow & _)%channel_row_group.
  destruct (group_metrics_row crm first rest)
    as (row' & Hrow' & _ & _ & _ & _ & _ & E1 & E2 & E3 & E4 & E5 & _).
  cbv zeta in Hrow'. rewrite Hrow in Hrow'. injection Hrow' as <-.
  split_and!; try done.
  - rewrite E1, E2, E3, E4, E5. repeat constructor; apply safeDivide_never_nan.
  - intros H0. by rewrite E1, H0.
  - intros H0. by rewrite E2, E3, H0.
  - intros H0. by rewrite E4, H0.
Qed.

(** X5.  When the click and impression counts of the advertising records
    are not negative (as those of normalised records are) and their sums fit
    in an [int], the [Clicks] and [Impressions] of a row are the sums over
    the records of its group, and its [Cost] is their costs added up in input
    order. *)
Theorem channel_metrics_totals
    (ads : list NormalizedAdsRecord.t) (crm : list NormalizedCRMRecord.t)
    (channel : string) (row : ChannelMetrics.t) :
  Forall (fun r => 0 <= NormalizedAdsRecord.Clicks r
                   /\ 0 <= NormalizedAdsRecord.Impressions r) ads ->
  sum_Z (NormalizedAdsRecord.Clicks <$> ads) < 2 ^ 63 ->
  sum_Z (NormalizedAdsRecord.Impressions <$> ads) < 2 ^ 63 ->
  row ∈ metrics.CalculateChannelMetrics ads crm channel ->
  let g := ads_group channel (ChannelMetrics.Date row) (ChannelMetrics.Channel row) ads in
  ChannelMetrics.Clicks row = sum_Z (NormalizedAdsRecord.Clicks <$> g) /\
  ChannelMetrics.Impressions row = sum_Z (NormalizedAdsRecord.Impressions <$> g) /\
  ChannelMetrics.Cost row = sum_float (NormalizedAdsRecord.Cost <$> g).
Proof.
  intros Hall Bc Bi (first & rest & Hg & Hrow & _)%channel_row_group. cbv zeta.
  destruct (group_metrics_row crm first rest)
    as (row' & Hrow' & _ & _ & Ec & Ei & Ecost & _).
  cbv zeta in Hrow'. rewrite Hrow in Hrow'. injection Hrow' as <-.
  rewrite Hg.
  assert (Forall (fun r => 0 <= NormalizedAdsRecord.Clicks r) ads) as Hallc
    by (eapply Forall_impl; [exact Hall|]; by intros ? [? ?]).
  assert (Forall (fun r => 0 <= NormalizedAdsRecord.Impressions r) ads) as Halli
    by (eapply Forall_impl; [exact Hall|]; by intros ? [? ?]).
  assert (forall f, Forall (fun r => 0 <= f r) ads ->
            0 <= sum_Z (f <$> first :: rest) <= sum_Z (f <$> ads)) as Hle.
  { intros f Hf. rewrite <-Hg. unfold ads_group, selected.
    pose proof (sum_Z_filter_le f
      (fun r => channel = "" \/ NormalizedAdsRecord.Channel r = channel) ads Hf) as H1.
    pose proof (sum_Z_filter_le f
      (fun r => time.FormatDate (NormalizedAdsRecord.Date r) = ChannelMetrics.Date row
                /\ NormalizedAdsRecord.Channel r = ChannelMetrics.Channel row)
      (filter (fun r => channel = "" \/ NormalizedAdsRecord.Channel r = channel) ads)) as H2.
    assert (Forall (fun r => 0 <= f r)
              (filter (fun r => channel = "" \/ NormalizedAdsRecord.Channel r = channel) ads))
      as Hf' by (by apply Forall_filter).
    specialize (H2 Hf'). lia. }
  pose proof (Hle _ Hallc) as Hlc. pose proof (Hle _ Halli) as Hli.
  destruct (ads_totals_sums (first :: rest) (metrics.AdsTotals 0 0 Float64.zero ∅))
    as (E1 & E2 & E3); cbn [metrics.totalClicks metrics.totalImpressions]; try lia.
  { rewrite <-Hg. apply Forall_filter, Forall_filter, Hall. }
  rewrite Ec, Ei, Ecost, E1, E2, E3. done.
Qed.

(** X6.  With a channel filter, every row is a row of that channel; and
    whatever the filter, the group of a row (the selected records of its date
    and channel) is not empty, so that there are no more rows than
    advertising records. *)
Theorem channel_metrics_filter
    (ads : list NormalizedAdsRecord.t) (crm : list NormalizedCRMRecord.t)
    (channel : string) :
  let rows := metrics.CalculateChannelMetrics ads crm channel in
  (forall row, row ∈ rows ->
     (channel <> "" -> ChannelMetrics.Channel row = channel) /\
     exists r, r ∈ ads /\
       time.FormatDate (NormalizedAdsRecord.Date r) = ChannelMetrics.Date row /\
       NormalizedAdsRecord.Channel r = ChannelMetrics.Channel row) /\
  (length rows <= length ads)%nat /\
  (ads = [] -> rows = []).
Proof.
  cbv zeta. split_and!.
  - intros row (first & rest & Hg & _ & Hd & Hc)%channel_row_group.
    assert (first ∈ ads_group channel (ChannelMetrics.Date row)
                      (ChannelMetrics.Channel row) ads) as Hin
      by (rewrite Hg; by left).
    apply list_elem_of_filter in Hin as [[Hfd Hfc] Hsel].
    apply list_elem_of_filter in Hsel as [Hsel Hads].
    split; [|by exists first].
    intros Hne. destruct Hsel as [?|Hsel]; [done|]. by rewrite <-Hfc.
  - unfold metrics.CalculateChannelMetrics.
    etransitivity; [apply length_omap_le|]. rewrite length_map_to_list.
    etransitivity;
      [apply (size_foldl_insert_le metrics.group_key
                (fun r => bool_decide (channel = "")
                          || bool_decide (NormalizedAdsRecord.Channel r = channel)))|].
    rewrite map_size_empty. lia.
  - intros ->. done.
Qed.

(** ** The funnel *)

Section funnel_facts.
Import metrics.

Lemma funnel_group_step_selected utmCampaign m r :
  utmCampaign = "" \/ NormalizedAdsRecord.UTMCampaign r = utmCampaign ->
  funnel.group_step utmCampaign m r
  = <[NormalizedAdsRecord.UTMKey r :=
        (default [] (m !! NormalizedAdsRecord.UTMKey r) ++ [r])%list]> m.
Proof.
  intros Hsel. unfold funnel.group_step.
  destruct Hsel as [?|?]; [by rewrite bool_decide_eq_true_2|].
  rewrite (bool_decide_eq_true_2 (NormalizedAdsRecord.UTMCampaign r = utmCampaign)) by done.
  by rewrite orb_true_r.
Qed.

Lemma funnel_group_step_skipped utmCampaign m r :
  ~ (utmCampaign = "" \/ NormalizedAdsRecord.UTMCampaign r = utmCampaign) ->
  funnel.group_step utmCampaign m r = m.
Proof.
  intros Hsel. unfold funnel.group_step.
  rewrite !bool_decide_eq_false_2 by tauto. done.
Qed.

Lemma funnel_group_ads_from_lookup utmCampaign ads : forall m key,
  foldl (funnel.group_step utmCampaign) m ads !! key =
    match utm_group utmCampaign key ads with
    | [] => m !! key
    | extra => Some (default [] (m !! key) ++ extra)%list
    end.
Proof.
  unfold utm_group, campaign_selected.
  induction ads as [|r ads IH]; intros m key; simpl; [done|].
  rewrite IH.
  destruct (decide (utmCampaign = "" \/ NormalizedAdsRecord.UTMCampaign r = utmCampaign))
    as [Hsel|Hsel].
  - rewrite (filter_cons_True _ r) by done.
    rewrite funnel_group_step_selected by done.
    destruct (decide (NormalizedAdsRecord.UTMKey r = key)) as [Hk|Hk].
    + rewrite (filter_cons_True _ r) by done. subst key.
      rewrite lookup_insert_eq. simpl.
      destruct (filter _ (filter _ ads)); simpl; [done|].
      by rewrite <-app_assoc.
    + rewrite (filter_cons_False _ r) by done.
      by rewrite lookup_insert_ne.
  - rewrite (filter_cons_False _ r) by done.
    by rewrite funnel_group_step_skipped.
Qed.

(** The map of the groups holds, under each key, the selected records with
    that key, and nothing under a key no selected record has. *)
Lemma funnel_group_ads_lookup utmCampaign ads key :
  funnel.group_ads utmCampaign ads !! key =
    match utm_group utmCampaign key ads with
    | [] => None
    | g => Some g
    end.
Proof.
  unfold funnel.group_ads. rewrite funnel_group_ads_from_lookup, lookup_empty.
  by destruct (utm_group _ _ _).
Qed.

Lemma funnel_crm_step_attributed key t c :
  funnel.crm_step key t c =
    if decide (NormalizedCRMRecord.UTMKey c = key) then
      let stage := NormalizedCRMRecord.Stage c in
      if decide (stage = "lead") then
        CrmTally (incr (leads t)) (opportunities t) (closedWon t) (revenue t)
      else if decide (stage = "opportunity") then
        CrmTally (leads t) (incr (opportunities t)) (closedWon t) (revenue t)
      else if decide (stage = "closed_won") then
        CrmTally (leads t) (opportunities t) (incr (closedWon t))
                 (Float64.add (revenue t) (NormalizedCRMRecord.Amount c))
      else if decide (stage = "closed_lost") then
        CrmTally (leads t) (incr (opportunities t)) (closedWon t) (revenue t)
      else t
    else t.
Proof.
  unfold funnel.crm_step.
  destruct (decide (_ = key)) as [Hk|Hk].
  - rewrite (bool_decide_eq_true_2 _ Hk). simpl.
    repeat (case_decide;
            [rewrite bool_decide_eq_true_2 by done; done
            |rewrite bool_decide_eq_false_2 by done]).
    done.
  - by rewrite (bool_decide_eq_false_2 _ Hk).
Qed.

Ltac step_attributed :=
  repeat first
    [ rewrite filter_cons_True by (split; [assumption|congruence])
    | rewrite filter_cons_False by (intros [? ?]; congruence) ].

Lemma funnel_crm_fold key : forall crm t,
  0 <= leads t -> 0 <= opportunities t -> 0 <= closedWon t ->
  leads t + Z.of_nat (length crm) < 2 ^ 63 ->
  opportunities t + Z.of_nat (length crm) < 2 ^ 63 ->
  closedWon t + Z.of_nat (length crm) < 2 ^ 63 ->
  let t' := foldl (funnel.crm_step key) t crm in
  leads t' = leads t + Z.of_nat (length (attributed key "lead" crm)) /\
  opportunities t' = opportunities t + Z.of_nat (length (attributed key "opportunity" crm))
                     + Z.of_nat (length (attributed key "closed_lost" crm)) /\
  closedWon t' = closedWon t + Z.of_nat (length (attributed key "closed_won" crm)) /\
  revenue t' = foldl Float64.add (revenue t)
                 (NormalizedCRMRecord.Amount <$> attributed key "closed_won" crm).
Proof.
  unfold attributed.
  induction crm as [|c crm IH]; intros t Hl Ho Hw Bl Bo Bw; simpl.
  - rewrite !Z.add_0_r. done.
  - simpl in Bl, Bo, Bw.
    rewrite (funnel_crm_step_attributed key t c).
    destruct (decide (NormalizedCRMRecord.UTMKey c = key)) as [Hc|Hc]; simpl.
    + repeat case_decide; step_attributed; simpl;
        match goal with
        | |- context [foldl (funnel.crm_step key) ?t' crm] =>
            destruct (IH t') as (E1 & E2 & E3 & E4);
            [simpl; rewrite ?incr_small by lia; lia ..|];
            rewrite E1, E2, E3, E4; simpl; rewrite ?incr_small by lia;
            split_and!; try done; lia
        end.
    + rewrite !filter_cons_False by tauto. apply IH; lia.
Qed.

Lemma attributed_le key crm :
  Z.of_nat (length (attributed key "opportunity" crm))
  + Z.of_nat (length (attributed key "closed_lost" crm))
  + Z.of_nat (length (attributed key "closed_won" crm)) <= Z.of_nat (length crm).
Proof.
  unfold attributed.
  induction crm as [|c crm IH]; simpl; [lia|].
  destruct (decide (NormalizedCRMRecord.UTMKey c = key)) as [Hc|Hc].
  - destruct (decide (NormalizedCRMRecord.Stage c = "opportunity"));
      [|destruct (decide (NormalizedCRMRecord.Stage c = "closed_lost"));
        [|destruct (decide (NormalizedCRMRecord.Stage c = "closed_won"))]];
      step_attributed; simpl; lia.
  - rewrite !filter_cons_False by tauto. lia.
Qed.

(** The row of a non-empty group of the funnel. *)
Lemma funnel_group_metrics_spec crm key first rest :
  Z.of_nat (length crm) < 2 ^ 63 ->
  exists row,
    funnel.group_metrics crm key (first :: rest) = Some row /\
    FunnelMetrics.UTMCampaign row = NormalizedAdsRecord.UTMCampaign first /\
    FunnelMetrics.UTMSource row = NormalizedAdsRecord.UTMSource first /\
    FunnelMetrics.UTMMedium row = NormalizedAdsRecord.UTMMedium first /\
    FunnelMetrics.Leads row = Z.of_nat (length (attributed key "lead" crm)) /\
    FunnelMetrics.ClosedWon row = Z.of_nat (length (attributed key "closed_won" crm)) /\
    FunnelMetrics.Opportunities row
      = Z.of_nat (length (attributed key "opportunity" crm))
        + Z.of_nat (length (attributed key "closed_lost" crm))
        + Z.of_nat (length (attributed key "closed_won" crm)) /\
    FunnelMetrics.Revenue row
      = sum_float (NormalizedCRMRecord.Amount <$> attributed key "closed_won" crm).
Proof.
  intros Hlen. eexists. split; [reflexivity|].
  cbn [FunnelMetrics.UTMCampaign FunnelMetrics.UTMSource FunnelMetrics.UTMMedium
       FunnelMetrics.Leads FunnelMetrics.ClosedWon FunnelMetrics.Opportunities
       FunnelMetrics.Revenue].
  pose proof (length_filter
    (fun c => NormalizedCRMRecord.UTMKey c = key /\ NormalizedCRMRecord.Stage c = "lead") crm)
    as Hlead.
  pose proof (attributed_le key crm) as Hle.
  destruct (funnel_crm_fold key crm (CrmTally 0 0 0 Float64.zero))
    as (El & Eo & Ew & Er); simpl; try lia.
  simpl in El, Eo, Ew, Er.
  split_and!; try done.
  rewrite Eo, Ew. apply wrap64_small. lia.
Qed.

Lemma omap_all_Some {A B} (f : A -> option B) (P : A -> B -> Prop) (l : list A) :
  (forall x, x ∈ l -> exists y, f x = Some y /\ P x y) ->
  Forall2 P l (omap f l).
Proof.
  induction l as [|x l IH]; intros Hall; [constructor|].
  destruct (Hall x) as (y & Hy & HP); [by left|].
  change (omap f (x :: l)) with (match f x with Some y => y :: omap f l | None => omap f l end).
  rewrite Hy. constructor; [done|]. apply IH. intros x' Hx'. apply Hall. by right.
Qed.
End funnel_facts.

(** X1.  [CalculateFunnelMetrics] returns one row for each attribution key
    of the (selected) advertising records: the rows correspond one to one to
    the distinct keys.  The row of a key shows the campaign, source and
    medium of the first selected record with that key, and counts the CRM
    records with exactly that key, whatever their date and campaign: [Leads]
    is the number of them at stage "lead", [ClosedWon] the number at stage
    "closed_won", [Revenue] the sum of the amounts of the latter, and
    [Opportunities] the number at stages "opportunity" and "closed_lost" plus
    [ClosedWon]. *)
Theorem funnel_metrics_join
    (ads : list NormalizedAdsRecord.t) (crm : list NormalizedCRMRecord.t)
    (utmCampaign : string) :
  Z.of_nat (length crm) < 2 ^ 63 ->
  exists keys : list string,
    NoDup keys /\
    (forall key, key ∈ keys <-> utm_group utmCampaign key ads <> []) /\
    Forall2
      (fun key row =>
         exists first rest,
           utm_group utmCampaign key ads = first :: rest /\
           FunnelMetrics.UTMCampaign row = NormalizedAdsRecord.UTMCampaign first /\
           FunnelMetrics.UTMSource row = NormalizedAdsRecord.UTMSource first /\
           FunnelMetrics.UTMMedium row = NormalizedAdsRecord.UTMMedium first /\
           FunnelMetrics.Leads row = Z.of_nat (length (attributed key "lead" crm)) /\
           FunnelMetrics.ClosedWon row
             = Z.of_nat (length (attributed key "closed_won" crm)) /\
           FunnelMetrics.Opportunities row
             = Z.of_nat (length (attributed key "opportunity" crm))
               + Z.of_nat (length (attributed key "closed_lost" crm))
               + FunnelMetrics.ClosedWon row /\
           FunnelMetrics.Revenue row
             = sum_float (NormalizedCRMRecord.Amount <$> attributed key "closed_won" crm))
      keys (metrics.CalculateFunnelMetrics ads crm utmCampaign).
Proof.
  intros Hlen. unfold metrics.CalculateFunnelMetrics.
  set (groups := metrics.funnel.group_ads utmCampaign ads).
  exists (map_to_list groups).*1. split_and!.
  - apply NoDup_fst_map_to_list.
  - intros key. rewrite list_elem_of_fmap. split.
    + intros ([key' g] & -> & Hin%elem_of_map_to_list). simpl.
      unfold groups in Hin. rewrite funnel_group_ads_lookup in Hin.
      by destruct (utm_group utmCampaign key' ads).
    + intros Hne. exists (key, utm_group utmCampaign key ads). split; [done|].
      apply elem_of_map_to_list. unfold groups. rewrite funnel_group_ads_lookup.
      by destruct (utm_group utmCampaign key ads).
  - apply Forall2_fmap_l. apply omap_all_Some.
    intros [key g] Hin%elem_of_map_to_list. simpl.
    unfold groups in Hin. rewrite funnel_group_ads_lookup in Hin.
    destruct (utm_group utmCampaign key ads) as [|first rest] eqn:Hg; [done|].
    injection Hin as <-.
    destruct (funnel_group_metrics_spec crm key first rest Hlen)
      as (row & Hrow & Hc & Hs & Hm & Hl & Hw & Ho & Hr).
    exists row. split; [done|]. exists first, rest.
    split_and!; try done. by rewrite Hw.
Qed.

Section funnel_row_fields.
Import metrics.


End funnel_row_fields.


(** X3.  [safeDivide] returns a zero unless both its arguments are finite
    and different from zero: a zero, infinite or NaN numerator or denominator
    gives 0 (of either sign: 0 divided by a negative number is -0). *)
Theorem safeDivide_degenerate (numerator denominator : float64) :
  Float64.is_finite numerator = false \/ Float64.is_finite denominator = false \/
  Float64.eqb numerator Float64.zero = true \/
  Float64.eqb denominator Float64.zero = true ->
  exists sign, metrics.safeDivide numerator denominator = S754_zero sign.
Proof.
  intros Hdeg.
  destruct numerator as [sn|sn| |sn mn en], denominator as [sd|sd| |sd md ed];
    try (by eexists); try (by destruct sd; eexists);
    try (by destruct sn, sd; eexists).
  exfalso. destruct Hdeg as [?|[?|[Hz|Hz]]]; try done.
  - by destruct sn.
  - by destruct sd.
Qed.

(** ** The rules of the field validators *)

Section validator_rules.
Import transformer.

Ltac rule_verdict :=
  intros;
  unfold channel_ok, email_ok, stage_ok, pointer_ok,
    text_or_unknown, text_ok, count_ok, amount_ok, utm_segment;
  repeat first [case_decide | case_match];
  first [apply fail_writes | apply pass_writes];
  rewrite ?bool_decide_eq_true_2, ?bool_decide_eq_false_2 by (done || naive_solver);
  simpl; try done.

Lemma validateAndParseDate_rule dateStr f q h :
  writes_verdict (validateAndParseDate dateStr f q) f q h
    (fun result fq =>
       result = date_value dateStr /\ FieldQuality.IsValid fq = date_ok dateStr).
Proof.
  unfold validateAndParseDate, date_value, date_ok, text_ok. case_decide as Hb.
  - rewrite (bool_decide_eq_false_2 (strings.TrimSpace dateStr <> "")) by tauto.
    cbn [andb]. by apply fail_writes.
  - rewrite (bool_decide_eq_true_2 (strings.TrimSpace dateStr <> "")) by done.
    cbn [andb]. destruct (parse_first _ dateStr) as [date|] eqn:Hp.
    + rewrite bool_decide_eq_true_2 by eauto. by apply pass_writes.
    + rewrite bool_decide_eq_false_2 by (by intros [? ?]). by apply fail_writes.
Qed.

Lemma validateCampaignID_rule id f q h :
  writes_verdict (validateCampaignID id f q) f q h
    (fun result fq => result = text_or_unknown id /\ FieldQuality.IsValid fq = text_ok id).
Proof. unfold validateCampaignID. rule_verdict. Qed.

Lemma validateChannel_rule channel f q h :
  writes_verdict (validateChannel channel f q) f q h
    (fun result fq =>
       result = text_or_unknown channel /\ FieldQuality.IsValid fq = channel_ok channel).
Proof. unfold validateChannel. rule_verdict. Qed.

Lemma validateClicks_rule clicks f q h :
  writes_verdict (validateClicks clicks f q) f q h
    (fun result fq =>
       result = (if count_ok clicks then clicks else 0)
       /\ FieldQuality.IsValid fq = count_ok clicks).
Proof.
  unfold validateClicks, count_ok. rewrite (Z.leb_antisym clicks 0).
  destruct (clicks <? 0); [apply fail_writes|apply pass_writes]; done.
Qed.

Lemma validateImpressions_rule impressions f q h :
  writes_verdict (validateImpressions impressions f q) f q h
    (fun result fq =>
       result = (if count_ok impressions then impressions else 0)
       /\ FieldQuality.IsValid fq = count_ok impressions).
Proof.
  unfold validateImpressions, count_ok. rewrite (Z.leb_antisym impressions 0).
  destruct (impressions <? 0); [apply fail_writes|apply pass_writes]; done.
Qed.

Lemma validateCost_rule cost f q h :
  writes_verdict (validateCost cost f q) f q h
    (fun result fq =>
       result = (if amount_ok cost then cost else Float64.zero)
       /\ FieldQuality.IsValid fq = amount_ok cost).
Proof.
  unfold validateCost, amount_ok.
  destruct (Float64.ltb cost Float64.zero); [apply fail_writes|apply pass_writes]; done.
Qed.

Lemma validateOpportunityID_rule id f q h :
  writes_verdict (validateOpportunityID id f q) f q h
    (fun result fq => result = text_or_unknown id /\ FieldQuality.IsValid fq = text_ok id).
Proof. unfold validateOpportunityID. rule_verdict. Qed.

Lemma validateEmail_rule email f q h :
  writes_verdict (validateEmail email f q) f q h
    (fun result fq => result = email /\ FieldQuality.IsValid fq = email_ok email).
Proof.
  unfold validateEmail, email_ok, text_ok. case_decide.
  - apply fail_writes. by rewrite bool_decide_eq_false_2 by naive_solver.
  - rewrite bool_decide_eq_true_2 by done.
    destruct (emailRegex_MatchString email); [apply pass_writes|apply fail_writes]; done.
Qed.

Lemma validateStage_rule stage f q h :
  writes_verdict (validateStage stage f q) f q h
    (fun result fq =>
       result = text_or_unknown stage /\ FieldQuality.IsValid fq = stage_ok stage).
Proof. unfold validateStage. rule_verdict. Qed.

Lemma validateAmount_rule amount f q h :
  writes_verdict (validateAmount amount f q) f q h
    (fun result fq =>
       result = (if amount_ok amount then amount else Float64.zero)
       /\ FieldQuality.IsValid fq = amount_ok amount).
Proof.
  unfold validateAmount, amount_ok.
  destruct (Float64.ltb amount Float64.zero); [apply fail_writes|apply pass_writes]; done.
Qed.

Lemma validateAndParseDateTime_rule dateTimeStr f q h :
  writes_verdict (validateAndParseDateTime dateTimeStr f q) f q h
    (fun result fq =>
       result = datetime_value dateTimeStr
       /\ FieldQuality.IsValid fq = datetime_ok dateTimeStr).
Proof.
  unfold validateAndParseDateTime, datetime_value, datetime_ok, text_ok. case_decide as Hb.
  - rewrite (bool_decide_eq_false_2 (strings.TrimSpace dateTimeStr <> "")) by tauto.
    cbn [andb]. by apply fail_writes.
  - rewrite (bool_decide_eq_true_2 (strings.TrimSpace dateTimeStr <> "")) by done.
    cbn [andb]. destruct (parse_first _ dateTimeStr) as [date|] eqn:Hp.
    + rewrite bool_decide_eq_true_2 by eauto. by apply pass_writes.
    + rewrite bool_decide_eq_false_2 by (by intros [? ?]). by apply fail_writes.
Qed.

Lemma validateUTMCampaign_rule campaign f q h :
  writes_verdict (validateUTMCampaign campaign f q) f q h
    (fun result fq =>
       result = text_or_unknown campaign /\ FieldQuality.IsValid fq = text_ok campaign).
Proof. unfold validateUTMCampaign. rule_verdict. Qed.

Lemma validateUTMSource_rule source f q h :
  writes_verdict (validateUTMSource source f q) f q h
    (fun result fq =>
       result = utm_segment source /\ FieldQuality.IsValid fq = pointer_ok source).
Proof. unfold validateUTMSource. rule_verdict. Qed.

Lemma validateUTMMedium_rule medium f q h :
  writes_verdict (validateUTMMedium medium f q) f q h
    (fun result fq =>
       result = utm_segment medium /\ FieldQuality.IsValid fq = pointer_ok medium).
Proof. unfold validateUTMMedium. rule_verdict. Qed.
End validator_rules.

(** ** The values of a normalised record *)

Section normalize_values.
Import transformer RecordQuality.

Lemma failures_snoc rules b :
  failures (rules ++ [b]) = (failures rules + if b then 0 else 1)%nat.
Proof.
  unfold failures. rewrite filter_app, length_app. f_equal. by destruct b.
Qed.

(** One validator run on the accumulator of a record under construction,
    with the rules checked so far. *)
Lemma validator_step_rule {A} (c : M (A * RecordQuality.t)) f q h0 id m P fs rules :
  writes_verdict c f q (h0 ++ [m]) P ->
  accumulates h0 id fs q m ->
  count_invalid m = failures rules ->
  f ∉ fs -> (length fs < 100)%nat ->
  exists result fq q',
    P result fq /\
    c (h0 ++ [m]) = Some ((result, q'), h0 ++ [<[f := fq]> m]) /\
    accumulates h0 id (f :: fs) q' (<[f := fq]> m) /\
    count_invalid (<[f := fq]> m) = failures (rules ++ [FieldQuality.IsValid fq]).
Proof.
  intros Hw Hacc Hcnt Hf Hlen.
  destruct (validator_step c f q h0 id m P fs Hw Hacc Hf Hlen)
    as (result & fq & q' & HP & Hc & Hacc' & _).
  exists result, fq, q'. split_and!; try done.
  assert (m !! f = None) as Hfresh.
  { apply not_elem_of_dom. rewrite (acc_dom _ _ _ _ _ Hacc).
    by rewrite elem_of_list_to_set. }
  rewrite failures_snoc, count_invalid_insert, Hcnt by done.
  destruct (FieldQuality.IsValid fq); lia.
Qed.

Ltac fresh_field := apply (bool_decide_unpack _); vm_compute; exact I.

Ltac run_rule Hw Hacc Hcnt result fq q HP :=
  let E := fresh "E" in
  let Hacc' := fresh "Hacc" in
  let Hcnt' := fresh "Hcnt" in
  destruct (validator_step_rule _ _ _ _ _ _ _ _ _ (Hw _ _) Hacc Hcnt)
    as (result & fq & q & HP & E & Hacc' & Hcnt');
  [fresh_field | simpl; lia |];
  rewrite E; clear E; simpl;
  clear Hacc Hcnt; rename Hacc' into Hacc; rename Hcnt' into Hcnt.

Lemma generateUTMKey_text_or_unknown campaign source medium :
  generateUTMKey (text_or_unknown campaign) source medium
  = text_or_unknown campaign +:+ "|" +:+ source +:+ "|" +:+ medium.
Proof.
  unfold generateUTMKey, text_or_unknown, text_ok.
  case_bool_decide as Hc.
  - by rewrite decide_False by done.
  - by rewrite TrimSpace_unknown.
Qed.

Lemma normalizeAdsRecord_values i record h :
  exists r entries,
    normalizeAdsRecord i record h = Some (r, h ++ [entries]) /\
    ads_values record r.
Proof.
  unfold normalizeAdsRecord, make_map.
  unfold mbind at 1. unfold M_bind at 1.
  pose proof (accumulates_init h ("ads_" +:+ fmt.d (Z.of_nat i))) as Hacc.
  assert (count_invalid ∅ = failures []) as Hcnt by apply count_invalid_empty.
  unfold mbind, M_bind.
  run_rule (validateAndParseDate_rule (AdsRecord.Date record) "date") Hacc Hcnt v1 fq1 q1 H1.
  run_rule (validateCampaignID_rule (AdsRecord.CampaignID record) "campaign_id") Hacc Hcnt v2 fq2 q2 H2.
  run_rule (validateChannel_rule (AdsRecord.Channel record) "channel") Hacc Hcnt v3 fq3 q3 H3.
  run_rule (validateClicks_rule (AdsRecord.Clicks record) "clicks") Hacc Hcnt v4 fq4 q4 H4.
  run_rule (validateImpressions_rule (AdsRecord.Impressions record) "impressions") Hacc Hcnt v5 fq5 q5 H5.
  run_rule (validateCost_rule (AdsRecord.Cost record) "cost") Hacc Hcnt v6 fq6 q6 H6.
  run_rule (validateUTMCampaign_rule (AdsRecord.UTMCampaign record) "utm_campaign") Hacc Hcnt v7 fq7 q7 H7.
  run_rule (validateUTMSource_rule (AdsRecord.UTMSource record) "utm_source") Hacc Hcnt v8 fq8 q8 H8.
  run_rule (validateUTMMedium_rule (AdsRecord.UTMMedium record) "utm_medium") Hacc Hcnt v9 fq9 q9 H9.
  eexists _, _. split; [reflexivity|].
  destruct Hacc as [Href Hid Hcount Hdom Hbound].
  destruct H1 as [-> R1], H2 as [-> R2], H3 as [-> R3], H4 as [-> R4], H5 as [-> R5],
    H6 as [-> R6], H7 as [-> R7], H8 as [-> R8], H9 as [-> R9].
  split;
    cbn -[date_value datetime_value text_or_unknown utm_segment generateUTMKey
          failures ads_rules count_ok amount_ok];
    try reflexivity.
  - apply generateUTMKey_text_or_unknown.
  - rewrite Hcount, Hcnt. simpl app. unfold ads_rules.
    by rewrite R1, R2, R3, R4, R5, R6, R7, R8, R9.
Qed.

Lemma normalizeCRMRecord_values i record h :
  exists r entries,
    normalizeCRMRecord i record h = Some (r, h ++ [entries]) /\
    crm_values record r.
Proof.
  unfold normalizeCRMRecord, make_map.
  unfold mbind at 1. unfold M_bind at 1.
  pose proof (accumulates_init h ("crm_" +:+ fmt.d (Z.of_nat i))) as Hacc.
  assert (count_invalid ∅ = failures []) as Hcnt by apply count_invalid_empty.
  unfold mbind, M_bind.
  run_rule (validateOpportunityID_rule (CRMRecord.OpportunityID record) "opportunity_id") Hacc Hcnt v1 fq1 q1 H1.
  run_rule (validateEmail_rule (CRMRecord.ContactEmail record) "contact_email") Hacc Hcnt v2 fq2 q2 H2.
  run_rule (validateStage_rule (CRMRecord.Stage record) "stage") Hacc Hcnt v3 fq3 q3 H3.
  run_rule (validateAmount_rule (CRMRecord.Amount record) "amount") Hacc Hcnt v4 fq4 q4 H4.
  run_rule (validateAndParseDateTime_rule (CRMRecord.CreatedAt record) "created_at") Hacc Hcnt v5 fq5 q5 H5.
  run_rule (validateUTMCampaign_rule (CRMRecord.UTMCampaign record) "utm_campaign") Hacc Hcnt v6 fq6 q6 H6.
  run_rule (validateUTMSource_rule (CRMRecord.UTMSource record) "utm_source") Hacc Hcnt v7 fq7 q7 H7.
  run_rule (validateUTMMedium_rule (CRMRecord.UTMMedium record) "utm_medium") Hacc Hcnt v8 fq8 q8 H8.
  eexists _, _. split; [reflexivity|].
  destruct Hacc as [Href Hid Hcount Hdom Hbound].
  destruct H1 as [-> R1], H2 as [-> R2], H3 as [-> R3], H4 as [-> R4], H5 as [-> R5],
    H6 as [-> R6], H7 as [-> R7], H8 as [-> R8].
  split;
    cbn -[date_value datetime_value text_or_unknown utm_segment generateUTMKey
          failures crm_rules count_ok amount_ok];
    try reflexivity.
  - apply generateUTMKey_text_or_unknown.
  - rewrite Hcount, Hcnt. simpl app. unfold crm_rules.
    by rewrite R1, R2, R3, R4, R5, R6, R7, R8.
Qed.

(** The loops: the record at position [k] of the batch is made from the raw
    record at position [k]. *)
Lemma normalizeAdsFrom_values records : forall i normalized h,
  exists rs h',
    normalizeAdsFrom i records normalized h = Some ((normalized ++ rs)%list, h') /\
    Forall2 ads_values records rs.
Proof.
  induction records as [|record records IH]; intros i normalized h; simpl.
  - exists [], h. rewrite app_nil_r. by split.
  - destruct (normalizeAdsRecord_values i record h) as (r & m & Hr & Hv).
    destruct (IH (S i) (normalized ++ [r])%list (h ++ [m])%list) as (rs & h' & Hrs & Hall).
    exists (r :: rs), h'. split; [|by constructor].
    unfold mbind, M_bind. rewrite Hr, Hrs. by rewrite <-app_assoc.
Qed.

Lemma normalizeCRMFrom_values records : forall i normalized h,
  exists rs h',
    normalizeCRMFrom i records normalized h = Some ((normalized ++ rs)%list, h') /\
    Forall2 crm_values records rs.
Proof.
  induction records as [|record records IH]; intros i normalized h; simpl.
  - exists [], h. rewrite app_nil_r. by split.
  - destruct (normalizeCRMRecord_values i record h) as (r & m & Hr & Hv).
    destruct (IH (S i) (normalized ++ [r])%list (h ++ [m])%list) as (rs & h' & Hrs & Hall).
    exists (r :: rs), h'. split; [|by constructor].
    unfold mbind, M_bind. rewrite Hr, Hrs. by rewrite <-app_assoc.
Qed.
End normalize_values.

(** ** The batches the normalisers return *)

Section normalized_batches.
Import transformer.

Lemma keep_first_complete {A} (key : A -> string) (l : list A) : forall seen x,
  x ∈ l -> key x ∈ seen \/ exists y, y ∈ keep_first key seen l /\ key y = key x.
Proof.
  induction l as [|z l IH]; intros seen x; [by intros ?%elem_of_nil|].
  simpl. intros [->|Hx]%elem_of_cons.
  - case_decide; [by left|]. right. exists z. split; [by left|done].
  - case_decide.
    + by apply IH.
    + destruct (IH ({[key z]} ∪ seen) x Hx) as [Hin|(y & Hy & Hk)].
      * apply elem_of_union in Hin as [->%elem_of_singleton|?]; [|by left].
        right. exists z. split; [by left|done].
      * right. exists y. split; [by right|done].
Qed.

Lemma keep_first_length {A} (key : A -> string) (l : list A) : forall seen,
  (length (keep_first key seen l) <= length l)%nat.
Proof.
  induction l as [|z l IH]; intros seen; simpl; [done|].
  case_decide; simpl; [specialize (IH seen)|specialize (IH ({[key z]} ∪ seen))]; lia.
Qed.

Lemma StronglySorted_lt_NoDup (l : list nat) : StronglySorted lt l -> NoDup l.
Proof.
  induction 1 as [|x l Hs IH Hall]; constructor; [|done].
  intros Hx. rewrite Forall_forall in Hall. specialize (Hall x Hx). lia.
Qed.

(** A function of the record that is a function of its position. *)
Lemma pick_fmap {A B} (f : A -> B) (g : nat -> B) (l : list A) (idx : list nat) :
  (forall i, i ∈ idx -> is_Some (l !! i)) ->
  (forall k x, l !! k = Some x -> f x = g k) ->
  f <$> pick l idx = g <$> idx.
Proof.
  intros Hidx Hfg. unfold pick. induction idx as [|i idx IH]; [done|].
  destruct (Hidx i) as [x Hx]; [by left|].
  change (omap (fun i => l !! i) (i :: idx))
    with (match l !! i with Some y => y :: omap (fun i => l !! i) idx
                       | None => omap (fun i => l !! i) idx end).
  rewrite Hx, !fmap_cons, (Hfg _ _ Hx). f_equal. apply IH.
  intros j Hj. apply Hidx. by right.
Qed.

Lemma first_indices_lookup {A} (key : A -> string) (l : list A) i :
  i ∈ first_indices key ∅ 0 l -> is_Some (l !! i).
Proof.
  intros (k & x & -> & Hx & _)%first_indices_spec. by exists x.
Qed.

(** The two normalisers, with the values of the records of the batch
    before deduplication. *)
Lemma NormalizeAdsRecords_values raws h :
  exists rs ms ms',
    NormalizeAdsRecords raws h
      = Some (pick rs (first_indices adsKey ∅ 0 rs), (h ++ ms')%list) /\
    ads_batch raws 0 (length h) rs ms /\
    settled (first_indices adsKey ∅ 0 rs) ms ms' /\
    Forall2 ads_values raws rs.
Proof.
  destruct (NormalizeAdsRecords_spec raws h)
    as (rs & ms & ms' & Hnorm & Hbatch & _ & Hrun & Hsettled).
  destruct (normalizeAdsFrom_values raws 0 [] h) as (rs' & h' & Hnorm' & Hall).
  simpl in Hnorm'. rewrite Hnorm in Hnorm'. injection Hnorm' as <- _.
  by exists rs, ms, ms'.
Qed.

Lemma NormalizeCRMRecords_values raws h :
  exists rs ms ms',
    NormalizeCRMRecords raws h
      = Some (pick rs (first_indices NormalizedCRMRecord.OpportunityID ∅ 0 rs),
              (h ++ ms')%list) /\
    crm_batch raws 0 (length h) rs ms /\
    settled (first_indices NormalizedCRMRecord.OpportunityID ∅ 0 rs) ms ms' /\
    Forall2 crm_values raws rs.
Proof.
  destruct (NormalizeCRMRecords_spec raws h)
    as (rs & ms & ms' & Hnorm & Hbatch & _ & Hrun & Hsettled).
  destruct (normalizeCRMFrom_values raws 0 [] h) as (rs' & h' & Hnorm' & Hall).
  simpl in Hnorm'. rewrite Hnorm in Hnorm'. injection Hnorm' as <- _.
  by exists rs, ms, ms'.
Qed.

(** A record of the batch, with the raw record it is made from. *)
Lemma ads_batch_values raws i0 ref0 rs ms k r :
  ads_batch raws i0 ref0 rs ms -> Forall2 ads_values raws rs -> rs !! k = Some r ->
  exists raw m, raws !! k = Some raw /\ ms !! k = Some m /\
    ads_normal raw (i0 + k)%nat (ref0 + k)%nat r m /\ ads_values raw r.
Proof.
  intros Hbatch Hall Hk.
  destruct (ads_batch_lookup _ _ _ _ _ _ _ Hbatch Hk) as (raw & m & Hraw & Hm & Hn).
  exists raw, m. split_and!; try done.
  by eapply Forall2_lookup_lr.
Qed.

Lemma crm_batch_values raws i0 ref0 rs ms k r :
  crm_batch raws i0 ref0 rs ms -> Forall2 crm_values raws rs -> rs !! k = Some r ->
  exists raw m, raws !! k = Some raw /\ ms !! k = Some m /\
    crm_normal raw (i0 + k)%nat (ref0 + k)%nat r m /\ crm_values raw r.
Proof.
  intros Hbatch Hall Hk.
  destruct (crm_batch_lookup _ _ _ _ _ _ _ Hbatch Hk) as (raw & m & Hraw & Hm & Hn).
  exists raw, m. split_and!; try done.
  by eapply Forall2_lookup_lr.
Qed.

Lemma failures_0 rules : failures rules = 0%nat <-> Forall (fun b => b = true) rules.
Proof.
  unfold failures. induction rules as [|[] rules IH].
  - split; [constructor|done].
  - rewrite filter_cons_False by done. rewrite IH. split.
    + by constructor.
    + by intros [_ ?]%Forall_cons.
  - rewrite filter_cons_True by done. simpl. split; [done|].
    by intros [? _]%Forall_cons.
Qed.

Lemma text_ok_text_or_unknown s : text_ok (text_or_unknown s) = true.
Proof.
  unfold text_or_unknown. destruct (text_ok s) eqn:Hs; [done|].
  unfold text_ok. apply bool_decide_eq_true_2. by rewrite TrimSpace_unknown.
Qed.
End normalized_batches.

(** X7.  Every advertising record [NormalizeAdsRecords] returns is made
    from one raw record, whose index its record id carries, field by field:
    the date is the parsed date, or the zero time when the text is blank or
    does not parse; a blank campaign id, channel or campaign gives "unknown"
    and any other text is kept as it is (an unknown channel included);
    negative clicks, impressions and cost give 0 and other values are kept;
    source and medium are trimmed, "unknown" when missing or blank; the
    attribution key is the three attribution values joined by bars; the
    error count is the number of rules the raw record fails. *)
Theorem ads_record_fields (raws : list AdsRecord.t) (h : heap) :
  exists out h',
    transformer.NormalizeAdsRecords raws h = Some (out, h') /\
    forall r, r ∈ out ->
      exists i raw,
        raws !! i = Some raw /\
        RecordQuality.RecordID (NormalizedAdsRecord.Quality r)
          = "ads_" +:+ fmt.d (Z.of_nat i) /\
        ads_values raw r.
Proof.
  destruct (NormalizeAdsRecords_values raws h) as (rs & ms & ms' & Hrun & Hbatch & _ & Hall).
  eexists _, _. split; [exact Hrun|].
  intros r (k & _ & Hk)%pick_elem.
  destruct (ads_batch_values _ _ _ _ _ _ _ Hbatch Hall Hk) as (raw & m & Hraw & _ & Hn & Hv).
  exists k, raw. split_and!; [done| |done]. apply Hn.
Qed.

(** X8.  Every CRM record [NormalizeCRMRecords] returns is made from one raw
    record, whose index its record id carries: a blank opportunity id or
    stage gives "unknown" and any other text is kept (an unknown stage
    included); the e-mail address is kept whatever it is; a negative amount
    gives 0; the creation time is the parsed time, or the zero time; the
    attribution values are as for advertising records. *)
Theorem crm_record_fields (raws : list CRMRecord.t) (h : heap) :
  exists out h',
    transformer.NormalizeCRMRecords raws h = Some (out, h') /\
    forall r, r ∈ out ->
      exists i raw,
        raws !! i = Some raw /\
        RecordQuality.RecordID (NormalizedCRMRecord.Quality r)
          = "crm_" +:+ fmt.d (Z.of_nat i) /\
        crm_values raw r.
Proof.
  destruct (NormalizeCRMRecords_values raws h) as (rs & ms & ms' & Hrun & Hbatch & _ & Hall).
  eexists _, _. split; [exact Hrun|].
  intros r (k & _ & Hk)%pick_elem.
  destruct (crm_batch_values _ _ _ _ _ _ _ Hbatch Hall Hk) as (raw & m & Hraw & _ & Hn & Hv).
  exists k, raw. split_and!; [done| |done]. apply Hn.
Qed.

(** X9.  A record the normalisers return is valid exactly when its raw
    record passes every rule: for an advertising record, a date that parses,
    a campaign id and a campaign that are not blank, a known channel, clicks
    and impressions that are not negative, a cost that is not below zero, a
    source and a medium that are present and not blank; for a CRM record, an
    opportunity id and a campaign that are not blank, a well-formed e-mail
    address, a known stage, an amount that is not below zero, a creation time
    that parses, a source and a medium that are present and not blank. *)
Theorem valid_iff_rules_pass
    (ads : list AdsRecord.t) (crm : list CRMRecord.t) (h : heap) :
  (exists out h',
      transformer.NormalizeAdsRecords ads h = Some (out, h') /\
      forall r, r ∈ out ->
        exists i raw,
          ads !! i = Some raw /\
          RecordQuality.RecordID (NormalizedAdsRecord.Quality r)
            = "ads_" +:+ fmt.d (Z.of_nat i) /\
          (RecordQuality.IsValid (NormalizedAdsRecord.Quality r) = true
           <-> Forall (fun b => b = true) (ads_rules raw))) /\
  (exists out h',
      transformer.NormalizeCRMRecords crm h = Some (out, h') /\
      forall r, r ∈ out ->
        exists i raw,
          crm !! i = Some raw /\
          RecordQuality.RecordID (NormalizedCRMRecord.Quality r)
            = "crm_" +:+ fmt.d (Z.of_nat i) /\
          (RecordQuality.IsValid (NormalizedCRMRecord.Quality r) = true
           <-> Forall (fun b => b = true) (crm_rules raw))).
Proof.
  split.
  - destruct (NormalizeAdsRecords_values ads h) as (rs & ms & ms' & Hrun & Hbatch & _ & Hall).
    eexists _, _. split; [exact Hrun|].
    intros r (k & _ & Hk)%pick_elem.
    destruct (ads_batch_values _ _ _ _ _ _ _ Hbatch Hall Hk)
      as (raw & m & Hraw & _ & Hn & Hv).
    exists k, raw. split_and!; [done|apply Hn|].
    rewrite (an_valid _ _ _ _ _ Hn), (av_errors _ _ Hv), <-failures_0.
    rewrite Z.eqb_eq. lia.
  - destruct (NormalizeCRMRecords_values crm h) as (rs & ms & ms' & Hrun & Hbatch & _ & Hall).
    eexists _, _. split; [exact Hrun|].
    intros r (k & _ & Hk)%pick_elem.
    destruct (crm_batch_values _ _ _ _ _ _ _ Hbatch Hall Hk)
      as (raw & m & Hraw & _ & Hn & Hv).
    exists k, raw. split_and!; [done|apply Hn|].
    rewrite (cn_valid _ _ _ _ _ Hn), (cv_errors _ _ Hv), <-failures_0.
    rewrite Z.eqb_eq. lia.
Qed.

(** X10.  The records the normalisers return are within range whatever the
    raw values: clicks and impressions are not negative, cost and amount are
    not below zero, and campaign id, channel, opportunity id, stage and
    campaign are not blank. *)
Theorem normalized_values_in_range
    (ads : list AdsRecord.t) (crm : list CRMRecord.t) (h : heap) :
  (exists out h',
      transformer.NormalizeAdsRecords ads h = Some (out, h') /\
      forall r, r ∈ out ->
        0 <= NormalizedAdsRecord.Clicks r /\
        0 <= NormalizedAdsRecord.Impressions r /\
        Float64.ltb (NormalizedAdsRecord.Cost r) Float64.zero = false /\
        text_ok (NormalizedAdsRecord.CampaignID r) = true /\
        text_ok (NormalizedAdsRecord.Channel r) = true /\
        text_ok (NormalizedAdsRecord.UTMCampaign r) = true) /\
  (exists out h',
      transformer.NormalizeCRMRecords crm h = Some (out, h') /\
      forall r, r ∈ out ->
        Float64.ltb (NormalizedCRMRecord.Amount r) Float64.zero = false /\
        text_ok (NormalizedCRMRecord.OpportunityID r) = true /\
        text_ok (NormalizedCRMRecord.Stage r) = true /\
        text_ok (NormalizedCRMRecord.UTMCampaign r) = true).
Proof.
  assert (forall x, Float64.ltb (if amount_ok x then x else Float64.zero) Float64.zero = false)
    as Hamount.
  { intros x. unfold amount_ok. by destruct (Float64.ltb x Float64.zero) eqn:Hx. }
  split.
  - destruct (NormalizeAdsRecords_values ads h) as (rs & ms & ms' & Hrun & Hbatch & _ & Hall).
    eexists _, _. split; [exact Hrun|].
    intros r (k & _ & Hk)%pick_elem.
    destruct (ads_batch_values _ _ _ _ _ _ _ Hbatch Hall Hk)
      as (raw & m & Hraw & _ & Hn & Hv).
    rewrite (av_clicks _ _ Hv), (av_impressions _ _ Hv), (av_cost _ _ Hv),
      (av_campaign_id _ _ Hv), (av_channel _ _ Hv), (av_utm_campaign _ _ Hv).
    split_and!; try apply text_ok_text_or_unknown; try apply Hamount.
    + unfold count_ok. destruct (0 <=? AdsRecord.Clicks raw) eqn:Hc; lia.
    + unfold count_ok. destruct (0 <=? AdsRecord.Impressions raw) eqn:Hc; lia.
  - destruct (NormalizeCRMRecords_values crm h) as (rs & ms & ms' & Hrun & Hbatch & _ & Hall).
    eexists _, _. split; [exact Hrun|].
    intros r (k & _ & Hk)%pick_elem.
    destruct (crm_batch_values _ _ _ _ _ _ _ Hbatch Hall Hk)
      as (raw & m & Hraw & _ & Hn & Hv).
    rewrite (cv_amount _ _ Hv), (cv_opportunity_id _ _ Hv), (cv_stage _ _ Hv),
      (cv_utm_campaign _ _ Hv).
    split_and!; try apply text_ok_text_or_unknown; try apply Hamount.
Qed.

(** ** Identity of the records returned *)

Section normalized_identity.
Import transformer.

Lemma record_id_inj (prefix : string) :
  Inj (=) (=) (fun k : nat => prefix +:+ fmt.d (Z.of_nat k)).
Proof.
  intros j k Heq. apply Nat2Z.inj. apply (inj pretty).
  induction prefix as [|c prefix IH]; simpl in Heq; [done|].
  injection Heq as Heq. by apply IH.
Qed.

Lemma offset_inj (n : nat) : Inj (=) (=) (fun k : nat => (n + k)%nat).
Proof. intros j k. lia. Qed.

Lemma adsKey_values raw r : ads_values raw r -> adsKey r = raw_ads_key raw.
Proof.
  intros Hv. unfold adsKey, raw_ads_key.
  by rewrite (av_date _ _ Hv), (av_campaign_id _ _ Hv), (av_channel _ _ Hv).
Qed.

Lemma pick_first_indices_length {A} (key : A -> string) (l : list A) :
  (length (pick l (first_indices key ∅ 0 l)) <= length l)%nat.
Proof. rewrite <-keep_first_pick. apply keep_first_length. Qed.
End normalized_identity.

(** X11.  The record ids of the records a normaliser returns are pairwise
    distinct: each is the prefix "ads_" (or "crm_") followed by the index
    of the raw record in the input. *)
Theorem record_ids_distinct
    (ads : list AdsRecord.t) (crm : list CRMRecord.t) (h : heap) :
  (exists out h',
      transformer.NormalizeAdsRecords ads h = Some (out, h') /\
      NoDup ((fun r => RecordQuality.RecordID (NormalizedAdsRecord.Quality r)) <$> out)) /\
  (exists out h',
      transformer.NormalizeCRMRecords crm h = Some (out, h') /\
      NoDup ((fun r => RecordQuality.RecordID (NormalizedCRMRecord.Quality r)) <$> out)).
Proof.
  split.
  - destruct (NormalizeAdsRecords_spec ads h)
      as (rs & ms & ms' & _ & Hbatch & _ & Hrun & _).
    eexists _, _. split; [exact Hrun|].
    rewrite (pick_fmap _ (fun k : nat => "ads_" +:+ fmt.d (Z.of_nat k))).
    + apply (@NoDup_fmap_2 _ _ _ (record_id_inj "ads_")),
        StronglySorted_lt_NoDup, first_indices_sorted.
    + apply first_indices_lookup.
    + intros k r Hk.
      destruct (ads_batch_lookup _ _ _ _ _ _ _ Hbatch Hk) as (raw & m & _ & _ & Hn).
      apply Hn.
  - destruct (NormalizeCRMRecords_spec crm h)
      as (rs & ms & ms' & _ & Hbatch & _ & Hrun & _).
    eexists _, _. split; [exact Hrun|].
    rewrite (pick_fmap _ (fun k : nat => "crm_" +:+ fmt.d (Z.of_nat k))).
    + apply (@NoDup_fmap_2 _ _ _ (record_id_inj "crm_")),
        StronglySorted_lt_NoDup, first_indices_sorted.
    + apply first_indices_lookup.
    + intros k r Hk.
      destruct (crm_batch_lookup _ _ _ _ _ _ _ Hbatch Hk) as (raw & m & _ & _ & Hn).
      apply Hn.
Qed.

(** X12.  A normaliser returns one record for each distinct business key
    of its input: the keys of the records returned are pairwise distinct,
    every raw record has its key among them, and each of them is the key of
    a raw record; so there are no more records returned than raw records.
    The key of a raw advertising record is its date as read (YYYY-MM-DD,
    0001-01-01 when it does not parse), its campaign id and its channel
    ("unknown" when blank); that of a raw CRM record is its opportunity id
    ("unknown" when blank). *)
Theorem normalized_keys
    (ads : list AdsRecord.t) (crm : list CRMRecord.t) (h : heap) :
  (exists out h',
      transformer.NormalizeAdsRecords ads h = Some (out, h') /\
      NoDup (transformer.adsKey <$> out) /\
      (forall raw, raw ∈ ads -> exists r, r ∈ out /\ transformer.adsKey r = raw_ads_key raw) /\
      (forall r, r ∈ out -> exists raw, raw ∈ ads /\ transformer.adsKey r = raw_ads_key raw) /\
      (length out <= length ads)%nat) /\
  (exists out h',
      transformer.NormalizeCRMRecords crm h = Some (out, h') /\
      NoDup (NormalizedCRMRecord.OpportunityID <$> out) /\
      (forall raw, raw ∈ crm ->
         exists r, r ∈ out /\ NormalizedCRMRecord.OpportunityID r = raw_crm_key raw) /\
      (forall r, r ∈ out ->
         exists raw, raw ∈ crm /\ NormalizedCRMRecord.OpportunityID r = raw_crm_key raw) /\
      (length out <= length crm)%nat).
Proof.
  split.
  - destruct (NormalizeAdsRecords_values ads h)
      as (rs & ms & ms' & Hrun & Hbatch & _ & Hall).
    eexists _, _. split; [exact Hrun|].
    rewrite <-keep_first_pick. split_and!.
    + apply keep_first_NoDup.
    + intros raw [k Hk]%list_elem_of_lookup.
      destruct (Forall2_lookup_l _ _ _ _ _ Hall Hk) as (r & Hr & Hv).
      destruct (keep_first_complete transformer.adsKey rs ∅ r) as [?|(y & Hy & Hkey)];
        [by eapply list_elem_of_lookup_2|set_solver|].
      exists y. split; [done|]. rewrite Hkey. by apply adsKey_values.
    + intros r [_ [k Hk]%list_elem_of_lookup]%keep_first_keys.
      destruct (Forall2_lookup_r _ _ _ _ _ Hall Hk) as (raw & Hraw & Hv).
      exists raw. split; [by eapply list_elem_of_lookup_2|by apply adsKey_values].
    + etransitivity; [apply keep_first_length|].
      by rewrite (Forall2_length _ _ _ Hall).
  - destruct (NormalizeCRMRecords_values crm h)
      as (rs & ms & ms' & Hrun & Hbatch & _ & Hall).
    eexists _, _. split; [exact Hrun|].
    rewrite <-keep_first_pick. split_and!.
    + apply keep_first_NoDup.
    + intros raw [k Hk]%list_elem_of_lookup.
      destruct (Forall2_lookup_l _ _ _ _ _ Hall Hk) as (r & Hr & Hv).
      destruct (keep_first_complete NormalizedCRMRecord.OpportunityID rs ∅ r)
        as [?|(y & Hy & Hkey)];
        [by eapply list_elem_of_lookup_2|set_solver|].
      exists y. split; [done|]. rewrite Hkey. apply Hv.
    + intros r [_ [k Hk]%list_elem_of_lookup]%keep_first_keys.
      destruct (Forall2_lookup_r _ _ _ _ _ Hall Hk) as (raw & Hraw & Hv).
      exists raw. split; [by eapply list_elem_of_lookup_2|apply Hv].
    + etransitivity; [apply keep_first_length|].
      by rewrite (Forall2_length _ _ _ Hall).
Qed.

(** X13.  A normaliser leaves the maps that exist when it is called as they
    are and allocates one new map for each raw record (the records it drops
    as duplicates included): the heap it returns is the initial heap followed
    by as many maps as there are raw records.  Every record returned refers
    to one of the new maps, and no two of them to the same one. *)
Theorem normalizers_allocate
    (ads : list AdsRecord.t) (crm : list CRMRecord.t) (h : heap) :
  (exists out ms,
      transformer.NormalizeAdsRecords ads h = Some (out, (h ++ ms)%list) /\
      length ms = length ads /\
      NoDup (ads_ref <$> out) /\
      Forall (fun r => (length h <= ads_ref r < length h + length ads)%nat) out) /\
  (exists out ms,
      transformer.NormalizeCRMRecords crm h = Some (out, (h ++ ms)%list) /\
      length ms = length crm /\
      NoDup (crm_ref <$> out) /\
      Forall (fun r => (length h <= crm_ref r < length h + length crm)%nat) out).
Proof.
  split.
  - destruct (NormalizeAdsRecords_spec ads h)
      as (rs & ms & ms' & _ & Hbatch & _ & Hrun & Hsettled).
    pose proof (ads_batch_ref _ _ _ _ _ Hbatch) as Href.
    destruct Hbatch as (Hlr & Hlm & _). destruct Hsettled as [Hlen _].
    eexists _, ms'. split_and!; [exact Hrun|lia| |].
    + rewrite (pick_fmap _ (fun k : nat => (length h + k)%nat)).
      * apply (@NoDup_fmap_2 _ _ _ (offset_inj (length h))),
          StronglySorted_lt_NoDup, first_indices_sorted.
      * apply first_indices_lookup.
      * exact Href.
    + apply Forall_forall. intros r (k & _ & Hk)%pick_elem.
      rewrite (Href _ _ Hk). apply lookup_lt_Some in Hk. lia.
  - destruct (NormalizeCRMRecords_spec crm h)
      as (rs & ms & ms' & _ & Hbatch & _ & Hrun & Hsettled).
    pose proof (crm_batch_ref _ _ _ _ _ Hbatch) as Href.
    destruct Hbatch as (Hlr & Hlm & _). destruct Hsettled as [Hlen _].
    eexists _, ms'. split_and!; [exact Hrun|lia| |].
    + rewrite (pick_fmap _ (fun k : nat => (length h + k)%nat)).
      * apply (@NoDup_fmap_2 _ _ _ (offset_inj (length h))),
          StronglySorted_lt_NoDup, first_indices_sorted.
      * apply first_indices_lookup.
      * exact Href.
    + apply Forall_forall. intros r (k & _ & Hk)%pick_elem.
      rewrite (Href _ _ Hk). apply lookup_lt_Some in Hk. lia.
Qed.

(** ** Dates: parsing and formatting *)

Section dates.
Import time.

(** The character of a decimal digit. *)
Lemma digit_char c v :
  digit c = Some v -> 0 <= v <= 9 /\ c = Ascii.ascii_of_N (Z.to_N (48 + v)).
Proof.
  destruct c as [[] [] [] [] [] [] [] []]; vm_compute; intros [= <-]; done.
Qed.

Lemma atoi_digit c r v : digit c = Some v -> atoi (String c r) = digits_value 0 (String c r).
Proof.
  destruct c as [[] [] [] [] [] [] [] []]; vm_compute in *; try discriminate; done.
Qed.

Lemma substring_all s : String.substring 0 (String.length s) s = s.
Proof. induction s as [|c s IH]; simpl; [done|]. by rewrite IH. Qed.

Lemma skip_separator sep value rest :
  sep <> " "%char -> skip value (String sep "") = Some rest -> value = String sep rest.
Proof.
  intros Hsep. unfold skip. cbn [skip_from].
  rewrite decide_False by done.
  destruct value as [|v value']; [done|].
  case_decide as Hv; [|done]. intros [= <-]. by subst.
Qed.

Lemma getnum_fixed value n rest :
  getnum value true = Some (n, rest) ->
  exists c1 c2 a1 a2,
    value = String c1 (String c2 rest) /\
    digit c1 = Some a1 /\ digit c2 = Some a2 /\ n = a1 * 10 + a2.
Proof.
  unfold getnum. destruct value as [|c1 [|c2 r]]; [done| |].
  - by destruct (digit c1).
  - destruct (digit c1) as [a1|] eqn:H1; [|done].
    destruct (digit c2) as [a2|] eqn:H2; [|done].
    intros [= <- <-]. by exists c1, c2, a1, a2.
Qed.

(** A text read under a date layout, whatever its separator: four digits,
    the separator, two digits, the separator, two digits. *)
Lemma parse_date_chunks sep s t :
  sep <> " "%char ->
  parse_chunks [stdLongYear; literal (String sep ""); stdZeroMonth;
                literal (String sep ""); stdZeroDay] s parse_init = Some t ->
  exists c1 c2 c3 c4 m1 m2 d1 d2 y1 y2 y3 y4 a1 a2 b1 b2,
    s = String c1 (String c2 (String c3 (String c4 (String sep
          (String m1 (String m2 (String sep (String d1 (String d2 ""))))))))) /\
    digit c1 = Some y1 /\ digit c2 = Some y2 /\ digit c3 = Some y3 /\ digit c4 = Some y4 /\
    digit m1 = Some a1 /\ digit m2 = Some a2 /\ digit d1 = Some b1 /\ digit d2 = Some b2 /\
    in_range 1 (a1 * 10 + a2) 13 = true /\
    t = Date (((y1 * 10 + y2) * 10 + y3) * 10 + y4) (a1 * 10 + a2) (b1 * 10 + b2) 0 0 0 0.
Proof.
  intros Hsep.
  destruct s as [|c1 [|c2 [|c3 [|c4 r4]]]]; try done.
  cbn [parse_chunks]. unfold take, drop.
  cbn [String.length String.substring Nat.ltb Nat.leb Nat.sub orb negb].
  unfold isDigit. cbn [String.get].
  destruct (digit c1) as [y1|] eqn:H1; [|done].
  rewrite (atoi_digit _ _ _ H1). cbn [digits_value]. rewrite H1.
  destruct (digit c2) as [y2|] eqn:H2; [|done].
  destruct (digit c3) as [y3|] eqn:H3; [|done].
  destruct (digit c4) as [y4|] eqn:H4; [|by destruct r4].
  replace (String.substring 0 0 r4) with EmptyString by (by destruct r4).
  cbn [digits_value mbind option_bind].
  rewrite bool_decide_eq_true_2 by eauto. cbn [negb].
  rewrite Nat.sub_0_r, substring_all.
  destruct (skip r4 (String sep "")) as [r5|] eqn:Hs1; [|done].
  apply (skip_separator _ _ _ Hsep) in Hs1 as ->. cbn [mbind option_bind].
  destruct (getnum r5 true) as [[month r7]|] eqn:Hm; [|done].
  apply getnum_fixed in Hm as (m1 & m2 & a1 & a2 & -> & Hm1 & Hm2 & ->).
  cbn [mbind option_bind].
  destruct (in_range 1 (a1 * 10 + a2) 13) eqn:Hrange; [|done].
  destruct (skip r7 (String sep "")) as [r8|] eqn:Hs2; [|done].
  apply (skip_separator _ _ _ Hsep) in Hs2 as ->. cbn [mbind option_bind].
  destruct (getnum r8 true) as [[day r10]|] eqn:Hd; [|done].
  apply getnum_fixed in Hd as (d1 & d2 & b1 & b2 & -> & Hd1 & Hd2 & ->).
  cbn [mbind option_bind].
  case_decide as Hend; [|done]. subst r10. intros [= <-].
  exists c1, c2, c3, c4, m1, m2, d1, d2, y1, y2, y3, y4, a1, a2, b1, b2.
  split_and!; try done.
Qed.

Local Abbreviation dchar v := (Ascii.ascii_of_N (Z.to_N (48 + v))).

Lemma appendInt_year_table :
  Forall (fun y =>
            appendInt y 4
            = String (dchar (y / 1000)) (String (dchar (y / 100 mod 10))
                (String (dchar (y / 10 mod 10)) (String (dchar (y mod 10)) ""))))
         (seqZ 0 10000).
Proof. apply (bool_decide_unpack _). vm_compute. exact I. Qed.

Lemma appendInt_two_table :
  Forall (fun n =>
            appendInt n 2 = String (dchar (n / 10)) (String (dchar (n mod 10)) ""))
         (seqZ 0 100).
Proof. apply (bool_decide_unpack _). vm_compute. exact I. Qed.

Lemma appendInt_year y1 y2 y3 y4 :
  0 <= y1 <= 9 -> 0 <= y2 <= 9 -> 0 <= y3 <= 9 -> 0 <= y4 <= 9 ->
  appendInt (((y1 * 10 + y2) * 10 + y3) * 10 + y4) 4
  = String (dchar y1) (String (dchar y2) (String (dchar y3) (String (dchar y4) ""))).
Proof.
  intros ? ? ? ?. pose proof appendInt_year_table as Htable.
  rewrite Forall_forall in Htable.
  rewrite (Htable (((y1 * 10 + y2) * 10 + y3) * 10 + y4)) by (apply elem_of_seqZ; lia).
  repeat f_equal; Z.div_mod_to_equations; lia.
Qed.

Lemma appendInt_two a1 a2 :
  0 <= a1 <= 9 -> 0 <= a2 <= 9 ->
  appendInt (a1 * 10 + a2) 2 = String (dchar a1) (String (dchar a2) "").
Proof.
  intros ? ?. pose proof appendInt_two_table as Htable.
  rewrite Forall_forall in Htable.
  rewrite (Htable (a1 * 10 + a2)) by (apply elem_of_seqZ; lia).
  repeat f_equal; Z.div_mod_to_equations; lia.
Qed.

Lemma digit_not_slash c v : digit c = Some v -> c <> "/"%char.
Proof. by intros Hc ->. Qed.

(** A date read under one of the two date layouts is formatted back as the
    text it was read from, with the separators of the first layout. *)
Lemma Parse_date_format sep s t :
  sep = "-"%char \/ sep = "/"%char ->
  Parse [stdLongYear; literal (String sep ""); stdZeroMonth;
         literal (String sep ""); stdZeroDay] s = Some t ->
  FormatDate t = slash_to_dash s /\
  Hour t = 0 /\ Minute t = 0 /\ Second t = 0 /\ Nanosecond t = 0 /\
  0 <= Year t <= 9999 /\ 1 <= Month t <= 12 /\
  1 <= Day t <= daysIn (Month t) (Year t).
Proof.
  intros Hsep. unfold Parse.
  destruct (parse_chunks _ s parse_init) as [t0|] eqn:Hchunks; [|done].
  apply parse_date_chunks in Hchunks
    as (c1 & c2 & c3 & c4 & m1 & m2 & d1 & d2 & y1 & y2 & y3 & y4 & a1 & a2 & b1 & b2
        & -> & H1 & H2 & H3 & H4 & Hm1 & Hm2 & Hd1 & Hd2 & Hrange & ->);
    [|by destruct Hsep as [->| ->]].
  cbn [mbind option_bind Year Month Day Hour Minute Second Nanosecond].
  pose proof (digit_char _ _ H1) as [? E1]. pose proof (digit_char _ _ H2) as [? E2].
  pose proof (digit_char _ _ H3) as [? E3]. pose proof (digit_char _ _ H4) as [? E4].
  pose proof (digit_char _ _ Hm1) as [? Em1]. pose proof (digit_char _ _ Hm2) as [? Em2].
  pose proof (digit_char _ _ Hd1) as [? Ed1]. pose proof (digit_char _ _ Hd2) as [? Ed2].
  unfold in_range in Hrange. apply andb_true_iff in Hrange as [Hlo%Z.leb_le Hhi%Z.ltb_lt].
  destruct (a1 * 10 + a2 <? 0) eqn:Hneg; [apply Z.ltb_lt in Hneg; lia|].
  destruct (b1 * 10 + b2 <? 0) eqn:Hnegd; [apply Z.ltb_lt in Hnegd; lia|].
  destruct (b1 * 10 + b2 <? 1) eqn:Hday; [done|]. apply Z.ltb_ge in Hday.
  destruct (daysIn _ _ <? b1 * 10 + b2) eqn:Hdays; [done|]. apply Z.ltb_ge in Hdays.
  cbn [orb]. intros [= <-].
  cbn [Year Month Day Hour Minute Second Nanosecond].
  split_and!; try done; try lia.
  unfold FormatDate. cbn [Year Month Day].
  rewrite appendInt_year, !appendInt_two by done.
  cbn [slash_to_dash].
  rewrite <-E1, <-E2, <-E3, <-E4, <-Em1, <-Em2, <-Ed1, <-Ed2.
  rewrite (decide_False (P := c1 = "/"%char)), (decide_False (P := c2 = "/"%char)),
    (decide_False (P := c3 = "/"%char)), (decide_False (P := c4 = "/"%char)),
    (decide_False (P := m1 = "/"%char)), (decide_False (P := m2 = "/"%char)),
    (decide_False (P := d1 = "/"%char)), (decide_False (P := d2 = "/"%char))
    by (by eapply digit_not_slash).
  by destruct Hsep as [-> | ->].
Qed.
End dates.

Lemma date_round_trip_format (s : string) (t : time.Time) :
  transformer.parse_first [time.layout_date_dash; time.layout_date_slash] s = Some t ->
  time.FormatDate t = slash_to_dash s /\
  time.Hour t = 0 /\ time.Minute t = 0 /\ time.Second t = 0 /\ time.Nanosecond t = 0 /\
  0 <= time.Year t <= 9999 /\ 1 <= time.Month t <= 12 /\
  1 <= time.Day t <= time.daysIn (time.Month t) (time.Year t).
Proof.
  cbn [transformer.parse_first].
  destruct (time.Parse time.layout_date_dash s) as [t1|] eqn:Hdash.
  - intros [= <-]. apply (Parse_date_format "-" s t1); [by left|exact Hdash].
  - destruct (time.Parse time.layout_date_slash s) as [t2|] eqn:Hslash; [|done].
    intros [= <-]. apply (Parse_date_format "/" s t2); [by right|exact Hslash].
Qed.

(** X14.  Reading a date and formatting it gives back the text: a date text
    the validator accepts, under either layout, is formatted as YYYY-MM-DD
    into the same text with its slashes turned into dashes.  The time read
    is a midnight, in the years 0 to 9999, of a day that exists. *)
Theorem date_round_trip (s : string) (t : time.Time) :
  transformer.parse_first [time.layout_date_dash; time.layout_date_slash] s = Some t ->
  time.FormatDate t = slash_to_dash s /\
  time.Hour t = 0 /\ time.Minute t = 0 /\ time.Second t = 0 /\ time.Nanosecond t = 0 /\
  0 <= time.Year t <= 9999 /\ 1 <= time.Month t <= 12 /\
  1 <= time.Day t <= time.daysIn (time.Month t) (time.Year t).
Proof. apply date_round_trip_format. Qed.

(** ** Business keys of raw records *)

Lemma date_value_format s :
  time.FormatDate (date_value s)
  = if date_ok s then slash_to_dash s else "0001-01-01".
Proof.
  unfold date_value. destruct (date_ok s) eqn:Hok; [|done].
  unfold date_ok in Hok. apply andb_true_iff in Hok as [_ Hp%bool_decide_eq_true_1].
  destruct Hp as [t Ht]. rewrite Ht. simpl.
  by destruct (date_round_trip_format s t Ht).
Qed.

(** X15.  The raw record whose normalised form is returned is, for each
    business key, the first of the input with that key: the record of index
    [i] is among those returned exactly when no earlier raw record has its
    key.  The key of a raw advertising record starts with its date text when
    that is readable (slashes turned into dashes) and with 0001-01-01
    otherwise, so that all the records with an unreadable date count as
    records of the same day. *)
Theorem raw_first_occurrence_wins (raws : list AdsRecord.t) (h : heap) :
  (exists out h',
      transformer.NormalizeAdsRecords raws h = Some (out, h') /\
      forall i raw, raws !! i = Some raw ->
        (exists r, r ∈ out /\
           RecordQuality.RecordID (NormalizedAdsRecord.Quality r)
             = "ads_" +:+ fmt.d (Z.of_nat i))
        <-> (forall j raw', (j < i)%nat -> raws !! j = Some raw' ->
               raw_ads_key raw' <> raw_ads_key raw)) /\
  (forall raw,
     raw_ads_key raw
     = (if date_ok (AdsRecord.Date raw)
        then slash_to_dash (AdsRecord.Date raw) else "0001-01-01") +:+ "|"
         +:+ text_or_unknown (AdsRecord.CampaignID raw) +:+ "|"
         +:+ text_or_unknown (AdsRecord.Channel raw)).
Proof.
  split; [|intros raw; unfold raw_ads_key; by rewrite date_value_format].
  destruct (NormalizeAdsRecords_values raws h)
    as (rs & ms & ms' & Hrun & Hbatch & _ & Hall).
  eexists _, _. split; [exact Hrun|].
  intros i raw Hraw.
  destruct (Forall2_lookup_l _ _ _ _ _ Hall Hraw) as (ri & Hri & Hvi).
  assert (forall k r, rs !! k = Some r ->
            RecordQuality.RecordID (NormalizedAdsRecord.Quality r)
            = "ads_" +:+ fmt.d (Z.of_nat k)) as Hid.
  { intros k r Hk.
    destruct (ads_batch_lookup _ _ _ _ _ _ _ Hbatch Hk) as (raw' & m & _ & _ & Hn).
    apply Hn. }
  assert ((exists r, r ∈ pick rs (first_indices transformer.adsKey ∅ 0 rs) /\
             RecordQuality.RecordID (NormalizedAdsRecord.Quality r)
             = "ads_" +:+ fmt.d (Z.of_nat i))
          <-> i ∈ first_indices transformer.adsKey ∅ 0 rs) as ->.
  { split.
    - intros (r & (k & Hin & Hk)%pick_elem & Hr).
      rewrite (Hid _ _ Hk) in Hr. apply (record_id_inj "ads_") in Hr. by subst.
    - intros Hin. exists ri. split; [|by apply Hid].
      apply pick_elem. by exists i. }
  rewrite first_indices_first_with_key. unfold first_with_key. split.
  - intros (x & Hx & Hfirst) j raw' Hj Hraw'.
    assert (x = ri) as -> by congruence.
    destruct (Forall2_lookup_l _ _ _ _ _ Hall Hraw') as (rj & Hrj & Hvj).
    rewrite <-(adsKey_values _ _ Hvi), <-(adsKey_values _ _ Hvj).
    by apply (Hfirst j).
  - intros Hfirst. exists ri. split; [done|].
    intros j rj Hj Hrj.
    destruct (Forall2_lookup_r _ _ _ _ _ Hall Hrj) as (raw' & Hraw' & Hvj).
    rewrite (adsKey_values _ _ Hvi), (adsKey_values _ _ Hvj).
    by apply (Hfirst j).
Qed.

(** X16.  The attribution key determines its three components as long as
    campaign and source hold no bar (and the campaign is not blank): two
    keys are then equal only if campaign, source and medium are.  With a bar
    in a component two different triples can share a key. *)
Theorem utm_key_injective (campaign source medium campaign' source' medium' : string) :
  text_ok campaign = true -> text_ok campaign' = true ->
  bar_free campaign = true -> bar_free campaign' = true ->
  bar_free source = true -> bar_free source' = true ->
  transformer.generateUTMKey campaign source medium
  = transformer.generateUTMKey campaign' source' medium' ->
  campaign = campaign' /\ source = source' /\ medium = medium'.
Proof.
  unfold transformer.generateUTMKey, text_ok.
  intros Hc%bool_decide_eq_true_1 Hc'%bool_decide_eq_true_1 Hb Hb' Hs Hs'.
  rewrite !decide_False by done.
  intros [-> Hrest]%bar_join_inj; [|done|done].
  apply bar_join_inj in Hrest as [-> ->]; done.
Qed.

Example utm_key_ambiguous :
  transformer.generateUTMKey "a|b" "c" "m" = transformer.generateUTMKey "a" "b|c" "m".
Proof. reflexivity. Qed.

(** ** The order of the instants *)

Section time_order.
Import time.

Lemma compare_fields_refl a : compare_fields a a = Eq.
Proof. induction a as [|x a IH]; simpl; [done|]. by rewrite Z.compare_refl. Qed.

Lemma compare_fields_eq a b :
  length a = length b -> compare_fields a b = Eq -> a = b.
Proof.
  revert b. induction a as [|x a IH]; intros [|y b] Hlen; simpl; try done.
  destruct (x ?= y) eqn:Hxy; try done.
  apply Z.compare_eq in Hxy as ->. intros ?. f_equal. apply IH; [|done].
  simpl in Hlen. lia.
Qed.

Lemma compare_fields_antisym a b :
  length a = length b -> compare_fields b a = CompOpp (compare_fields a b).
Proof.
  revert b. induction a as [|x a IH]; intros [|y b] Hlen; simpl; try done.
  rewrite (Z.compare_antisym x y).
  destruct (x ?= y); simpl; [|done|done]. apply IH. simpl in Hlen. lia.
Qed.

Lemma compare_fields_trans a b c :
  length a = length b -> length b = length c ->
  compare_fields a b <> Gt -> compare_fields b c <> Gt ->
  compare_fields a c <> Gt /\
  (compare_fields a c = Eq -> compare_fields a b = Eq /\ compare_fields b c = Eq).
Proof.
  revert b c. induction a as [|x a IH]; intros [|y b] [|z c] Hab Hbc; simpl; try done.
  simpl in Hab, Hbc.
  destruct (x ?= y) eqn:Hxy, (y ?= z) eqn:Hyz; intros H1 H2; try done.
  - apply Z.compare_eq in Hxy as ->. rewrite Hyz. apply IH; [lia|lia|done|done].
  - apply Z.compare_eq in Hxy as ->. by rewrite Hyz.
  - apply Z.compare_eq in Hyz as <-. by rewrite Hxy.
  - change (x < y) in Hxy. change (y < z) in Hyz.
    assert (x < z) as Hxz by lia. unfold Z.lt in Hxz. by rewrite Hxz.
Qed.

Lemma Compare_refl t : Compare t t = Eq.
Proof. apply compare_fields_refl. Qed.

Lemma Compare_eq t u : Compare t u = Eq -> t = u.
Proof.
  intros H%compare_fields_eq; [|done].
  destruct t, u. unfold fields in H. simpl in H. by injection H as -> -> -> -> -> -> ->.
Qed.

Lemma Compare_antisym t u : Compare u t = CompOpp (Compare t u).
Proof. by apply compare_fields_antisym. Qed.

(** [Equal(d) || After(d)]: not before; [Equal(d) || Before(d)]: not after. *)
Lemma not_before t u : Equal t u || After t u = true <-> Compare u t <> Gt.
Proof.
  unfold Equal, After. rewrite (Compare_antisym t u).
  destruct (Compare t u); simpl; split; done.
Qed.

Lemma not_after t u : Equal t u || Before t u = true <-> Compare t u <> Gt.
Proof. unfold Equal, Before. destruct (Compare t u); simpl; split; done. Qed.

Lemma in_range_iff from to d :
  (Equal d from || After d from) && (Equal d to || Before d to) = true
  <-> Compare from d <> Gt /\ Compare d to <> Gt.
Proof. by rewrite andb_true_iff, not_before, not_after. Qed.

Lemma in_range_single d t :
  (Equal t d || After t d) && (Equal t d || Before t d) = true <-> t = d.
Proof.
  rewrite in_range_iff. split.
  - intros [H1 H2]. apply Compare_eq. rewrite (Compare_antisym t d) in H1.
    destruct (Compare t d); done.
  - intros ->. by rewrite Compare_refl.
Qed.

Lemma in_range_reversed from to d :
  Before to from = true ->
  (Equal d from || After d from) && (Equal d to || Before d to) = false.
Proof.
  intros Hrev. apply not_true_iff_false. rewrite in_range_iff. intros [H1 H2].
  destruct (compare_fields_trans (fields from) (fields d) (fields to)) as [H3 _];
    [done|done|done|done|].
  unfold Before in Hrev. rewrite (Compare_antisym from to) in Hrev.
  fold (Compare from to) in H3. by destruct (Compare from to).
Qed.
End time_order.

(** X17.  Asked for the single day [d] (a midnight), the store gives the
    advertising records dated exactly [d] and the CRM records created on the
    day of [d], at whatever time of the day, both in the order they are
    stored: the selection [ExportData] makes. *)
Theorem date_range_single_day (s : storage.MemoryStore) (d : time.Time) :
  time.Hour d = 0 -> time.Minute d = 0 -> time.Second d = 0 -> time.Nanosecond d = 0 ->
  storage.GetAdsRecordsByDateRange s d d
    = filter (fun r => NormalizedAdsRecord.Date r = d) (storage.adsRecords s) /\
  storage.GetCRMRecordsByDateRange s d d
    = filter (fun c => time.Year (NormalizedCRMRecord.CreatedAt c) = time.Year d /\
                       time.Month (NormalizedCRMRecord.CreatedAt c) = time.Month d /\
                       time.Day (NormalizedCRMRecord.CreatedAt c) = time.Day d)
             (storage.crmRecords s).
Proof.
  intros Hh Hm Hs Hn. split.
  - apply list_filter_iff. intros r. cbv zeta. apply in_range_single.
  - apply list_filter_iff. intros c. cbv zeta. rewrite in_range_single.
    destruct d as [y m dd hh mi ss ns]. simpl in *. subst. split.
    + by intros [= -> -> ->].
    + by intros (-> & -> & ->).
Qed.

(** X18.  A range whose end is before its start selects nothing. *)
Theorem date_range_reversed (s : storage.MemoryStore) (from to : time.Time) :
  time.Before to from = true ->
  storage.GetAdsRecordsByDateRange s from to = [] /\
  storage.GetCRMRecordsByDateRange s from to = [].
Proof.
  intros Hrev.
  assert (forall {A} (P : A -> bool) (l : list A),
            (forall x, P x = false) -> filter (fun x => P x = true) l = []) as Hnone.
  { intros A P l HP. induction l as [|x l IH]; [done|].
    rewrite filter_cons_False; [done|]. by rewrite HP. }
  split.
  - apply (Hnone _ (fun r =>
      (time.Equal (NormalizedAdsRecord.Date r) from || time.After (NormalizedAdsRecord.Date r) from)
      && (time.Equal (NormalizedAdsRecord.Date r) to || time.Before (NormalizedAdsRecord.Date r) to))).
    intros r. by apply in_range_reversed.
  - apply (Hnone _ (fun c =>
      let d := time.Date (time.Year (NormalizedCRMRecord.CreatedAt c))
                 (time.Month (NormalizedCRMRecord.CreatedAt c))
                 (time.Day (NormalizedCRMRecord.CreatedAt c)) 0 0 0 0 in
      (time.Equal d from || time.After d from) && (time.Equal d to || time.Before d to))).
    intros c. by apply in_range_reversed.
Qed.

Lemma since_rejects_zero sinceTime :
  time.Before time.zero sinceTime = true ->
  time.IsZero sinceTime = false /\
  time.Equal time.zero sinceTime || time.After time.zero sinceTime = false.
Proof.
  unfold time.IsZero, time.Before, time.Equal, time.After.
  rewrite (Compare_antisym time.zero sinceTime).
  by destruct (time.Compare time.zero sinceTime).
Qed.

(** X19.  When ingestion is run with a [since] date later than the zero
    time, no record with an unreadable date gets through: the advertising
    records and the CRM records that remain after the filter all come from
    raw records whose date (creation time) is readable.  The records with an
    unreadable date, which normalisation dates at the zero time, are dropped
    before the quality report is made. *)
Theorem since_filter_drops_unreadable
    (ads : list AdsRecord.t) (crm : list CRMRecord.t) (h : heap)
    (sinceTime : time.Time) :
  time.Before time.zero sinceTime = true ->
  exists normalizedAds h1 normalizedCRM h2,
    transformer.NormalizeAdsRecords ads h = Some (normalizedAds, h1) /\
    transformer.NormalizeCRMRecords crm h1 = Some (normalizedCRM, h2) /\
    (forall r, r ∈ (handlers.IngestData_since sinceTime normalizedAds normalizedCRM).1 ->
       exists i raw,
         ads !! i = Some raw /\
         RecordQuality.RecordID (NormalizedAdsRecord.Quality r)
           = "ads_" +:+ fmt.d (Z.of_nat i) /\
         date_ok (AdsRecord.Date raw) = true) /\
    (forall r, r ∈ (handlers.IngestData_since sinceTime normalizedAds normalizedCRM).2 ->
       exists i raw,
         crm !! i = Some raw /\
         RecordQuality.RecordID (NormalizedCRMRecord.Quality r)
           = "crm_" +:+ fmt.d (Z.of_nat i) /\
         datetime_ok (CRMRecord.CreatedAt raw) = true).
Proof.
  intros [Hnz Hzero]%since_rejects_zero.
  destruct (NormalizeAdsRecords_values ads h)
    as (rs & ms & ms' & Hrun & Hbatch & _ & Hall).
  destruct (NormalizeCRMRecords_values crm (h ++ ms'))
    as (rs' & ms1 & ms1' & Hrun' & Hbatch' & _ & Hall').
  eexists _, _, _, _. split; [exact Hrun|]. split; [exact Hrun'|].
  unfold handlers.IngestData_since. rewrite Hnz. cbn [negb fst snd]. split.
  - intros r [Hkeep (k & _ & Hk)%pick_elem]%list_elem_of_filter.
    destruct (ads_batch_values _ _ _ _ _ _ _ Hbatch Hall Hk)
      as (raw & m & Hraw & _ & Hn & Hv).
    exists k, raw. split_and!; [done|apply Hn|].
    rewrite (av_date _ _ Hv) in Hkeep. unfold date_value in Hkeep.
    destruct (date_ok (AdsRecord.Date raw)); [done|]. by rewrite Hzero in Hkeep.
  - intros r [Hkeep (k & _ & Hk)%pick_elem]%list_elem_of_filter.
    destruct (crm_batch_values _ _ _ _ _ _ _ Hbatch' Hall' Hk)
      as (raw & m & Hraw & _ & Hn & Hv).
    exists k, raw. split_and!; [done|apply Hn|].
    cbv zeta in Hkeep. rewrite (cv_created_at _ _ Hv) in Hkeep.
    unfold datetime_value in Hkeep.
    destruct (datetime_ok (CRMRecord.CreatedAt raw)); [done|].
    change (time.Date (time.Year time.zero) (time.Month time.zero) (time.Day time.zero)
              0 0 0 0) with time.zero in Hkeep.
    by rewrite Hzero in Hkeep.
Qed.

(** ** Pagination *)

Section pagination.
Context {A : Type}.
Implicit Types metrics : list A.


Lemma paginate_none metrics limit offset :
  - 2 ^ 63 <= offset + limit < 2 ^ 63 ->
  handlers.paginate metrics limit offset = None
  <-> limit = 0 \/ offset < 0
      \/ (limit < 0 /\ offset + limit < Z.of_nat (length metrics)).
Proof.
  intros Hsum. unfold handlers.paginate.
  rewrite (wrap64_small (offset + limit)) by lia.
  set (total := Z.of_nat (length metrics)).
  assert (0 <= total) as Ht by lia.
  destruct (total <? offset) eqn:Hto, (total <? offset + limit) eqn:Hte;
    try (apply Z.ltb_lt in Hto); try (apply Z.ltb_ge in Hto);
    try (apply Z.ltb_lt in Hte); try (apply Z.ltb_ge in Hte);
    (destruct (_ && _) eqn:Hslice;
     [apply andb_true_iff in Hslice as [H1%Z.leb_le H2%Z.leb_le]
     |apply andb_false_iff in Hslice as [H1%Z.leb_gt|H2%Z.leb_gt]]);
    try (destruct (limit =? 0) eqn:Hl;
         [apply Z.eqb_eq in Hl|apply Z.eqb_neq in Hl]);
    split; try done; try lia; intros; exfalso; lia.
Qed.

End pagination.


(** X21.  The pagination panics (the request ends in an internal error)
    exactly when the limit is 0 (integer divide by zero), the offset is
    negative, or the limit is negative and the page would end before the
    last row (slice bounds out of range). *)
Theorem paginate_panics {A} (metrics : list A) (limit offset : Z) :
  - 2 ^ 63 <= offset + limit < 2 ^ 63 ->
  handlers.paginate metrics limit offset = None
  <-> limit = 0 \/ offset < 0
      \/ (limit < 0 /\ offset + limit < Z.of_nat (length metrics)).
Proof. apply paginate_none. Qed.


(** ** Numbers in the query string and in the environment *)

Lemma Atoi_bad_start c r :
  time.digit c = None -> c <> "-"%char -> c <> "+"%char ->
  strconv.Atoi (String c r) = (0, false).
Proof.
  destruct c as [[] [] [] [] [] [] [] []]; intros Hd Hm Hp;
    try done; try (by vm_compute in Hd).
Qed.


(** ** The retry loops *)

Section retry.
Import client.

(** The events of the iterations [attempt], ..., [attempt + m - 1]. *)
Local Abbreviation events_from attempt m :=
  (flat_map (fun a => (backoff a ++ [Request])%list) (seq attempt m)).

Lemma retryRequest_from_stop world : forall k remaining attempt lastErr,
  (k < remaining)%nat ->
  (forall j, (j < k)%nat -> get_again (world (attempt + j)%nat) <> None) ->
  get_again (world (attempt + k)%nat) = None ->
  exists c b,
    world (attempt + k)%nat = response c b /\ c < 500 /\
    (c < 400 -> b = decoded) /\
    retryRequest_from world remaining attempt lastErr
    = (if 400 <=? c then Some (client_error c) else None, events_from attempt (S k)).
Proof.
  induction k as [|k IH]; intros remaining attempt lastErr Hk Hagain Hstop;
    (destruct remaining as [|remaining]; [lia|]).
  - rewrite Nat.add_0_r in Hstop |- *. cbn [retryRequest_from].
    destruct (world attempt) as [|c b]; [done|]. simpl in Hstop.
    exists c, b. destruct (500 <=? c) eqn:H5; [done|]. apply Z.leb_gt in H5.
    split; [done|]. split; [done|].
    destruct (400 <=? c) eqn:H4.
    + apply Z.leb_le in H4. split; [lia|]. simpl. by rewrite app_nil_r.
    + apply Z.leb_gt in H4. destruct b; try done.
      split; [done|]. simpl. by rewrite app_nil_r.
  - destruct (IH remaining (S attempt) (get_again (world attempt)))
      as (c & b & Hw & Hc & Hb & Hrun).
    + lia.
    + intros j Hj. replace (S attempt + j)%nat with (attempt + S j)%nat by lia.
      apply Hagain. lia.
    + by replace (S attempt + k)%nat with (attempt + S k)%nat by lia.
    + replace (S attempt + k)%nat with (attempt + S k)%nat in Hw by lia.
      exists c, b. split_and!; try done.
      specialize (Hagain 0%nat). rewrite Nat.add_0_r in Hagain.
      cbn [retryRequest_from].
      destruct (world attempt) as [|c0 b0]; simpl in Hagain, Hrun |- *.
      * rewrite Hrun. by rewrite <-app_assoc.
      * destruct (500 <=? c0); [rewrite Hrun; by rewrite <-app_assoc|].
        destruct (400 <=? c0); [by destruct Hagain; [lia|]|].
        destruct b0; simpl in Hrun; try (rewrite Hrun; by rewrite <-app_assoc).
        by destruct Hagain; [lia|].
Qed.

Lemma retryRequest_from_exhausted world : forall remaining attempt lastErr,
  (forall j, (j < remaining)%nat -> get_again (world (attempt + j)%nat) <> None) ->
  retryRequest_from world remaining attempt lastErr
  = (Some (retries_failed
             (match remaining with
              | O => lastErr
              | S m => get_again (world (attempt + m)%nat)
              end)),
     events_from attempt remaining).
Proof.
  induction remaining as [|remaining IH]; intros attempt lastErr Hagain; [done|].
  cbn [retryRequest_from].
  pose proof (Hagain 0%nat) as H0. rewrite Nat.add_0_r in H0.
  assert (retryRequest_from world remaining (S attempt) (get_again (world attempt))
          = (Some (retries_failed (get_again (world (attempt + remaining)%nat))),
             events_from (S attempt) remaining)) as Hrun.
  { rewrite IH.
    - f_equal. destruct remaining as [|m]; [by rewrite Nat.add_0_r|].
      by replace (S attempt + m)%nat with (attempt + S m)%nat by lia.
    - intros j Hj. replace (S attempt + j)%nat with (attempt + S j)%nat by lia.
      apply Hagain. lia. }
  destruct (world attempt) as [|c0 b0]; simpl in H0, Hrun |- *.
  - rewrite Hrun. by rewrite <-app_assoc.
  - destruct (500 <=? c0); [rewrite Hrun; by rewrite <-app_assoc|].
    destruct (400 <=? c0); [by destruct H0; [lia|]|].
    destruct b0; simpl in Hrun; try (rewrite Hrun; by rewrite <-app_assoc).
    by destruct H0; [lia|].
Qed.

Lemma retryPostRequest_from_stop world : forall k remaining attempt lastErr,
  (k < remaining)%nat ->
  (forall j, (j < k)%nat -> post_again (world (attempt + j)%nat) <> None) ->
  post_again (world (attempt + k)%nat) = None ->
  exists c b,
    world (attempt + k)%nat = response c b /\
    (200 <= c < 300 \/ 400 <= c < 500) /\
    retryPostRequest_from world remaining attempt lastErr
    = (if c <? 300 then None else Some (client_error c), events_from attempt (S k)).
Proof.
  induction k as [|k IH]; intros remaining attempt lastErr Hk Hagain Hstop;
    (destruct remaining as [|remaining]; [lia|]).
  - rewrite Nat.add_0_r in Hstop |- *. cbn [retryPostRequest_from].
    destruct (world attempt) as [|c b]; [done|]. simpl in Hstop.
    exists c, b. split; [done|].
    destruct (200 <=? c) eqn:H2, (c <? 500) eqn:H5, (300 <=? c) eqn:H3,
      (c <? 400) eqn:H4, (c <? 300) eqn:H3', (400 <=? c) eqn:H4';
      simpl in Hstop; try done; simpl; rewrite ?app_nil_r; split; try done; lia.
  - destruct (IH remaining (S attempt) (post_again (world attempt)))
      as (c & b & Hw & Hc & Hrun).
    + lia.
    + intros j Hj. replace (S attempt + j)%nat with (attempt + S j)%nat by lia.
      apply Hagain. lia.
    + by replace (S attempt + k)%nat with (attempt + S k)%nat by lia.
    + replace (S attempt + k)%nat with (attempt + S k)%nat in Hw by lia.
      exists c, b. split_and!; try done.
      specialize (Hagain 0%nat). rewrite Nat.add_0_r in Hagain.
      cbn [retryPostRequest_from].
      destruct (world attempt) as [|c0 b0]; simpl in Hagain, Hrun |- *.
      * rewrite Hrun. by rewrite <-app_assoc.
      * destruct (200 <=? c0) eqn:H2, (c0 <? 500) eqn:H5, (300 <=? c0) eqn:H3,
          (c0 <? 400) eqn:H4, (c0 <? 300) eqn:H3', (400 <=? c0) eqn:H4';
          simpl in Hagain, Hrun |- *;
          try (rewrite Hrun; by rewrite <-app_assoc);
          try (by destruct Hagain; [lia|]); lia.
Qed.

Lemma retryPostRequest_from_exhausted world : forall remaining attempt lastErr,
  (forall j, (j < remaining)%nat -> post_again (world (attempt + j)%nat) <> None) ->
  retryPostRequest_from world remaining attempt lastErr
  = (Some (retries_failed
             (match remaining with
              | O => lastErr
              | S m => post_again (world (attempt + m)%nat)
              end)),
     events_from attempt remaining).
Proof.
  induction remaining as [|remaining IH]; intros attempt lastErr Hagain; [done|].
  cbn [retryPostRequest_from].
  pose proof (Hagain 0%nat) as H0. rewrite Nat.add_0_r in H0.
  assert (retryPostRequest_from world remaining (S attempt) (post_again (world attempt))
          = (Some (retries_failed (post_again (world (attempt + remaining)%nat))),
             events_from (S attempt) remaining)) as Hrun.
  { rewrite IH.
    - f_equal. destruct remaining as [|m]; [by rewrite Nat.add_0_r|].
      by replace (S attempt + m)%nat with (attempt + S m)%nat by lia.
    - intros j Hj. replace (S attempt + j)%nat with (attempt + S j)%nat by lia.
      apply Hagain. lia. }
  destruct (world attempt) as [|c0 b0]; simpl in H0, Hrun |- *.
  - rewrite Hrun. by rewrite <-app_assoc.
  - destruct (200 <=? c0) eqn:H2, (c0 <? 500) eqn:H5, (300 <=? c0) eqn:H3,
      (c0 <? 400) eqn:H4, (c0 <? 300) eqn:H3', (400 <=? c0) eqn:H4';
      simpl in H0, Hrun |- *;
      try (rewrite Hrun; by rewrite <-app_assoc);
      try (by destruct H0; [lia|]); lia.
Qed.
End retry.

(** X24.  [retryRequest] makes its requests one after the other and stops
    at the first reply it does not retry.  If that is the reply to request
    number [k], below the configured number of attempts, the call has made
    [k + 1] requests, each but the first after its back-off, and returns nil
    for a status below 400 (the body then is decoded) and the client error
    for a status from 400 to 499.  If every reply is one it retries, it makes
    as many requests as attempts are configured and returns the failure with
    the cause of the last. *)
Theorem retry_request_outcome (retryAttempts : Z) (world : nat -> client.reply) :
  (forall k, (k < Z.to_nat retryAttempts)%nat ->
     (forall j, (j < k)%nat -> get_again (world j) <> None) ->
     get_again (world k) = None ->
     exists c b,
       world k = client.response c b /\ c < 500 /\ (c < 400 -> b = client.decoded) /\
       client.retryRequest retryAttempts world
       = (if 400 <=? c then Some (client.client_error c) else None, schedule (S k))) /\
  ((forall j, (j < Z.to_nat retryAttempts)%nat -> get_again (world j) <> None) ->
   client.retryRequest retryAttempts world
   = (Some (client.retries_failed
              (match Z.to_nat retryAttempts with
               | O => None
               | S m => get_again (world m)
               end)),
      schedule (Z.to_nat retryAttempts))).
Proof.
  unfold client.retryRequest, schedule. split.
  - intros k Hk Hagain Hstop.
    apply (retryRequest_from_stop world k (Z.to_nat retryAttempts) 0%nat None);
      done.
  - intros Hagain.
    apply (retryRequest_from_exhausted world (Z.to_nat retryAttempts) 0%nat None). done.
Qed.

(** X25.  [retryPostRequest] stops at the first reply with a status from
    200 to 299, which is a success, or from 400 to 499, which is returned as
    a client error; any other reply (a failed request, a status below 200,
    from 300 to 399 or of 500 or more) is retried, up to the configured
    number of attempts. *)
Theorem retry_post_outcome (retryAttempts : Z) (world : nat -> client.reply) :
  (forall k, (k < Z.to_nat retryAttempts)%nat ->
     (forall j, (j < k)%nat -> post_again (world j) <> None) ->
     post_again (world k) = None ->
     exists c b,
       world k = client.response c b /\ (200 <= c < 300 \/ 400 <= c < 500) /\
       client.retryPostRequest retryAttempts world
       = (if c <? 300 then None else Some (client.client_error c), schedule (S k))) /\
  ((forall j, (j < Z.to_nat retryAttempts)%nat -> post_again (world j) <> None) ->
   client.retryPostRequest retryAttempts world
   = (Some (client.retries_failed
              (match Z.to_nat retryAttempts with
               | O => None
               | S m => post_again (world m)
               end)),
      schedule (Z.to_nat retryAttempts))).
Proof.
  unfold client.retryPostRequest, schedule. split.
  - intros k Hk Hagain Hstop.
    apply (retryPostRequest_from_stop world k (Z.to_nat retryAttempts) 0%nat None);
      done.
  - intros Hagain.
    apply (retryPostRequest_from_exhausted world (Z.to_nat retryAttempts) 0%nat None).
    done.
Qed.

(** ** The number of attempts *)

Lemma Load_RetryAttempts_set env s :
  env !! "RETRY_ATTEMPTS" = Some s -> s <> "" ->
  config.Load_RetryAttempts env = (strconv.Atoi s).1.
Proof.
  intros Hs Hne. unfold config.Load_RetryAttempts, config.getEnv, config.Getenv.
  rewrite Hs. cbn [default]. by rewrite decide_True.
Qed.

(** X26.  The number of attempts is 3 when RETRY_ATTEMPTS is not set or
    is empty, and the number it holds otherwise, read as 0 when the text
    starts with a character that is neither a digit nor a sign.  With a
    number of attempts of 0 or less the two retry loops fail at once,
    without a request and with no cause to report. *)
Theorem retry_attempts_setting (env : config.environ) :
  (env !! "RETRY_ATTEMPTS" = None \/ env !! "RETRY_ATTEMPTS" = Some "" ->
   config.Load_RetryAttempts env = 3) /\
  (forall s, env !! "RETRY_ATTEMPTS" = Some s -> s <> "" ->
     config.Load_RetryAttempts env = (strconv.Atoi s).1) /\
  (forall c r, env !! "RETRY_ATTEMPTS" = Some (String c r) ->
     time.digit c = None -> c <> "-"%char -> c <> "+"%char ->
     config.Load_RetryAttempts env = 0) /\
  (config.Load_RetryAttempts env <= 0 ->
   forall world,
     client.retryRequest (config.Load_RetryAttempts env) world
       = (Some (client.retries_failed None), []) /\
     client.retryPostRequest (config.Load_RetryAttempts env) world
       = (Some (client.retries_failed None), [])).
Proof.
  split_and!.
  - unfold config.Load_RetryAttempts, config.getEnv, config.Getenv.
    by intros [-> | ->].
  - apply Load_RetryAttempts_set.
  - intros c r Hs Hd Hm Hp.
    rewrite (Load_RetryAttempts_set _ _ Hs) by done. by rewrite Atoi_bad_start.
  - intros Hn world. unfold client.retryRequest, client.retryPostRequest.
    by rewrite Z2Nat.nonpos.
Qed.

(** ** The time spent backing off *)

Lemma backoffTime_small a :
  0 <= a <= 90000 -> client.backoffTime a = a * a * 1000000000.
Proof.
  intros Ha. unfold client.backoffTime.
  rewrite (wrap64_small (a * a)) by nia. apply wrap64_small. nia.
Qed.

Lemma slept_app e1 e2 : slept (e1 ++ e2) = slept e1 + slept e2.
Proof.
  unfold slept. rewrite omap_app. generalize (omap (fun e => match e with
    | client.Sleep d => Some d | client.Request => None end) e1) as l1.
  intros l1. induction l1 as [|x l1 IH]; [done|].
  rewrite <-app_comm_cons, !sum_Z_cons, IH. lia.
Qed.

Lemma slept_schedule (m : nat) :
  Z.of_nat m <= 90000 ->
  exists q, (Z.of_nat m - 1) * Z.of_nat m * (2 * Z.of_nat m - 1) = 6 * q /\
            slept (schedule m) = 1000000000 * q.
Proof.
  induction m as [|m IH]; intros Hm.
  - exists 0. by split.
  - destruct IH as (q & Hq & Hs); [lia|].
    exists (q + Z.of_nat m * Z.of_nat m). split; [lia|].
    unfold schedule in *. rewrite seq_S, flat_map_app, slept_app, Hs.
    cbn [flat_map]. rewrite app_nil_r, slept_app, Nat.add_0_l. unfold client.backoff.
    change (slept [client.Request]) with 0.
    destruct m as [|m].
    + change (slept (if (0 <? 0)%nat then _ else [])) with 0. lia.
    + change (S m) with (S m) at 1.
      replace (0 <? S m)%nat with true by (symmetry; apply Nat.ltb_lt; lia).
      change (slept [client.Sleep (client.backoffTime (Z.of_nat (S m)))])
        with (client.backoffTime (Z.of_nat (S m)) + 0).
      rewrite backoffTime_small by lia. lia.
Qed.

(** X27.  When every reply is retried, the time [retryRequest] spends
    backing off over its [n] attempts is 1 + 4 + ... + (n-1)^2 seconds, that
    is (n-1) n (2n-1) / 6 seconds: 5 seconds for the 3 attempts of the
    default configuration. *)
Theorem retry_backoff_total (retryAttempts : Z) (world : nat -> client.reply) :
  0 <= retryAttempts <= 90000 ->
  (forall j, (j < Z.to_nat retryAttempts)%nat -> get_again (world j) <> None) ->
  slept (client.retryRequest retryAttempts world).2
  = 1000000000 * ((retryAttempts - 1) * retryAttempts * (2 * retryAttempts - 1) / 6).
Proof.
  intros Hn Hagain. unfold client.retryRequest.
  rewrite (retryRequest_from_exhausted world (Z.to_nat retryAttempts) 0%nat None) by done.
  cbn [snd]. destruct (slept_schedule (Z.to_nat retryAttempts)) as (q & Hq & Hs); [lia|].
  unfold schedule in Hs. rewrite Hs. rewrite Z2Nat.id in Hq by lia.
  rewrite Hq. f_equal. rewrite Z.mul_comm, Z.div_mul; lia.
Qed.

(** ** The verdict written on a duplicate *)

Section duplicates_facts.
Context {A : Type} (key : A -> string).

Lemma duplicates_ge seen i l j e :
  (j, e) ∈ duplicates key seen i l -> (i <= j)%nat.
Proof.
  revert seen i. induction l as [|x l IH]; intros seen i; simpl.
  - by intros ?%elem_of_nil.
  - destruct (seen !! key x).
    + intros [[= -> ->]|?%IH]%elem_of_cons; lia.
    + intros ?%IH. lia.
Qed.


Lemma firsts_nil : firsts key [] ∅.
Proof. split; [by intros k e ?|by intros j z ?]. Qed.

Lemma firsts_snoc_seen pre seen x e0 :
  firsts key pre seen -> seen !! key x = Some e0 -> firsts key (pre ++ [x]) seen.
Proof.
  intros [H1 H2] Hx. split.
  - intros k e Hk. destruct (H1 k e Hk) as (y & Hy & Hky & Hf).
    exists y. split_and!; [by apply lookup_app_l_Some|done|].
    intros j z Hj Hz. apply (Hf j z Hj).
    apply lookup_lt_Some in Hy. by rewrite lookup_app_l in Hz by lia.
  - intros j z [Hz|[_ Hz]]%lookup_app_Some; [by eapply H2|].
    apply list_lookup_singleton_Some in Hz as [_ <-]. by rewrite Hx.
Qed.

Lemma firsts_snoc_new pre seen x :
  firsts key pre seen -> seen !! key x = None ->
  firsts key (pre ++ [x]) (<[key x := length pre]> seen).
Proof.
  intros [H1 H2] Hx. split.
  - intros k e. destruct (decide (k = key x)) as [->|Hne].
    + rewrite lookup_insert_eq. intros [= <-]. exists x. split_and!.
      * by rewrite lookup_app_r, Nat.sub_diag by lia.
      * done.
      * intros j z Hj Hz. rewrite lookup_app_l in Hz by lia.
        intros Hk. destruct (H2 j z Hz) as [e He]. by rewrite Hk, Hx in He.
    + rewrite lookup_insert_ne by done. intros Hk.
      destruct (H1 k e Hk) as (y & Hy & Hky & Hf).
      exists y. split_and!; [by apply lookup_app_l_Some|done|].
      intros j z Hj Hz. apply (Hf j z Hj).
      apply lookup_lt_Some in Hy. by rewrite lookup_app_l in Hz by lia.
  - intros j z [Hz|[_ Hz]]%lookup_app_Some.
    + apply lookup_insert_is_Some. destruct (decide (key x = key z)); [by left|].
      right. split; [done|]. by eapply H2.
    + apply list_lookup_singleton_Some in Hz as [_ <-]. by rewrite lookup_insert_eq.
Qed.

(** A record that comes after the first record with its key is dropped, and
    the position recorded is that of the first. *)
Lemma duplicates_complete l : forall pre seen j e x y,
  firsts key pre seen ->
  (pre ++ l) !! j = Some x -> (length pre <= j)%nat -> (e < j)%nat ->
  (pre ++ l) !! e = Some y -> key y = key x ->
  (forall j' z, (j' < e)%nat -> (pre ++ l) !! j' = Some z -> key z <> key x) ->
  (j, e) ∈ duplicates key seen (length pre) l.
Proof.
  induction l as [|x0 l IH]; intros pre seen j e x y Hfirsts Hj Hle He Hy Hk Hf.
  - rewrite app_nil_r in Hj. apply lookup_lt_Some in Hj. lia.
  - assert (forall pre', pre' = (pre ++ [x0])%list -> forall seen',
              firsts key pre' seen' -> (length pre < j)%nat ->
              (j, e) ∈ duplicates key seen' (S (length pre)) l) as Hrest.
    { intros pre' -> seen' Hfirsts' Hlt.
      replace (S (length pre)) with (length (pre ++ [x0])) by (rewrite length_app; simpl; lia).
      apply (IH (pre ++ [x0])%list seen' j e x y); rewrite <-?app_assoc; try done.
      rewrite length_app. simpl. lia. }
    simpl. destruct (seen !! key x0) as [e0|] eqn:Hx0.
    + destruct (decide (j = length pre)) as [->|Hne].
      * rewrite lookup_app_r, Nat.sub_diag in Hj by lia. injection Hj as <-.
        rewrite lookup_app_l in Hy by lia.
        destruct Hfirsts as [H1 H2].
        destruct (H1 _ _ Hx0) as (y0 & Hy0 & Hky0 & Hf0).
        assert (e0 = e) as ->; [|by left].
        destruct (Nat.lt_trichotomy e0 e) as [Hlt|[?|Hlt]]; [|done|].
        -- exfalso. apply (Hf e0 y0 Hlt); [|done]. by apply lookup_app_l_Some.
        -- exfalso. apply (Hf0 e y Hlt Hy). done.
      * right. eapply Hrest; [done| |lia]. by eapply firsts_snoc_seen.
    + destruct (decide (j = length pre)) as [->|Hne].
      * exfalso. rewrite lookup_app_r, Nat.sub_diag in Hj by lia. injection Hj as <-.
        rewrite lookup_app_l in Hy by lia.
        destruct Hfirsts as [_ H2]. destruct (H2 _ _ Hy) as [e' He'].
        by rewrite Hk, Hx0 in He'.
      * eapply Hrest; [done| |lia]. by apply firsts_snoc_new.
Qed.
End duplicates_facts.

Section dedup_marks.
Import transformer.

Lemma dedupAdsFrom_marks records : forall i (seen : gmap string nat) unique h,
  Forall (fun r => (ads_ref r < length h)%nat) records ->
  NoDup (ads_ref <$> records) ->
  exists out h',
    dedupAdsFrom i records seen unique h = Some (out, h') /\
    (forall l, l ∉ ads_ref <$> records -> h' !! l = h !! l) /\
    forall j e, (j, e) ∈ duplicates adsKey seen i records ->
      exists r entries,
        records !! (j - i)%nat = Some r /\ h !! ads_ref r = Some entries /\
        h' !! ads_ref r
        = Some (<["duplicate" :=
                   FieldQuality.mk false
                     ("Duplicate record found (original at index "
                        +:+ fmt.d (Z.of_nat e) +:+ ")")
                     (AString (adsKey r))]> entries).
Proof.
  induction records as [|record records IH]; intros i seen unique h Hall Hnd.
  - exists unique, h. split_and!; [done|done|]. by intros j e ?%elem_of_nil.
  - apply Forall_cons in Hall as [Hrec Hall].
    rewrite fmap_cons in Hnd. apply NoDup_cons in Hnd as [Hfresh Hnd].
    cbn [dedupAdsFrom duplicates].
    destruct (seen !! adsKey record) as [e0|] eqn:Hseen.
    + destruct (lookup_lt_is_Some_2 h _ Hrec) as [entries Hentries].
      unfold mbind, M_bind, markDuplicateAds.
      unfold mbind, M_bind, mret, M_ret. fold (ads_ref record).
      rewrite (map_store_Some _ _ _ _ _ Hentries).
      set (fq := FieldQuality.mk false _ _).
      destruct (IH (S i) seen unique (<[ads_ref record := <["duplicate" := fq]> entries]> h))
        as (out & h' & Hrun & Hframe & Hmarks); [by rewrite length_insert|done|].
      exists out, h'. split_and!; [done| |].
      * intros l [Hne Hl]%not_elem_of_cons.
        rewrite (Hframe l Hl). by rewrite list_lookup_insert_ne.
      * intros j e [[= -> ->]|Hin]%elem_of_cons.
        -- exists record, entries. rewrite Nat.sub_diag. split_and!; [done|done|].
           rewrite (Hframe _ Hfresh). by rewrite list_lookup_insert_eq.
        -- pose proof (duplicates_ge _ _ _ _ _ _ Hin) as Hge.
           destruct (Hmarks j e Hin) as (r & entries' & Hr & Hh & Hh').
           exists r, entries'. split_and!; [|
             |done].
           ++ by replace (j - i)%nat with (S (j - S i)) by lia.
           ++ rewrite list_lookup_insert_ne in Hh; [done|].
              intros Heq. apply Hfresh. rewrite Heq.
              apply list_elem_of_fmap. exists r. split; [done|].
              by eapply list_elem_of_lookup_2.
    + destruct (IH (S i) (<[adsKey record := i]> seen) (unique ++ [record])%list h Hall Hnd)
        as (out & h' & Hrun & Hframe & Hmarks).
      exists out, h'. split_and!; [done| |].
      * intros l [_ Hl]%not_elem_of_cons. by apply Hframe.
      * intros j e Hin.
        pose proof (duplicates_ge _ _ _ _ _ _ Hin) as Hge.
        destruct (Hmarks j e Hin) as (r & entries' & Hr & Hh & Hh').
        exists r, entries'. split_and!; [|done|done].
        by replace (j - i)%nat with (S (j - S i)) by lia.
Qed.

Lemma dedupCRMFrom_marks records : forall i (seen : gmap string nat) unique h,
  Forall (fun r => (crm_ref r < length h)%nat) records ->
  NoDup (crm_ref <$> records) ->
  exists out h',
    dedupCRMFrom i records seen unique h = Some (out, h') /\
    (forall l, l ∉ crm_ref <$> records -> h' !! l = h !! l) /\
    forall j e, (j, e) ∈ duplicates NormalizedCRMRecord.OpportunityID seen i records ->
      exists r entries,
        records !! (j - i)%nat = Some r /\ h !! crm_ref r = Some entries /\
        h' !! crm_ref r
        = Some (<["duplicate" :=
                   FieldQuality.mk false
                     ("Duplicate opportunity ID found (original at index "
                        +:+ fmt.d (Z.of_nat e) +:+ ")")
                     (AString (NormalizedCRMRecord.OpportunityID r))]> entries).
Proof.
  induction records as [|record records IH]; intros i seen unique h Hall Hnd.
  - exists unique, h. split_and!; [done|done|]. by intros j e ?%elem_of_nil.
  - apply Forall_cons in Hall as [Hrec Hall].
    rewrite fmap_cons in Hnd. apply NoDup_cons in Hnd as [Hfresh Hnd].
    cbn [dedupCRMFrom duplicates].
    destruct (seen !! NormalizedCRMRecord.OpportunityID record) as [e0|] eqn:Hseen.
    + destruct (lookup_lt_is_Some_2 h _ Hrec) as [entries Hentries].
      unfold mbind, M_bind, markDuplicateCRM.
      unfold mbind, M_bind, mret, M_ret. fold (crm_ref record).
      rewrite (map_store_Some _ _ _ _ _ Hentries).
      set (fq := FieldQuality.mk false _ _).
      destruct (IH (S i) seen unique (<[crm_ref record := <["duplicate" := fq]> entries]> h))
        as (out & h' & Hrun & Hframe & Hmarks); [by rewrite length_insert|done|].
      exists out, h'. split_and!; [done| |].
      * intros l [Hne Hl]%not_elem_of_cons.
        rewrite (Hframe l Hl). by rewrite list_lookup_insert_ne.
      * intros j e [[= -> ->]|Hin]%elem_of_cons.
        -- exists record, entries. rewrite Nat.sub_diag. split_and!; [done|done|].
           rewrite (Hframe _ Hfresh). by rewrite list_lookup_insert_eq.
        -- pose proof (duplicates_ge _ _ _ _ _ _ Hin) as Hge.
           destruct (Hmarks j e Hin) as (r & entries' & Hr & Hh & Hh').
           exists r, entries'. split_and!; [|
             |done].
           ++ by replace (j - i)%nat with (S (j - S i)) by lia.
           ++ rewrite list_lookup_insert_ne in Hh; [done|].
              intros Heq. apply Hfresh. rewrite Heq.
              apply list_elem_of_fmap. exists r. split; [done|].
              by eapply list_elem_of_lookup_2.
    + destruct (IH (S i) (<[NormalizedCRMRecord.OpportunityID record := i]> seen)
                  (unique ++ [record])%list h Hall Hnd)
        as (out & h' & Hrun & Hframe & Hmarks).
      exists out, h'. split_and!; [done| |].
      * intros l [_ Hl]%not_elem_of_cons. by apply Hframe.
      * intros j e Hin.
        pose proof (duplicates_ge _ _ _ _ _ _ Hin) as Hge.
        destruct (Hmarks j e Hin) as (r & entries' & Hr & Hh & Hh').
        exists r, entries'. split_and!; [|done|done].
        by replace (j - i)%nat with (S (j - S i)) by lia.
Qed.

(** The references of a batch are pairwise distinct. *)
Lemma batch_refs_NoDup {A} (ref : A -> mapref) (rs : list A) (n0 : nat) :
  (forall k r, rs !! k = Some r -> ref r = (n0 + k)%nat) -> NoDup (ref <$> rs).
Proof.
  intros Href. apply NoDup_alt. intros j k l.
  rewrite !list_lookup_fmap.
  destruct (rs !! j) as [rj|] eqn:Hj, (rs !! k) as [rk|] eqn:Hk; simpl; try done.
  intros [= <-] [= Heq]. rewrite (Href _ _ Hj), (Href _ _ Hk) in Heq. lia.
Qed.
End dedup_marks.

(** X28.  The verdict written on a duplicate names the record it
    duplicates: when a raw record comes after the first raw record with its
    business key, the map allocated for it (the map number [j] of the call,
    for the raw record of index [j]) ends with a failed verdict under
    "duplicate" whose description gives the index of that first record and
    whose original value is the key. *)
Theorem duplicate_verdict_names_original
    (ads : list AdsRecord.t) (crm : list CRMRecord.t) (h : heap) :
  (exists out h',
      transformer.NormalizeAdsRecords ads h = Some (out, h') /\
      forall i j raw_i raw_j,
        (i < j)%nat -> ads !! i = Some raw_i -> ads !! j = Some raw_j ->
        raw_ads_key raw_j = raw_ads_key raw_i ->
        (forall k raw_k, (k < i)%nat -> ads !! k = Some raw_k ->
           raw_ads_key raw_k <> raw_ads_key raw_i) ->
        map_load h' (length h + j) !! "duplicate"
        = Some (FieldQuality.mk false
                  ("Duplicate record found (original at index "
                     +:+ fmt.d (Z.of_nat i) +:+ ")")
                  (AString (raw_ads_key raw_j)))) /\
  (exists out h',
      transformer.NormalizeCRMRecords crm h = Some (out, h') /\
      forall i j raw_i raw_j,
        (i < j)%nat -> crm !! i = Some raw_i -> crm !! j = Some raw_j ->
        raw_crm_key raw_j = raw_crm_key raw_i ->
        (forall k raw_k, (k < i)%nat -> crm !! k = Some raw_k ->
           raw_crm_key raw_k <> raw_crm_key raw_i) ->
        map_load h' (length h + j) !! "duplicate"
        = Some (FieldQuality.mk false
                  ("Duplicate opportunity ID found (original at index "
                     +:+ fmt.d (Z.of_nat i) +:+ ")")
                  (AString (raw_crm_key raw_j)))).
Proof.
  split.
  - destruct (NormalizeAdsRecords_spec ads h)
      as (rs & ms & ms' & Hnorm & Hbatch & Hdedup & Hrun & _).
    destruct (normalizeAdsFrom_values ads 0 [] h) as (rs' & h0 & Hnorm' & Hall).
    simpl in Hnorm'. rewrite Hnorm in Hnorm'. injection Hnorm' as <- _.
    pose proof (ads_batch_ref _ _ _ _ _ Hbatch) as Href.
    destruct (dedupAdsFrom_marks rs 0 ∅ [] (h ++ ms)) as (out & h' & Hloop & _ & Hmarks).
    { apply Forall_forall. intros r [k Hk]%list_elem_of_lookup.
      rewrite (Href _ _ Hk), length_app.
      apply lookup_lt_Some in Hk. destruct Hbatch as (? & ? & _). lia. }
    { by eapply batch_refs_NoDup. }
    unfold transformer.deduplicateAdsRecords in Hdedup. rewrite Hdedup in Hloop.
    injection Hloop as <- <-.
    eexists _, _. split; [exact Hrun|].
    intros i j raw_i raw_j Hij Hi Hj Hkey Hfirst.
    destruct (Forall2_lookup_l _ _ _ _ _ Hall Hi) as (ri & Hri & Hvi).
    destruct (Forall2_lookup_l _ _ _ _ _ Hall Hj) as (rj & Hrj & Hvj).
    destruct (Hmarks j i) as (r & entries & Hr & _ & Hh').
    { apply (duplicates_complete transformer.adsKey rs [] ∅ j i rj ri);
        [apply firsts_nil|exact Hrj|simpl; lia|exact Hij|exact Hri| |].
      - by rewrite (adsKey_values _ _ Hvi), (adsKey_values _ _ Hvj).
      - intros k rk Hk Hrk.
        destruct (Forall2_lookup_r _ _ _ _ _ Hall Hrk) as (raw_k & Hraw_k & Hvk).
        rewrite (adsKey_values _ _ Hvk), (adsKey_values _ _ Hvj), Hkey.
        by apply (Hfirst k). }
    rewrite Nat.sub_0_r in Hr. assert (r = rj) as -> by congruence.
    rewrite (Href _ _ Hrj) in Hh'. unfold map_load. rewrite Hh'. simpl.
    by rewrite lookup_insert_eq, (adsKey_values _ _ Hvj).
  - destruct (NormalizeCRMRecords_spec crm h)
      as (rs & ms & ms' & Hnorm & Hbatch & Hdedup & Hrun & _).
    destruct (normalizeCRMFrom_values crm 0 [] h) as (rs' & h0 & Hnorm' & Hall).
    simpl in Hnorm'. rewrite Hnorm in Hnorm'. injection Hnorm' as <- _.
    pose proof (crm_batch_ref _ _ _ _ _ Hbatch) as Href.
    destruct (dedupCRMFrom_marks rs 0 ∅ [] (h ++ ms)) as (out & h' & Hloop & _ & Hmarks).
    { apply Forall_forall. intros r [k Hk]%list_elem_of_lookup.
      rewrite (Href _ _ Hk), length_app.
      apply lookup_lt_Some in Hk. destruct Hbatch as (? & ? & _). lia. }
    { by eapply batch_refs_NoDup. }
    unfold transformer.deduplicateCRMRecords in Hdedup. rewrite Hdedup in Hloop.
    injection Hloop as <- <-.
    eexists _, _. split; [exact Hrun|].
    intros i j raw_i raw_j Hij Hi Hj Hkey Hfirst.
    destruct (Forall2_lookup_l _ _ _ _ _ Hall Hi) as (ri & Hri & Hvi).
    destruct (Forall2_lookup_l _ _ _ _ _ Hall Hj) as (rj & Hrj & Hvj).
    destruct (Hmarks j i) as (r & entries & Hr & _ & Hh').
    { apply (duplicates_complete NormalizedCRMRecord.OpportunityID rs [] ∅ j i rj ri);
        [apply firsts_nil|exact Hrj|simpl; lia|exact Hij|exact Hri| |].
      - by rewrite (cv_opportunity_id _ _ Hvi), (cv_opportunity_id _ _ Hvj).
      - intros k rk Hk Hrk.
        destruct (Forall2_lookup_r _ _ _ _ _ Hall Hrk) as (raw_k & Hraw_k & Hvk).
        rewrite (cv_opportunity_id _ _ Hvk), (cv_opportunity_id _ _ Hvj).
        fold (raw_crm_key raw_k). fold (raw_crm_key raw_j). rewrite Hkey.
        by apply (Hfirst k). }
    rewrite Nat.sub_0_r in Hr. assert (r = rj) as -> by congruence.
    rewrite (Href _ _ Hrj) in Hh'. unfold map_load. rewrite Hh'. simpl.
    by rewrite lookup_insert_eq, (cv_opportunity_id _ _ Hvj).
Qed.

(** ** Further statements on the sample data *)

Lemma funnel_metrics_join_witness :
  Z.of_nat (length sample_normalized_crm) < 2 ^ 63 /\
  exists keys : list string,
    NoDup keys /\
    length keys
    = length (metrics.CalculateFunnelMetrics sample_normalized_ads sample_normalized_crm "").
Proof.
  assert (Z.of_nat (length sample_normalized_crm) < 2 ^ 63) as Hlen by (simpl; lia).
  split; [exact Hlen|].
  destruct (funnel_metrics_join sample_normalized_ads sample_normalized_crm "" Hlen)
    as (keys & Hnd & _ & Hrows).
  exists keys. split; [exact Hnd|exact (Forall2_length _ _ _ Hrows)].
Defined.

Lemma safeDivide_degenerate_witness :
  (Float64.is_finite (S754_infinity false) = false \/
   Float64.is_finite (Float64.of_int 2) = false \/
   Float64.eqb (S754_infinity false) Float64.zero = true \/
   Float64.eqb (Float64.of_int 2) Float64.zero = true) /\
  exists sign, metrics.safeDivide (S754_infinity false) (Float64.of_int 2) = S754_zero sign.
Proof.
  assert (Float64.is_finite (S754_infinity false) = false \/
          Float64.is_finite (Float64.of_int 2) = false \/
          Float64.eqb (S754_infinity false) Float64.zero = true \/
          Float64.eqb (Float64.of_int 2) Float64.zero = true) as Hdeg
    by (left; reflexivity).
  split; [exact Hdeg|]. exact (safeDivide_degenerate _ _ Hdeg).
Defined.

Lemma channel_metrics_ratios_witness :
  exists row,
    row ∈ metrics.CalculateChannelMetrics sample_normalized_ads sample_normalized_crm "" /\
    ChannelMetrics.CPA row
    = metrics.safeDivide (ChannelMetrics.Cost row)
        (Float64.of_int (ChannelMetrics.Leads row)).
Proof.
  destruct (metrics.CalculateChannelMetrics sample_normalized_ads sample_normalized_crm "")
    as [|row rows] eqn:Hrows; [vm_compute in Hrows; discriminate|].
  assert (row ∈ metrics.CalculateChannelMetrics sample_normalized_ads
                  sample_normalized_crm "") as Hin by (rewrite Hrows; left).
  exists row. rewrite <-Hrows. split; [exact Hin|].
  destruct (channel_metrics_ratios _ _ _ _ Hin) as ((_ & Hcpa & _) & _). exact Hcpa.
Defined.

Lemma sample_counts_fit :
  Forall (fun r => 0 <= NormalizedAdsRecord.Clicks r
                   /\ 0 <= NormalizedAdsRecord.Impressions r) sample_normalized_ads /\
  sum_Z (NormalizedAdsRecord.Clicks <$> sample_normalized_ads) < 2 ^ 63 /\
  sum_Z (NormalizedAdsRecord.Impressions <$> sample_normalized_ads) < 2 ^ 63.
Proof.
  split; [|split; vm_compute; reflexivity].
  repeat (constructor; [split; simpl; lia|]). constructor.
Defined.

Lemma channel_metrics_totals_witness :
  (Forall (fun r => 0 <= NormalizedAdsRecord.Clicks r
                    /\ 0 <= NormalizedAdsRecord.Impressions r) sample_normalized_ads /\
   sum_Z (NormalizedAdsRecord.Clicks <$> sample_normalized_ads) < 2 ^ 63 /\
   sum_Z (NormalizedAdsRecord.Impressions <$> sample_normalized_ads) < 2 ^ 63) /\
  exists row,
    row ∈ metrics.CalculateChannelMetrics sample_normalized_ads sample_normalized_crm "" /\
    ChannelMetrics.Clicks row
    = sum_Z (NormalizedAdsRecord.Clicks <$>
               ads_group "" (ChannelMetrics.Date row) (ChannelMetrics.Channel row)
                 sample_normalized_ads).
Proof.
  split; [exact sample_counts_fit|].
  destruct sample_counts_fit as (Hall & Bc & Bi).
  destruct (metrics.CalculateChannelMetrics sample_normalized_ads sample_normalized_crm "")
    as [|row rows] eqn:Hrows; [vm_compute in Hrows; discriminate|].
  assert (row ∈ metrics.CalculateChannelMetrics sample_normalized_ads
                  sample_normalized_crm "") as Hin by (rewrite Hrows; left).
  exists row. rewrite <-Hrows. split; [exact Hin|].
  exact (proj1 (channel_metrics_totals _ _ _ _ Hall Bc Bi Hin)).
Defined.


Lemma date_round_trip_witness :
  transformer.parse_first [time.layout_date_dash; time.layout_date_slash] "2025/08/01"
    = Some sample_day /\
  time.FormatDate sample_day = "2025-08-01".
Proof.
  assert (transformer.parse_first [time.layout_date_dash; time.layout_date_slash]
            "2025/08/01" = Some sample_day) as Hparse by (vm_compute; reflexivity).
  split; [exact Hparse|]. exact (proj1 (date_round_trip _ _ Hparse)).
Defined.

Lemma utm_key_injective_witness :
  (text_ok "spring" = true /\ bar_free "spring" = true /\ bar_free "google" = true /\
   transformer.generateUTMKey "spring" "google" "cpc"
   = transformer.generateUTMKey "spring" "google" "cpc") /\
  "spring" = "spring" /\ "google" = "google" /\ "cpc" = "cpc".
Proof.
  assert (text_ok "spring" = true) as Ht by (vm_compute; reflexivity).
  assert (bar_free "spring" = true) as Hc by (vm_compute; reflexivity).
  assert (bar_free "google" = true) as Hs by (vm_compute; reflexivity).
  assert (transformer.generateUTMKey "spring" "google" "cpc"
          = transformer.generateUTMKey "spring" "google" "cpc") as Hkey by reflexivity.
  split; [by split_and!|].
  exact (utm_key_injective "spring" "google" "cpc" "spring" "google" "cpc"
           Ht Ht Hc Hc Hs Hs Hkey).
Defined.

Lemma date_range_single_day_witness :
  (time.Hour sample_day = 0 /\ time.Minute sample_day = 0 /\
   time.Second sample_day = 0 /\ time.Nanosecond sample_day = 0) /\
  storage.GetAdsRecordsByDateRange
    (storage.mk sample_normalized_ads sample_normalized_crm time.zero)
    sample_day sample_day
  = filter (fun r => NormalizedAdsRecord.Date r = sample_day) sample_normalized_ads.
Proof.
  split; [by split_and!|].
  exact (proj1 (date_range_single_day
                  (storage.mk sample_normalized_ads sample_normalized_crm time.zero)
                  sample_day eq_refl eq_refl eq_refl eq_refl)).
Defined.

Lemma date_range_reversed_witness :
  time.Before time.zero sample_day = true /\
  storage.GetAdsRecordsByDateRange
    (storage.mk sample_normalized_ads sample_normalized_crm time.zero)
    sample_day time.zero = [].
Proof.
  assert (time.Before time.zero sample_day = true) as Hrev by (vm_compute; reflexivity).
  split; [exact Hrev|].
  exact (proj1 (date_range_reversed
                  (storage.mk sample_normalized_ads sample_normalized_crm time.zero)
                  sample_day time.zero Hrev)).
Defined.

Lemma since_filter_drops_unreadable_witness :
  time.Before time.zero sample_day = true /\
  exists normalizedAds h1 normalizedCRM h2,
    transformer.NormalizeAdsRecords sample_ads [] = Some (normalizedAds, h1) /\
    transformer.NormalizeCRMRecords sample_crm h1 = Some (normalizedCRM, h2).
Proof.
  assert (time.Before time.zero sample_day = true) as Hsince by (vm_compute; reflexivity).
  split; [exact Hsince|].
  destruct (since_filter_drops_unreadable sample_ads sample_crm [] sample_day Hsince)
    as (normalizedAds & h1 & normalizedCRM & h2 & Hads & Hcrm & _).
  exists normalizedAds, h1, normalizedCRM, h2. split; [exact Hads|exact Hcrm].
Defined.


Lemma paginate_panics_witness :
  - 2 ^ 63 <= 5 + 0 < 2 ^ 63 /\
  handlers.paginate [10; 20; 30] 0 5 = None.
Proof.
  assert (- 2 ^ 63 <= 5 + 0 < 2 ^ 63) as Hsum by lia.
  split; [exact Hsum|].
  apply (proj2 (paginate_panics [10; 20; 30] 0 5 Hsum)). left. reflexivity.
Defined.


Lemma retry_backoff_total_witness :
  (0 <= 3 <= 90000 /\
   forall j, (j < Z.to_nat 3)%nat -> get_again client.transport_error <> None) /\
  slept (client.retryRequest 3 (fun _ => client.transport_error)).2 = 5000000000.
Proof.
  assert (0 <= 3 <= 90000) as Hn by lia.
  assert (forall j, (j < Z.to_nat 3)%nat -> get_again client.transport_error <> None)
    as Hagain by (intros j _; discriminate).
  split; [by split|].
  exact (retry_backoff_total 3 (fun _ => client.transport_error) Hn Hagain).
Defined.
